(** * fsl_mrs dynamic fitting: numerical utilities, results collation and
    the command-line wrapper, embedded shallowly.

    Part I holds the model, one module per source file:
    - [Float64]    numpy's float64 scalars, as the kernel's binary64 floats;
    - [Py]         the Python objects the code passes around, and the store
                   they live in (a state-and-error monad [M]);
    - [Misc]       [fsl_mrs/utils/misc.py]: [gradient], [hessian],
                   [hessian_diag], [ppm2hz], [hz2ppm], [multiply], for
                   a function [f] that returns a new object at each call;
    - [Aliasing]   [gradient] and [calculate_lap_cov] of the same file,
                   for a function whose result may share the memory of
                   its argument;
    - [DynResults] [fsl_mrs/utils/dynamic/dyn_results.py]: [dynRes],
                   [dynRes_newton], [subplot_shape];
    - [FslDynmrs]  [fsl_mrs/scripts/fsl_dynmrs.py]: [main], on a tree of
                   folders and files.
    Part II holds the properties. *)

From Stdlib Require Import Floats ZArith Lia Bool Ascii String.
From Stdlib Require Uint63.
From stdpp Require Import base option list gmap strings pretty.

(* ===================================================================== *)
(** * Part I: the model                                                   *)
(* ===================================================================== *)

(** ** numpy float64 *)

Module Float64.

(** [np.finfo(np.float32).eps], that is 2^-23; as a float64 it is exact. *)
Definition eps32 : float := 0x1p-23%float.

(** The Python literal [1e-5]: the binary64 nearest to 10^-5. *)
Definition lit_1e_5 : float := 0x1.4f8b588e368f1p-17%float.


(** A Python [int] turned into a float64 (exact below 2^53). *)
Definition of_nat (n : nat) : float :=
  PrimFloat.of_uint63 (Uint63.of_Z (Z.of_nat n)).

(** complex128 as a pair (real, imaginary). *)
Definition complex : Type := float * float.

(** The float 1.0, sign, mantissa and exponent. *)
Definition SF_one : spec_float := S754_finite false 4503599627370496 (-52).

End Float64.

(** ** Python objects and the store *)

Module Py.
Import Float64.

Definition loc := nat.

(** Nested array of mapped parameters: time points x parameter groups x
    values, as [VariableMapping.free_to_mapped] returns it and as
    [init['x']] holds it. *)
Abbreviation nested := (list (list (list float))).

Abbreviation matrix := (list (list float)).

(** A value of the dynamic-model configuration. *)
Inductive pyval :=
| PStr (s : string)
| PList (l : list string).

(** [vm.Parameters[param]]: the string ['fixed'] or ['variable'], or a
    dictionary such as [{'dynamic': 'model_lin', 'params': [...]}]. *)
Inductive behaviour :=
| BehStr (s : string)
| BehDict (d : gmap string pyval).

(** The attributes of the variable-mapping object that the results class
    reads ([vm.mapped_names] and [vm.mapped_sizes] carry a prefix here,
    the orchestrator has a [mapped_names] of its own). The class itself
    is not part of these sources: its two transforms are fields. *)
Record VariableMapping := {
  vm_mapped_names : list string;
  vm_mapped_sizes : list nat;
  Parameters : gmap string behaviour;
  ntimes : nat;
  free_to_mapped : list float -> nested;
  mapped_to_free : nested -> list float
}.

(** A single-spectrum object; only its payload matters here. *)
Record MRS := {
  FID : list complex
}.

(** The orchestrator object ([dynMRS]), by the attributes read in
    [dyn_results.py]. [mrs_list] refers to a list object whose items
    refer to [MRS] objects. *)
Record dynMRS := {
  vm : VariableMapping;
  free_names : list string;
  mapped_names : list string;
  metabolite_names : list string;
  time_var : list float;
  data : list (list complex);
  full_fwd : list float -> list complex;
  mrs_list : loc
}.

Inductive obj :=
| ONdarray (a : list float)
| ONested (m : nested)
| OMrs (m : MRS)
| OList (items : list loc)
| ODyn (d : dynMRS).

Abbreviation heap := (gmap loc obj).

(** Computations on the store; [None] is a raised exception. *)
Definition M (A : Type) : Type := heap -> option (A * heap).

#[global] Instance M_ret : MRet M := fun A a h => Some (a, h).

#[global] Instance M_bind : MBind M := fun A B k m h =>
  match m h with
  | Some (a, h') => k a h'
  | None => None
  end.

Definition raise {A : Type} : M A := fun _ => None.

Definition lift {A : Type} (o : option A) : M A :=
  fun h => match o with Some a => Some (a, h) | None => None end.

Definition read (l : loc) : M obj := fun h => lift (h !! l) h.

Definition write (l : loc) (o : obj) : M unit := fun h => Some (tt, <[l := o]> h).

Definition alloc (o : obj) : M loc :=
  fun h => let l := fresh (dom h) in Some (l, <[l := o]> h).

(** What an object is when taken for an array, a nested array, a
    spectrum, a list or an orchestrator; [None] for an object of another
    class. *)
Definition as_ndarray (o : obj) : option (list float) :=
  match o with ONdarray a => Some a | _ => None end.

Definition as_nested (o : obj) : option nested :=
  match o with ONested m => Some m | _ => None end.

Definition as_mrs (o : obj) : option MRS :=
  match o with OMrs m => Some m | _ => None end.

Definition as_list (o : obj) : option (list loc) :=
  match o with OList ls => Some ls | _ => None end.

Definition as_dyn (o : obj) : option dynMRS :=
  match o with ODyn d => Some d | _ => None end.

Definition read_ndarray (l : loc) : M (list float) :=
  o ← read l; lift (as_ndarray o).

Definition read_nested (l : loc) : M nested :=
  o ← read l; lift (as_nested o).

Definition read_mrs (l : loc) : M MRS :=
  o ← read l; lift (as_mrs o).

Definition read_list (l : loc) : M (list loc) :=
  o ← read l; lift (as_list o).

Definition read_dyn (l : loc) : M dynMRS :=
  o ← read l; lift (as_dyn o).

(** [for a in l: s = body(a, s)] *)
Fixpoint for_each {A S : Type} (l : list A) (body : A -> S -> M S) (s : S) : M S :=
  match l with
  | [] => mret s
  | a :: l' => s' ← body a s; for_each l' body s'
  end.

(** The same loop for a body that does not touch the store. *)
Fixpoint for_each_pure {A S : Type} (l : list A) (body : A -> S -> option S) (s : S)
  : option S :=
  match l with
  | [] => Some s
  | a :: l' => s' ← body a s; for_each_pure l' body s'
  end.

(** [for i in range(n): s = body(i, s)] *)
Definition for_range {S : Type} (n : nat) (body : nat -> S -> M S) (s : S) : M S :=
  for_each (seq 0 n) body s.

(** numpy [a.size], [a[i]] and [a[i] = v] on a one-dimensional array;
    an index past the end raises. *)
Definition size (x : loc) : M nat :=
  a ← read_ndarray x; mret (length a).

Definition getitem (x : loc) (i : nat) : M float :=
  a ← read_ndarray x; lift (a !! i).

Definition setitem (x : loc) (i : nat) (v : float) : M unit :=
  a ← read_ndarray x;
  if decide (i < length a) then write x (ONdarray (<[i := v]> a)) else raise.

(** [x.astype(float)]: always a new array. *)
Definition astype_float (x : loc) : M loc :=
  a ← read_ndarray x; alloc (ONdarray a).

(** [f(x)] for a function that only reads its argument and returns a
    new object at every call; the module [Aliasing] has the function
    whose result shares memory with its argument. *)
Definition call {Y : Type} (f : list float -> Y) (x : loc) : M Y :=
  a ← read_ndarray x; mret (f a).

End Py.

(** ** misc.py *)

Module Misc.
Import Float64 Py.

Section gradient.
Context {Y : Type}.
(** [f1 - f0] and [(f1 - f0) / eps] on whatever [f] returns (a scalar,
    a complex spectrum, a nested array). *)
Variable Ysub : Y -> Y -> Y.
Variable Ydivs : Y -> float -> Y.

Definition gradient_body (x : loc) (f : list float -> Y) (i : nat) (gradient : list Y)
  : M (list Y) :=
  xi ← getitem x i;
  let eps := (abs xi * eps32)%float in
  let eps := if (eps =? 0)%float then lit_1e_5 else eps in
  let xx0 := (1 * xi)%float in
  f0 ← call f x;
  xi' ← getitem x i;
  setitem x i (xi' + eps)%float;;
  f1 ← call f x;
  setitem x i xx0;;
  mret (gradient ++ [Ydivs (Ysub f1 f0) eps]).

Definition gradient (x : loc) (f : list float -> Y) : M (list Y) :=
  x ← astype_float x;
  N ← size x;
  for_range N (gradient_body x f) [].

(** The forward difference of [f] at [a] along coordinate [i], whose
    value is [xi], for the step [s]. *)
Definition forward_difference (f : list float -> Y) (a : list float) (i : nat)
    (xi s : float) : Y :=
  Ydivs (Ysub (f (<[i := (xi + s)%float]> a)) (f a)) s.

(** The step [gradient] takes along a coordinate of value [xi]. *)
Definition step (xi : float) : float :=
  let eps := (abs xi * eps32)%float in
  if (eps =? 0)%float then lit_1e_5 else eps.

(** The forward differences of every coordinate of [a], each with its
    own step. *)
Definition differences (f : list float -> Y) (a : list float) : list Y :=
  imap (fun i xi => forward_difference f a i xi (step xi)) a.

End gradient.

(** [np.zeros((n, m))] *)
Definition np_zeros (n m : nat) : matrix := replicate n (replicate m 0%float).

(** [C[i, j] = v]; an index out of bounds raises. *)
Definition setitem2 (C : matrix) (i j : nat) (v : float) : option matrix :=
  row ← C !! i;
  if decide (j < length row) then Some (<[i := <[j := v]> row]> C) else None.



(** *** hessian and hessian_diag *)

(** [a - b] on two arrays of one shape (here always two gradients of
    [x]), and [a / s] for a scalar [s]. *)
Definition np_sub (a b : list float) : list float := zip_with PrimFloat.sub a b.

Definition np_divs (a : list float) (s : float) : list float :=
  map (fun v => v / s)%float a.

(** [a.reshape(n)] of a one-dimensional array: the size must be [n]. *)
Definition reshape (a : list float) (n : nat) : option (list float) :=
  if decide (length a = n) then Some a else None.

(** [H[:, i] = col], one entry of [col] for each row of [H]; a column
    index past the end of a row raises. *)
Definition setcolumn (H : matrix) (i : nat) (col : list float) : option matrix :=
  if decide (length col = length H /\ Forall (fun row => i < length row) H)
  then Some (zip_with (fun row v => <[i := v]> row) H col)
  else None.

(** [H[i] = v] for a scalar [v]: every entry of row [i] becomes [v]. *)
Definition setrow (H : matrix) (i : nat) (v : float) : option matrix :=
  row ← H !! i; Some (<[i := map (fun _ => v) row]> H).

Section hessian.
(** [np.linalg.norm] of a one-dimensional array. *)
Variable np_linalg_norm : list float -> float.

(** The step, one for all coordinates: the norm of the gradient at [x]
    times [eps32], or [1e-5] when that is zero. *)
Definition hessian_step (gd_0 : list float) : float :=
  let eps := (np_linalg_norm gd_0 * eps32)%float in
  if (eps =? 0)%float then lit_1e_5 else eps.

(** One pass of the loop of [hessian]. The array written to is the
    caller's: there is no [astype] here. *)
Definition hessian_body (x : loc) (f : list float -> float) (gd_0 : list float)
    (eps : float) (i : nat) (hessian : matrix) : M matrix :=
  xi ← getitem x i;
  let xx0 := (1 * xi)%float in
  setitem x i (xx0 + eps)%float;;
  gd_1 ← gradient PrimFloat.sub PrimFloat.div x f;
  n ← size x;
  col ← lift (reshape (np_divs (np_sub gd_1 gd_0) eps) n);
  hessian ← lift (setcolumn hessian i col);
  setitem x i xx0;;
  mret hessian.

Definition hessian (x : loc) (f : list float -> float) : M matrix :=
  N ← size x;
  let hessian := np_zeros N N in
  gd_0 ← gradient PrimFloat.sub PrimFloat.div x f;
  let eps := hessian_step gd_0 in
  for_range N (hessian_body x f gd_0 eps) hessian.

(** One pass of the loop of [hessian_diag]. *)
Definition hessian_diag_body (x : loc) (f : list float -> float) (gd_0 : list float)
    (eps : float) (i : nat) (hess : matrix) : M matrix :=
  xi ← getitem x i;
  let xx0 := (1 * xi)%float in
  setitem x i (xx0 + eps)%float;;
  gd_1 ← gradient PrimFloat.sub PrimFloat.div x f;
  g1 ← lift (gd_1 !! i);
  g0 ← lift (gd_0 !! i);
  hess ← lift (setrow hess i ((g1 - g0) / eps)%float);
  setitem x i xx0;;
  mret hess.

Definition hessian_diag (x : loc) (f : list float -> float) : M matrix :=
  N ← size x;
  let hess := np_zeros N 1 in
  gd_0 ← gradient PrimFloat.sub PrimFloat.div x f;
  let eps := hessian_step gd_0 in
  for_range N (hessian_diag_body x f gd_0 eps) hess.

End hessian.

(** The gradient of [f] at [a] with coordinate [i] moved by [eps]. *)
Definition gradient_at_step (f : list float -> float) (a : list float) (eps : float)
    (i : nat) : list float :=
  match a !! i with
  | Some xi => differences PrimFloat.sub PrimFloat.div f (<[i := (xi + eps)%float]> a)
  | None => []
  end.

(** Column [i] of the matrix [hessian] builds, for the gradient [gd_0]
    at [a] and the step [eps]. *)
Definition hessian_column (f : list float -> float) (a gd_0 : list float)
    (eps : float) (i : nat) : list float :=
  np_divs (np_sub (gradient_at_step f a eps i) gd_0) eps.

(** What the two loops maintain: the first [s] columns of the matrix,
    the first [s] rows of the diagonal. *)
Definition columns_filled (f : list float -> float) (a gd_0 : list float)
    (eps : float) (s : nat) (H : matrix) : Prop :=
  length H = length a /\
  Forall (fun row => length row = length a) H /\
  forall (i k : nat) (row : list float),
    i < s -> H !! k = Some row -> row !! i = hessian_column f a gd_0 eps i !! k.

Definition rows_filled (f : list float -> float) (a gd_0 : list float)
    (eps : float) (s : nat) (D : matrix) : Prop :=
  length D = length a /\
  Forall (fun row => length row = 1) D /\
  forall i : nat,
    i < s -> D !! i = (fun v => [v]) <$> hessian_column f a gd_0 eps i !! i.

(** *** ppm2hz and hz2ppm *)

(** [H2O_PPM_TO_TMS = 4.65], and the literals [1E-6] and [1E6]: each is
    the float64 nearest to its decimal. *)
Definition H2O_PPM_TO_TMS : float := 0x1.299999999999ap+2%float.

Definition lit_1E_6 : float := 0x1.0c6f7a0b5ed8dp-20%float.

Definition lit_1E6 : float := 0x1.e848p+19%float.

Definition ppm2hz (cf ppm : float) (shift : bool) : float :=
  if shift then ((ppm - H2O_PPM_TO_TMS) * cf * lit_1E_6)%float
  else (ppm * cf * lit_1E_6)%float.

Definition hz2ppm (cf hz : float) (shift : bool) : float :=
  if shift then (lit_1E6 * hz / cf + H2O_PPM_TO_TMS)%float
  else (lit_1E6 * hz / cf)%float.

(** A float that is neither an infinity nor NaN. *)
Definition is_finite_float (v : float) : bool :=
  negb (is_nan v) && negb (is_infinity v).

(** *** multiply *)

(** A numpy array of any number of dimensions: its shape and its items
    in row-major order. *)
Record ndarray (E : Type) := {
  shape : list nat;
  items : list E
}.
Arguments shape {E} _.
Arguments items {E} _.

(** The number of items a shape asks for. *)
Definition shape_size (shape : list nat) : nat := foldr Nat.mul 1 shape.

(** What numpy keeps true of every array. *)
Definition well_shaped {E : Type} (x : ndarray E) : Prop :=
  length (items x) = shape_size (shape x).

Section multiply.
Context {E : Type}.
Variable mul : E -> E -> E.

(** [x.flatten()] *)
Definition flatten (x : ndarray E) : list E := items x.

(** [a * b] on one-dimensional arrays: item by item when the sizes agree,
    an array of one item is repeated, ValueError otherwise. *)
Definition np_multiply (a b : list E) : option (list E) :=
  if decide (length a = length b) then Some (zip_with mul a b)
  else
    match a, b with
    | [u], _ => Some (map (mul u) b)
    | _, [v] => Some (map (fun u => mul u v) a)
    | _, _ => None
    end.

(** [np.reshape(r, shape)]: the size of [r] must be that of the shape. *)
Definition np_reshape (r : list E) (shape : list nat) : option (ndarray E) :=
  if decide (length r = shape_size shape)
  then Some {| shape := shape; items := r |}
  else None.

Definition multiply (x y : ndarray E) : option (ndarray E) :=
  let shape := shape x in
  r ← np_multiply (flatten x) (flatten y);
  np_reshape r shape.

End multiply.

End Misc.

(** ** misc.py, for a function whose result may share memory with its
    argument *)

Module Aliasing.
Import Float64 Py Misc.

(** What a call [f(x)] hands back: a new object, or an object that
    shares the memory of [x] ([x] itself, a slice, a reshaped or
    transposed view), whose value is read from [x] whenever an
    expression uses it. *)
Inductive returned (Y : Type) :=
| New (y : Y)
| View (view : list float -> Y).
Arguments New {Y} _.
Arguments View {Y} _.

(** [f(x)], for a function that only reads its argument. *)
Definition call {Y : Type} (f : list float -> returned Y) (x : loc) : M (returned Y) :=
  a ← read_ndarray x; mret (f a).

(** The value of a result of [f(x)] at the time it is read. *)
Definition value {Y : Type} (x : loc) (r : returned Y) : M Y :=
  match r with
  | New y => mret y
  | View view => a ← read_ndarray x; mret (view a)
  end.

(** The same, for the contents [a] of [x] at that time. *)
Definition value_of {Y : Type} (r : returned Y) (a : list float) : Y :=
  match r with
  | New y => y
  | View view => view a
  end.

Section gradient.
Context {Y : Type}.
Variable Ysub : Y -> Y -> Y.
Variable Ydivs : Y -> float -> Y.

(** [(f1 - f0) / eps] is evaluated while [x[i]] is still moved: both
    results are read then, and the quotient is a new object. *)
Definition gradient_body (x : loc) (f : list float -> returned Y) (i : nat)
    (gradient : list Y) : M (list Y) :=
  xi ← getitem x i;
  let eps := (abs xi * eps32)%float in
  let eps := if (eps =? 0)%float then lit_1e_5 else eps in
  let xx0 := (1 * xi)%float in
  f0 ← call f x;
  xi' ← getitem x i;
  setitem x i (xi' + eps)%float;;
  f1 ← call f x;
  v1 ← value x f1;
  v0 ← value x f0;
  let gradient := gradient ++ [Ydivs (Ysub v1 v0) eps] in
  setitem x i xx0;;
  mret gradient.

Definition gradient (x : loc) (f : list float -> returned Y) : M (list Y) :=
  x ← astype_float x;
  N ← size x;
  for_range N (gradient_body x f) [].

(** The entry [gradient] computes for coordinate [i] of [a], whose value
    is [xi], with the step [s]: both results as they read once [x[i]]
    has been moved. *)
Definition difference (f : list float -> returned Y) (a : list float) (i : nat)
    (xi s : float) : Y :=
  let a' := <[i := (xi + s)%float]> a in
  Ydivs (Ysub (value_of (f a') a') (value_of (f a) a')) s.

Definition differences (f : list float -> returned Y) (a : list float) : list Y :=
  imap (fun i xi => difference f a i xi (step xi)) a.

End gradient.

Section calculate_lap_cov.
Context {Y D : Type}.
Variable Ysub : Y -> Y -> Y.
Variable Ydivs : Y -> float -> Y.
(** numpy's share of the work: [np.var(data - y)], where the
    subtraction raises ValueError for shapes that do not go together;
    [np.sum(np.real(gi) * np.real(gj) + np.imag(gi) * np.imag(gj))],
    the same for the products; and [np.linalg.pinv], which raises
    LinAlgError when its decomposition does not converge. *)
Variable np_var_residual : D -> Y -> option float.
Variable np_sum_products : Y -> Y -> option float.
Variable np_linalg_pinv : matrix -> option matrix.

Definition calculate_lap_cov (x : loc) (f : list float -> returned Y) (data : D)
  : M matrix :=
  N ← size x;
  let C := np_zeros N N in
  y ← call f x;
  y ← value x y;
  sig2 ← lift (np_var_residual data y);
  grad ← gradient Ysub Ydivs x f;
  C ← for_range N (fun i C =>
         for_range N (fun j C =>
           gi ← lift (grad !! i);
           gj ← lift (grad !! j);
           fij ← lift (np_sum_products gi gj);
           lift (setitem2 C i j (fij / sig2)%float)) C) C;
  lift (np_linalg_pinv C).





End calculate_lap_cov.

End Aliasing.

(** ** dyn_results.py *)

Module DynResults.
Import Float64 Py.

(** *** pandas and numpy helpers *)

(** A frame of floats: column labels and the rows of values. *)
Record DataFrame := {
  columns : list string;
  rows : list (list float)
}.

(** [pd.DataFrame(data=samples, columns=names)]: every row must have one
    value per column, or pandas raises. The values are those of [samples]
    at the time of the call. *)
Definition pd_DataFrame (samples : list (list float)) (names : list string)
  : option DataFrame :=
  if forallb (fun row => Nat.eqb (length row) (length names)) samples
  then Some {| columns := names; rows := samples |}
  else None.

Definition df_column (df : DataFrame) (j : nat) : list float :=
  omap (fun row => row !! j) (rows df).

(** The mean pandas takes of one column: NaN entries are skipped, the
    rest is summed from zero and divided by the count; NaN when nothing
    is left. The additions are made in row order, which is the order of
    numpy and pandas for a column of fewer than 8 rows; from 8 rows on
    numpy may add in pairs and the last bits of the sum can differ. *)
Definition nanmean (col : list float) : float :=
  match List.filter (fun v => negb (is_nan v)) col with
  | [] => nan
  | vals => (foldl PrimFloat.add 0%float vals / of_nat (length vals))%float
  end.

(** [df.mean().to_numpy()] *)
Definition df_mean (df : DataFrame) : list float :=
  imap (fun j _ => nanmean (df_column df j)) (columns df).

(** [a[lo:hi]] on a one-dimensional array; never raises. *)
Definition slice (a : list float) (lo hi : nat) : list float :=
  take (hi - lo) (drop lo a).

(** [tmp[:, i]] where [tmp = np.asarray(rows)]: [tmp] is two-dimensional
    only when there is at least one row and all rows have one length,
    and [i] must be below that length; IndexError (or numpy's refusal of
    ragged rows) otherwise. *)
Definition np_column (tmp : list (list float)) (i : nat) : option (list float) :=
  match tmp with
  | [] => None
  | row :: _ =>
      if forallb (fun r => Nat.eqb (length r) (length row)) tmp
      then mapM (fun r => r !! i) tmp
      else None
  end.

(** [np.diagonal(m)] of a two-dimensional array. *)
Definition np_diagonal (m : matrix) : list float :=
  omap id (imap (fun i row => row !! i) m).

(** *** Python dictionaries, in insertion order *)

Definition pydict (V : Type) : Type := list (string * V).

Fixpoint dict_get {V : Type} (k : string) (d : pydict V) : option V :=
  match d with
  | [] => None
  | (k', v) :: d' => if decide (k = k') then Some v else dict_get k d'
  end.

(** [d[k] = v]: an existing key keeps its place. *)
Fixpoint dict_set {V : Type} (k : string) (v : V) (d : pydict V) : pydict V :=
  match d with
  | [] => [(k, v)]
  | (k', v') :: d' =>
      if decide (k = k') then (k, v) :: d' else (k', v') :: dict_set k v d'
  end.

(** A column of a collected group: names or values. *)
Inductive column :=
| ColStr (names : list string)
| ColNum (vals : list float).

Definition group_result : Type := pydict column.
Definition results_dict : Type := pydict group_result.

(** [results[param][key] = v] *)
Definition set2 (param key : string) (v : column) (results : results_dict)
  : results_dict :=
  match dict_get param results with
  | Some g => dict_set param (dict_set key v g) results
  | None => results
  end.

(** *** class dynRes *)

Record dynRes := {
  _data : DataFrame;
  _dyn : loc;
  _init_x : loc
}.

(** [copy.deepcopy] of one item of the spectrum list, with deepcopy's
    memo of the objects already copied. *)
Definition deepcopy_item (l : loc) (st : list loc * gmap loc loc)
  : M (list loc * gmap loc loc) :=
  let '(copied, memo) := st in
  match memo !! l with
  | Some l' => mret (copied ++ [l'], memo)
  | None =>
      m ← read_mrs l;
      l' ← alloc (OMrs m);
      mret (copied ++ [l'], <[l := l']> memo)
  end.

(** The orchestrator object [d] with its list attribute set to [l]. *)
Definition with_mrs_list (d : dynMRS) (l : loc) : dynMRS :=
  {| vm := vm d; free_names := free_names d;
     mapped_names := mapped_names d;
     metabolite_names := metabolite_names d;
     time_var := time_var d; data := data d;
     full_fwd := full_fwd d; mrs_list := l |}.

(** [copy.deepcopy(dyn)]: new spectrum objects, a new list of them and a
    new orchestrator object that refers to the new list. *)
Definition deepcopy (dyn : loc) : M loc :=
  d ← read_dyn dyn;
  items ← read_list (mrs_list d);
  st ← for_each items deepcopy_item ([], ∅);
  l ← alloc (OList st.1);
  alloc (ODyn (with_mrs_list d l)).

(** What the copy loop maintains: the store only grows, each copied item
    is new and holds what its original holds, and so does every entry of
    the memo. *)
Definition copy_of (h0 h : heap) (l' l : loc) : Prop :=
  (l' ∉ dom h0) /\ exists m : MRS, h !! l = Some (OMrs m) /\ h !! l' = Some (OMrs m).

Definition copy_inv (h0 h : heap) (done : list loc) (st : list loc * gmap loc loc)
  : Prop :=
  (h0 ⊆ h) /\
  Forall2 (copy_of h0 h) st.1 done /\
  forall l l' : loc, st.2 !! l = Some l' -> copy_of h0 h l' l.

(** [dynRes.__init__(self, samples, dyn, init)] *)
Definition dynRes_init (samples : list (list float)) (dyn : loc)
    (init : gmap string loc) : M dynRes :=
  d ← read_dyn dyn;
  df ← lift (pd_DataFrame samples (free_names d));
  c ← deepcopy dyn;
  ix ← lift (init !! "x");
  mret {| _data := df; _dyn := c; _init_x := ix |}.

Definition data_frame (r : dynRes) : DataFrame := _data r.

Definition x (r : dynRes) : list float := df_mean (data_frame r).

(** [flatten_mapped(mapped)]: the groups of each time point side by
    side, for time points that hold at least one group each and are of
    one size, as the variable mapping makes them; [np.hstack] raises on
    a time point without groups. *)
Definition flatten_mapped (mapped : nested) : list (list float) :=
  map (fun mp => concat mp) mapped.

Definition mapped_parameters (r : dynRes) : M (list (list (list float))) :=
  d ← read_dyn (_dyn r);
  mret (map (fun fp => flatten_mapped (free_to_mapped (vm d) fp))
            (rows (_data r))).

Definition mapped_parameters_init (r : dynRes) : M (list (list float)) :=
  m ← read_nested (_init_x r);
  mret (flatten_mapped m).

Definition free_parameters_init (r : dynRes) : M (list float) :=
  d ← read_dyn (_dyn r);
  m ← read_nested (_init_x r);
  mret (mapped_to_free (vm d) m).

Definition mapped_parameters_fitted_init (r : dynRes) : M (list (list float)) :=
  fp ← free_parameters_init r;
  d ← read_dyn (_dyn r);
  mret (flatten_mapped (free_to_mapped (vm d) fp)).

Definition mapped_names (r : dynRes) : M (list string) :=
  d ← read_dyn (_dyn r); mret (Py.mapped_names d).

Definition free_names (r : dynRes) : M (list string) :=
  d ← read_dyn (_dyn r); mret (Py.free_names d).

(** The spectra an orchestrator object reaches through its list: what
    [plot_spectra] reads through [self._dyn.mrs_list]. *)
Definition spectra (dyn : loc) : M (list MRS) :=
  d ← read_dyn dyn;
  items ← read_list (mrs_list d);
  for_each items (fun l acc => m ← read_mrs l; mret (acc ++ [m])) [].

(** *** collected_results *)

(** [[f'{param}_{x}' for x in range(nmapped)]] *)
Definition synthetic_names (param : string) (nmapped : nat) : list string :=
  map (fun i => param +:+ "_" +:+ pretty i) (seq 0 nmapped).

(** [beh == 'fixed'], [beh == 'variable']: a dictionary equals no string. *)
Definition beh_eq (beh : behaviour) (s : string) : bool :=
  match beh with
  | BehStr s' => bool_decide (s' = s)
  | BehDict _ => false
  end.

(** [sub in s] on strings. *)
Fixpoint str_contains (sub s : string) : bool :=
  String.prefix sub s ||
  match s with
  | EmptyString => false
  | String _ s' => str_contains sub s'
  end.

(** ['dynamic' in beh]: a substring of a string, a key of a dictionary. *)
Definition dynamic_in (beh : behaviour) : bool :=
  match beh with
  | BehStr s => str_contains "dynamic" s
  | BehDict d => bool_decide (is_Some (d !! "dynamic"))
  end.

(** The items of a string, each a string of one character. *)
Fixpoint chars (s : string) : list string :=
  match s with
  | EmptyString => []
  | String c s' => String c EmptyString :: chars s'
  end.

(** [vm.Parameters[param]['params']], as the sequence the code walks: a
    string cannot be indexed by ['params'] (TypeError), a dictionary
    without the key raises KeyError. *)
Definition params_of (beh : behaviour) : option (list string) :=
  match beh with
  | BehStr _ => None
  | BehDict d =>
      match d !! "params" with
      | Some (PList l) => Some l
      | Some (PStr s) => Some (chars s)
      | None => None
      end
  end.

(** The first column of a group: synthetic names, or the metabolite
    names for ['conc']. *)
Definition name_column (param : string) (nmapped : nat) (metab_names : list string)
    (results : results_dict) : results_dict :=
  if negb (bool_decide (param = "conc"))
  then set2 param "name" (ColStr (synthetic_names param nmapped)) results
  else set2 param "metab" (ColStr metab_names) results.

(** One pass of the loop over [enumerate(vm.mapped_names)]; the state is
    [(results, counter)]. *)
Definition collect_group (vm : VariableMapping) (metab_names : list string)
    (values : list float) (index : nat) (param : string)
    (st : results_dict * nat) : option (results_dict * nat) :=
  let '(results, counter) := st in
  let results := dict_set param [] results in
  nmapped ← vm_mapped_sizes vm !! index;
  beh ← Parameters vm !! param;
  if beh_eq beh "fixed" then
    let results := name_column param nmapped metab_names results in
    let results :=
      set2 param "Values" (ColNum (slice values counter (counter + nmapped))) results in
    Some (results, counter + nmapped)
  else if beh_eq beh "variable" then
    let results := name_column param nmapped metab_names results in
    Some (foldl (fun '(results, counter) t =>
                   (set2 param ("t" +:+ pretty t)
                      (ColNum (slice values counter (counter + nmapped))) results,
                    counter + nmapped))
                (results, counter) (seq 0 (ntimes vm)))
  else if dynamic_in beh then
    dyn_name ← params_of beh;
    let nfree := length dyn_name in
    let results := name_column param nmapped metab_names results in
    let '(tmp, counter) :=
      foldl (fun '(tmp, counter) (t : nat) =>
               (tmp ++ [slice values counter (counter + nfree)], counter + nfree))
            ([], counter) (seq 0 nmapped) in
    results ← foldl (fun acc '(i, t) =>
                       results ← acc;
                       col ← np_column tmp i;
                       Some (set2 param t (ColNum col) results))
                    (Some results) (imap pair dyn_name);
    Some (results, counter)
  else Some (results, counter).

(** [collected_results(self, to_file=None)] *)
Definition collected_results (r : dynRes) : M results_dict :=
  d ← read_dyn (_dyn r);
  let vm := vm d in
  let values := x r in
  let metab_names := metabolite_names d in
  st ← for_each (imap pair (vm_mapped_names vm))
         (fun '(index, param) st =>
            lift (collect_group vm metab_names values index param st))
         ([], 0);
  mret st.1.

(** *** class dynRes_newton *)

(** The free-parameter part of the object; the mapped-parameter block of
    the constructor fills [_mapped_params] and [_std], and [_corr_dyn] is
    derived from the two fields below. *)
Record dynRes_newton := {
  base : dynRes;
  _cov_dyn : matrix;
  _std_dyn : list float
}.

Section newton.
(** [calculate_lap_cov(x, f, data)] of misc.py ends in numpy's
    [var] and [linalg.pinv], which have no model here: the matrix it
    returns is taken as given, [None] when it raises. *)
Variable calculate_lap_cov :
  list float -> (list float -> list complex) -> list complex -> option matrix.

(** [dynRes_newton.__init__(self, samples, dyn, init)] up to
    [self._std_dyn], lines 414 to 424; [dynRes_newton_construct] below
    has the whole constructor. *)
Definition dynRes_newton_init (samples : list float) (dyn : loc)
    (init : gmap string loc) : M dynRes_newton :=
  b ← dynRes_init [samples] dyn init;
  d ← read_dyn dyn;
  let data := concat (Py.data d) in
  cov ← lift (calculate_lap_cov samples (full_fwd d) data);
  let crlb_dyn := np_diagonal cov in
  let std := map PrimFloat.sqrt crlb_dyn in
  mret {| base := b; _cov_dyn := cov; _std_dyn := std |}.

End newton.

(** [pd.Series(values, index)]: the lengths must agree. *)
Definition pd_Series (values : list float) (index : list string)
  : option (list (string * float)) :=
  if Nat.eqb (length values) (length index) then Some (zip index values) else None.

Definition std_dyn (r : dynRes_newton) : M (list (string * float)) :=
  names ← free_names (base r);
  lift (pd_Series (_std_dyn r) names).

(** *** Vocabulary of the statements *)

(** The state of [collected_results] after its loop, for the copy [d]. *)
Definition collected (r : dynRes) (d : dynMRS) : option (results_dict * nat) :=
  for_each_pure (imap pair (vm_mapped_names (vm d)))
    (fun '(index, param) st =>
       collect_group (vm d) (metabolite_names d) (x r) index param st)
    ([], 0).

(** The objects that make up the orchestrator [dyn] in the store [h]:
    the object itself, its spectrum list and the spectra in the list. *)
Definition orchestrator_objects (dyn : loc) (h : heap) : gset loc :=
  ({[dyn]} ∪
   match h !! dyn ≫= as_dyn with
   | Some d =>
       {[mrs_list d]} ∪
       match h !! mrs_list d ≫= as_list with
       | Some items => list_to_set items
       | None => ∅
       end
   | None => ∅
   end) ∩ dom h.

Definition same_class (o1 o2 : obj) : bool :=
  match o1, o2 with
  | ONdarray _, ONdarray _ => true
  | ONested _, ONested _ => true
  | OMrs _, OMrs _ => true
  | OList _, OList _ => true
  | ODyn _, ODyn _ => true
  | _, _ => false
  end.

(** [h'] is [h] after the objects at [ls] were changed in place: each
    of them is still an object of its class, whatever it holds now, and
    every other cell is as it was. *)
Definition mutated (ls : gset loc) (h h' : heap) : Prop :=
  forall l : loc,
    (l ∉ ls -> h' !! l = h !! l) /\
    (l ∈ ls -> match h !! l, h' !! l with
               | Some o, Some o' => same_class o o' = true
               | None, None => True
               | _, _ => False
               end).

(** A behaviour that is neither ['fixed'] nor ['variable'] and in which
    ['dynamic'] does not occur: not as a substring of a string, not as a
    key of a dictionary. *)
Definition unrecognised (beh : behaviour) : Prop :=
  match beh with
  | BehStr s => s <> "fixed" /\ s <> "variable" /\ str_contains "dynamic" s = false
  | BehDict d => d !! "dynamic" = None
  end.

(** [m] is the very float [v], or [v] is the negative zero and [m] the
    positive one. *)
Definition same_number (m v : float) : Prop :=
  m = v \/ (v = PrimFloat.neg_zero /\ m = PrimFloat.zero).




(** Everything a results object returns, in the store [h]. *)
Record observation := {
  obs_data_frame : DataFrame;
  obs_x : list float;
  obs_mapped_parameters : option (list (list (list float)));
  obs_mapped_parameters_init : option (list (list float));
  obs_free_parameters_init : option (list float);
  obs_mapped_parameters_fitted_init : option (list (list float));
  obs_mapped_names : option (list string);
  obs_free_names : option (list string);
  obs_collected_results : option results_dict;
  obs_spectra : option (list MRS)
}.

Definition observe (r : dynRes) (h : heap) : observation := {|
  obs_data_frame := data_frame r;
  obs_x := x r;
  obs_mapped_parameters := fst <$> mapped_parameters r h;
  obs_mapped_parameters_init := fst <$> mapped_parameters_init r h;
  obs_free_parameters_init := fst <$> free_parameters_init r h;
  obs_mapped_parameters_fitted_init := fst <$> mapped_parameters_fitted_init r h;
  obs_mapped_names := fst <$> mapped_names r h;
  obs_free_names := fst <$> free_names r h;
  obs_collected_results := fst <$> collected_results r h;
  obs_spectra := fst <$> spectra (_dyn r) h
|}.

(** *** subplot_shape and the grid of plot_spectra *)

(** The [while] loop of [subplot_shape], for at most [fuel] passes;
    [None] when that is not enough. *)
Fixpoint subplot_loop (fuel plots_needed col row counter : nat) : option (nat * nat) :=
  if col * row <? plots_needed then
    match fuel with
    | 0 => None
    | S fuel =>
        if negb (counter mod 2 =? 0)
        then subplot_loop fuel plots_needed (col + 1) row (counter + 1)
        else subplot_loop fuel plots_needed col (row + 1) (counter + 1)
    end
  else Some (col, row).

(** [subplot_shape(plots_needed)] for a count of plots.
    [int(np.floor(np.sqrt(n)))] is the integer square root of [n]:
    float64's square root is correctly rounded, and for [n] below 2^52
    its floor is the integer square root. *)
Definition subplot_shape (fuel plots_needed : nat) : option (nat * nat) :=
  let col := Nat.sqrt plots_needed in
  let row := Nat.sqrt plots_needed in
  let counter := 0 in
  subplot_loop fuel plots_needed col row counter.

(** [plot_spectra], lines 298, 299 and 305: the cell (row, column), both
    counted from one, in which spectrum [idx] is drawn on a grid of [col]
    columns; ZeroDivisionError for no columns. *)
Definition subplot_cell (col idx : nat) : option (nat * nat) :=
  if col =? 0 then None
  else
    let coldx := idx mod col in
    let rowdx := idx / col in
    Some (rowdx + 1, coldx + 1).

(** *** The layout of the value vector in collected_results *)

(** How many entries of the value vector the pass for one group takes:
    the increments of [counter] in the three branches. *)
Definition consumed (vm : VariableMapping) (index : nat) (param : string) : nat :=
  match vm_mapped_sizes vm !! index, Parameters vm !! param with
  | Some nmapped, Some beh =>
      if beh_eq beh "fixed" then nmapped
      else if beh_eq beh "variable" then ntimes vm * nmapped
      else if dynamic_in beh then
        match params_of beh with
        | Some dyn_name => nmapped * length dyn_name
        | None => 0
        end
      else 0
  | _, _ => 0
  end.

(** The counter when the pass for the group at [index] starts: what the
    groups before it have taken. *)
Definition offset (vm : VariableMapping) (index : nat) : nat :=
  sum_list_with (fun '(i, param) => consumed vm i param)
                (take index (imap pair (vm_mapped_names vm))).

(** The first column of a group, with its key. *)
Definition first_column (param : string) (nmapped : nat) (metab_names : list string)
  : string * column :=
  if bool_decide (param = "conc") then ("metab", ColStr metab_names)
  else ("name", ColStr (synthetic_names param nmapped)).

(** The column of time point [t] in a variable group that starts at
    [c0], and row [k] of [tmp] in a dynamic group that starts at [c0]. *)
Definition time_column (values : list float) (nmapped c0 t : nat) : string * column :=
  ("t" +:+ pretty t,
   ColNum (slice values (c0 + t * nmapped) (c0 + t * nmapped + nmapped))).

Definition free_row (values : list float) (nfree c0 k : nat) : list float :=
  slice values (c0 + k * nfree) (c0 + k * nfree + nfree).

(** When the pass for one group, started at [counter], raises nothing:
    its size and its behaviour are there, and if the dynamic branch is
    taken, the behaviour has its ['params'] and, unless there are none,
    the group has a mapped parameter and the value vector holds a full
    row of values for every one of them. *)
Definition group_returns (vm : VariableMapping) (values : list float)
    (counter index : nat) (param : string) : Prop :=
  exists (nmapped : nat) (beh : behaviour),
    vm_mapped_sizes vm !! index = Some nmapped /\
    Parameters vm !! param = Some beh /\
    (beh_eq beh "fixed" = false -> beh_eq beh "variable" = false ->
     dynamic_in beh = true ->
     exists dyn_name : list string,
       params_of beh = Some dyn_name /\
       (dyn_name = [] \/
        (0 < nmapped /\ counter + nmapped * length dyn_name <= length values))).

(** *** The correlation matrix of a Newton result *)

(** [std[:, np.newaxis] * std[np.newaxis, :]]: the N x N table of the
    products [std[i] * std[j]]. *)
Definition np_outer (std : list float) : matrix :=
  map (fun si => map (fun sj => si * sj)%float std) std.

(** [a / b] on two matrices of one shape (numpy would also stretch a
    dimension of size one; the matrices divided here are both N x N). *)
Definition np_divide (a b : matrix) : option matrix :=
  if decide (Forall2 (fun ra rb => length ra = length rb) a b)
  then Some (zip_with (zip_with PrimFloat.div) a b)
  else None.

(** [self._corr_dyn], line 425, from the two attributes set before it;
    [None] when the division raises. *)
Definition _corr_dyn (r : dynRes_newton) : option matrix :=
  np_divide (_cov_dyn r) (np_outer (_std_dyn r)).

(** *** The whole constructor of dynRes_newton *)

(** The object as the constructor leaves it: the free-parameter part,
    [_corr_dyn], and what the mapped-parameter block stores
    ([_mapped_params] and [_std]). *)
Record dynRes_newton_object (Mapped : Type) := {
  free_part : dynRes_newton;
  corr_part : matrix;
  mapped_part : Mapped
}.
Arguments free_part {Mapped} _.
Arguments corr_part {Mapped} _.
Arguments mapped_part {Mapped} _.

Section newton_construct.
Variable calculate_lap_cov :
  list float -> (list float -> list complex) -> list complex -> option matrix.
(** Lines 428 to 441, the mapped-parameter block. It calls
    [vm.mapped_to_dict], a method of a class outside these sources, and
    works on arrays of arrays with numpy's matrix products; it is taken
    as given: from the orchestrator, the free parameters and [_cov_dyn]
    it yields [_mapped_params] and [_std], or raises, and it may make
    new objects on the way. *)
Variable Mapped : Type.
Variable mapped_block : dynMRS -> list float -> matrix -> M Mapped.

(** [dynRes_newton.__init__(self, samples, dyn, init)], all of it. *)
Definition dynRes_newton_construct (samples : list float) (dyn : loc)
    (init : gmap string loc) : M (dynRes_newton_object Mapped) :=
  r ← dynRes_newton_init calculate_lap_cov samples dyn init;
  corr ← lift (_corr_dyn r);
  d ← read_dyn dyn;
  m ← mapped_block d samples (_cov_dyn r);
  mret {| free_part := r; corr_part := corr; mapped_part := m |}.

End newton_construct.

End DynResults.

(** ** A worked example *)

Module Examples.
Import Float64 Py DynResults.

(** A small fitting context: two metabolites, one linear dynamic group,
    a fixed one, a variable one and one whose behaviour is not known;
    the spectrum list holds one spectrum twice and another once. *)
Definition example_vm : VariableMapping := {|
  vm_mapped_names := ["conc"; "eps"; "gamma"; "sigma"];
  vm_mapped_sizes := [2; 1; 1; 3];
  Parameters :=
    <["conc" := BehDict (<["dynamic" := PStr "model_lin"]>
                          (<["params" := PList ["c_0"; "c_slope"]]> ∅))]>
      (<["eps" := BehStr "fixed"]>
         (<["gamma" := BehStr "variable"]>
            (<["sigma" := BehStr "smooth"]> ∅)));
  ntimes := 2;
  free_to_mapped := fun free => [[free]; [free]];
  mapped_to_free := fun mapped => concat (concat mapped)
|}.

Definition example_dyn : dynMRS := {|
  vm := example_vm;
  Py.free_names := ["conc_0_c_0"; "conc_0_c_slope"; "conc_1_c_0";
                    "conc_1_c_slope"; "eps_0"; "gamma_0_t0"; "gamma_0_t1"];
  Py.mapped_names := ["conc"; "eps"; "gamma"; "sigma"];
  metabolite_names := ["NAA"; "Cr"];
  time_var := [0; 1]%float;
  data := [[(1, 0)]; [(2, 0)]]%float;
  full_fwd := fun _ => [(1, 0); (2, 0)]%float;
  mrs_list := 1
|}.

Definition example_store : heap :=
  <[0 := ODyn example_dyn]>
    (<[1 := OList [2; 2; 3]]>
       (<[2 := OMrs {| FID := [(1, 0)]%float |}]>
          (<[3 := OMrs {| FID := [(2, 0)]%float |}]>
             (<[4 := ONested [[[1; 2]; [3]]; [[4; 5]; [6]]]%float]> ∅)))).

Definition example_init : gmap string loc := <["x" := 4]> ∅.

Definition example_samples : list float := [1; 2; 3; 4; 5; 6; 7]%float.

(** The results object the constructor builds from the example, and the
    store it leaves: the copies of the two spectra, of the list and of
    the orchestrator are the new objects 5 to 8. *)
Definition example_result : dynRes := {|
  _data := {| columns := Py.free_names example_dyn; rows := [example_samples] |};
  _dyn := 8;
  _init_x := 4
|}.

Definition example_store_after : heap :=
  <[8 := ODyn (with_mrs_list example_dyn 7)]>
    (<[7 := OList [5; 5; 6]]>
       (<[6 := OMrs {| FID := [(2, 0)]%float |}]>
          (<[5 := OMrs {| FID := [(1, 0)]%float |}]> example_store))).

(** What [collected_results] returns for the example. *)
Definition example_collected : results_dict :=
  [("conc", [("metab", ColStr ["NAA"; "Cr"]);
             ("c_0", ColNum [1; 3]%float);
             ("c_slope", ColNum [2; 4]%float)]);
   ("eps", [("name", ColStr ["eps_0"]); ("Values", ColNum [5]%float)]);
   ("gamma", [("name", ColStr ["gamma_0"]); ("t0", ColNum [6]%float);
              ("t1", ColNum [7]%float)]);
   ("sigma", [])].

(** A covariance matrix for the example, with one negative entry on its
    diagonal. *)
Definition example_cov : matrix :=
  imap (fun i _ =>
          imap (fun j _ =>
                  if Nat.eqb i j then (if Nat.eqb i 0 then (-4) else 4) else 0)%float
               example_samples)
       example_samples.

Definition example_lap_cov (free : list float) (f : list float -> list complex)
    (data : list complex) : option matrix :=
  Some example_cov.

Definition example_newton : dynRes_newton := {|
  base := example_result;
  _cov_dyn := example_cov;
  _std_dyn := [nan; 2; 2; 2; 2; 2; 2]%float
|}.

(** A variable mapping whose list of sizes stops short of its names. *)
Definition example_truncated_dyn : dynMRS := {|
  vm := {| vm_mapped_names := ["conc"; "eps"];
           vm_mapped_sizes := [2];
           Parameters := Parameters example_vm;
           ntimes := 2;
           free_to_mapped := free_to_mapped example_vm;
           mapped_to_free := mapped_to_free example_vm |};
  Py.free_names := Py.free_names example_dyn;
  Py.mapped_names := ["conc"; "eps"];
  metabolite_names := metabolite_names example_dyn;
  time_var := time_var example_dyn;
  data := data example_dyn;
  full_fwd := full_fwd example_dyn;
  mrs_list := 1
|}.

End Examples.

(** ** fsl_dynmrs.py *)

Module FslDynmrs.

(** The parsed command line, by the options [main] reads before the
    fitting starts. *)
Record Args := {
  data : string;
  basis : string;
  output : string;
  dyn_config : string;
  time_variables : list string;
  h2o : option string;
  verbose : bool;
  overwrite : bool
}.

(** What the script acts on: the directories and the regular files that
    exist, the trees it has removed, the lines waiting on standard input,
    the lines printed, and the files it has asked the reader for. Paths
    are written as pathlib prints them: components joined by [/], no
    empty component, no [..]; there are no symbolic links, and the
    process may write wherever it tries to. *)
Record world := {
  dirs : gset string;
  files : gset string;
  removed : list string;
  stdin : list string;
  stdout : list string;
  files_read : list string
}.

Inductive exn :=
| SystemExit
| EOFError
| ReadError
| FileExistsError
| FileNotFoundError
| NotADirectoryError
| NotImplementedError (msg : string).

(** A run either returns or raises; what it did to the world stays done
    in both cases. *)
Definition Run (A : Type) : Type := world -> (exn + A) * world.

#[global] Instance Run_ret : MRet Run := fun A a w => (inr a, w).

#[global] Instance Run_bind : MBind Run := fun A B k m w =>
  match m w with
  | (inr a, w') => k a w'
  | (inl e, w') => (inl e, w')
  end.

Definition throw {A : Type} (e : exn) : Run A := fun w => (inl e, w).

(** [exit()] *)
Definition exit {A : Type} : Run A := throw SystemExit.

Definition print (line : string) : Run unit := fun w =>
  (inr tt, {| dirs := dirs w; files := files w; removed := removed w;
              stdin := stdin w; stdout := stdout w ++ [line];
              files_read := files_read w |}).

(** [input()]: the next line, EOFError when there is none. *)
Definition input : Run string := fun w =>
  match stdin w with
  | [] => (inl EOFError, w)
  | line :: rest =>
      (inr line, {| dirs := dirs w; files := files w; removed := removed w;
                    stdin := rest; stdout := stdout w;
                    files_read := files_read w |})
  end.

Definition is_dir (p : string) : Run bool := fun w =>
  (inr (bool_decide (p ∈ dirs w)), w).

Definition sep : ascii := "/"%char.

(** [q] is [p] or lies below it. *)
Definition within (p q : string) : bool :=
  bool_decide (q = p) || String.prefix (p +:+ String sep EmptyString) q.

(** The parents of a path, outermost first: what stands before each
    separator of [rest], [done] being what has been read already. The
    root and the working directory are not listed: they always exist. *)
Fixpoint parents_from (done rest : string) : list string :=
  match rest with
  | EmptyString => []
  | String c rest' =>
      (if bool_decide (c = sep) && negb (bool_decide (done = EmptyString))
       then [done] else [])
      ++ parents_from (done +:+ String c EmptyString) rest'
  end.

Definition parents (p : string) : list string := parents_from EmptyString p.

(** [shutil.rmtree(p)]: [p] is gone, with every folder and file in it;
    a path that is not a directory raises and nothing is removed. *)
Definition rmtree (p : string) : Run unit := fun w =>
  if decide (p ∈ dirs w) then
    (inr tt, {| dirs := filter (fun q => within p q = false) (dirs w);
                files := filter (fun q => within p q = false) (files w);
                removed := removed w ++ [p];
                stdin := stdin w; stdout := stdout w;
                files_read := files_read w |})
  else if decide (p ∈ files w) then (inl NotADirectoryError, w)
  else (inl FileNotFoundError, w).

(** [p.mkdir(parents=True, exist_ok=True)]: the missing parents are made
    and then [p]; a directory that exists is left as it is. A regular
    file at [p] raises FileExistsError, one at a parent of [p]
    NotADirectoryError, and nothing is made. *)
Definition mkdir (p : string) : Run unit := fun w =>
  if decide (p ∈ files w) then (inl FileExistsError, w)
  else if decide (Exists (fun q => q ∈ files w) (parents p)) then
    (inl NotADirectoryError, w)
  else
    (inr tt, {| dirs := {[p]} ∪ list_to_set (parents p) ∪ dirs w;
                files := files w; removed := removed w; stdin := stdin w;
                stdout := stdout w; files_read := files_read w |}).

Definition when (b : bool) (m : Run unit) : Run unit :=
  if b then m else mret tt.

(** [s.upper()] on the ASCII letters. *)
Definition upper_ascii (c : ascii) : ascii :=
  let n := nat_of_ascii c in
  if (97 <=? n)%nat && (n <=? 122)%nat then ascii_of_nat (n - 32) else c.

Fixpoint upper (s : string) : string :=
  match s with
  | EmptyString => EmptyString
  | String c s' => String (upper_ascii c) (upper s')
  end.

Definition nl : string := String (ascii_of_nat 10) EmptyString.

Definition h2o_message : string :=
  "H2O referencing not yet implemented for dynamic fitting.".

Section main.
(** [mrs_io.read_FID] and what [main] does from the MRS list onwards
    (fitting, saving, report) belong to modules outside these sources. *)
Variable Data : Type.
Variable read_FID : string -> option Data.
Variable shape : Data -> string.
Variable dim_tags : Data -> string.
Variable fit_and_save : Args -> Data -> Run unit.

Definition mrs_io_read_FID (p : string) : Run Data := fun w =>
  let w' := {| dirs := dirs w; files := files w; removed := removed w;
               stdin := stdin w; stdout := stdout w;
               files_read := files_read w ++ [p] |} in
  match read_FID p with
  | Some d => (inr d, w')
  | None => (inl ReadError, w')
  end.

(** Lines 102-118: the output folder. *)
Definition check_output_folder (args : Args) : Run unit :=
  let overwrite := overwrite args in
  exists_ ← is_dir (output args);
  if (exists_ : bool) then
    overwrite ← (if negb overwrite then
                   print ("Folder '" +:+ output args +:+ "' exists."
                          +:+ " Are you sure you want to delete it? [Y,N]");;
                   response ← input;
                   mret (bool_decide (upper response = "Y"))
                 else mret overwrite);
    if negb (overwrite : bool) then
      print "Please specify a different output folder name.";;
      exit
    else
      rmtree (output args);;
      mkdir (output args)
  else
    mkdir (output args).

(** [main()], from the parsed arguments on (the late imports and the
    warnings filter of lines 85-100 have no part in what follows). *)
Definition main (args : Args) : Run unit :=
  check_output_folder args;;
  when (verbose args)
    (print ("--->> Read input data" +:+ nl);;
     print ("  " +:+ data args));;
  d ← mrs_io_read_FID (data args);
  when (verbose args)
    (print ("data shape : " +:+ shape d);;
     print ("data tags  : " +:+ dim_tags d));;
  (if h2o args is Some _ then throw (NotImplementedError h2o_message) else mret tt);;
  fit_and_save args d.

(** The specification's reading of the rejection: the run ends in the
    not-implemented error and nothing has been done before it. *)
Definition rejected_at_once (args : Args) (w : world) : Prop :=
  main args w = (inl (NotImplementedError h2o_message), w).

End main.

(** A command line that asks for water referencing and for overwriting
    the output folder. *)
Definition example_args : Args := {|
  data := "metab.nii.gz";
  basis := "basis";
  output := "out";
  dyn_config := "config.py";
  time_variables := ["bvals"];
  h2o := Some "wref.nii.gz";
  verbose := false;
  overwrite := true
|}.

(** A world in which the output folder exists already. *)
Definition example_world : world := {|
  dirs := {["out"]};
  files := ∅;
  removed := [];
  stdin := ["n"];
  stdout := [];
  files_read := []
|}.

(** The question put to the user when the output folder exists. *)
Definition overwrite_prompt (args : Args) : string :=
  "Folder '" +:+ output args +:+ "' exists."
  +:+ " Are you sure you want to delete it? [Y,N]".

End FslDynmrs.

(* ===================================================================== *)
(** * Part II: properties                                                 *)
(* ===================================================================== *)

(** ** Facts on binary64 arithmetic *)

Module Float64Facts.
Import Float64.

#[local] Open Scope float_scope.

Lemma Prim2SF_one : Prim2SF 1 = SF_one.
Proof. reflexivity. Qed.

Lemma shr_52 (m : positive) :
  SpecFloat.iter_pos shr_1 52
    (Build_shr_record (Zpos (4503599627370496 * m)) false false)
  = Build_shr_record (Zpos m) false false.
Proof. reflexivity. Qed.

Lemma digits_52 (m : positive) :
  Zpos (digits2_pos (4503599627370496 * m)) = (Zpos (digits2_pos m) + 52)%Z.
Proof. cbv [Pos.mul digits2_pos]. fold digits2_pos. rewrite !Pos2Z.inj_succ. lia. Qed.

(** The last stage of rounding leaves a canonical mantissa as it is. *)
Lemma round_tail (sg : bool) (m : positive) (e : Z) :
  fexp prec emax (Zpos (digits2_pos m) + e) = e ->
  (e <=? emax - prec)%Z = true ->
  (let '(mrs, e') := shr_fexp prec emax (Zpos m) e loc_Exact in
   match shr_m mrs with
   | Z0 => S754_zero sg
   | Zpos m' =>
       if (e' <=? emax - prec)%Z then S754_finite sg m' e' else S754_infinity sg
   | Zneg _ => S754_nan
   end) = S754_finite sg m e.
Proof.
  intros Hc Hb. unfold shr_fexp. cbn [Zdigits2].
  rewrite Hc, Z.sub_diag. cbn [shr shr_record_of_loc shr_m]. now rewrite Hb.
Qed.


Lemma valid_finite (sg : bool) (m : positive) (e : Z) :
  valid_binary (S754_finite sg m e) = true ->
  fexp prec emax (Zpos (digits2_pos m) + e) = e /\ (e <=? emax - prec)%Z = true.
Proof.
  cbn [valid_binary]. unfold SpecFloat.valid_binary, bounded, canonical_mantissa.
  intros [Hc Hb]%andb_prop. now apply Z.eqb_eq in Hc.
Qed.

Lemma SF64mul_1_l (s : spec_float) :
  valid_binary s = true -> SF64mul SF_one s = s.
Proof.
  destruct s as [sg|sg| |sg m e]; try reflexivity.
  intros [Hc Hb]%valid_finite.
  unfold SF64mul, SF_one, SFmul. cbn [xorb].
  unfold binary_round_aux, shr_fexp at 1.
  cbn [Zdigits2]. rewrite digits_52.
  replace (Z.pos (digits2_pos m) + 52 + (-52 + e))%Z
    with (Z.pos (digits2_pos m) + e)%Z by lia.
  rewrite Hc.
  replace (e - (-52 + e))%Z with 52%Z by lia.
  cbn [shr shr_record_of_loc]. rewrite shr_52.
  cbn [shr_m loc_of_shr_record round_nearest_even].
  replace (-52 + e + 52)%Z with e by lia.
  now apply round_tail.
Qed.

(** IEEE: multiplying by one changes nothing, NaN and signed zeros
    included. *)
Lemma mul_1_l (v : float) : 1 * v = v.
Proof.
  apply Prim2SF_inj. rewrite mul_spec, Prim2SF_one.
  apply SF64mul_1_l, Prim2SF_valid.
Qed.





(** The square root of a negative number is NaN. *)
Lemma sqrt_neg_nan (v : float) :
  (v <? 0) = true -> is_nan (PrimFloat.sqrt v) = true.
Proof.
  unfold is_nan. rewrite ltb_spec, FloatAxioms.eqb_spec, sqrt_spec.
  change (Prim2SF 0) with (S754_zero false).
  destruct (Prim2SF v) as [sg|[|]| |[|] m e]; cbn; try discriminate; reflexivity.
Qed.


(** There is one NaN. *)
Lemma is_nan_eq (v : float) : is_nan v = true -> v = nan.
Proof.
  unfold is_nan. rewrite FloatAxioms.eqb_spec. intros Hv.
  apply Prim2SF_inj. change (Prim2SF nan) with S754_nan.
  destruct (Prim2SF v) as [sg|sg| |sg m e]; try reflexivity; exfalso.
  - now destruct sg.
  - now destruct sg.
  - unfold SFeqb, SFcompare in Hv.
    rewrite Z.compare_refl, Pos.compare_cont_refl in Hv. now destruct sg.
Qed.







End Float64Facts.

(** ** The store *)

Module PyFacts.
Import Py.

Lemma bind_unfold {A B : Type} (m : M A) (k : A -> M B) (h : heap) :
  (m ≫= k) h = match m h with Some (a, h') => k a h' | None => None end.
Proof. reflexivity. Qed.

(** A read returns what the cell holds and leaves the store as it is. *)
Lemma read_as {A : Type} (as_ : obj -> option A) (l : loc) (h : heap) :
  (o ← read l; lift (as_ o)) h
  = match h !! l ≫= as_ with Some a => Some (a, h) | None => None end.
Proof.
  rewrite bind_unfold. unfold read, lift.
  destruct (h !! l) as [o|]; [| reflexivity]. cbn. now destruct (as_ o).
Qed.

Lemma read_ndarray_eq (h : heap) (l : loc) (a : list float) :
  h !! l = Some (ONdarray a) -> read_ndarray l h = Some (a, h).
Proof. intros H. unfold read_ndarray. now rewrite read_as, H. Qed.

Lemma read_dyn_eq (h : heap) (l : loc) (d : dynMRS) :
  h !! l = Some (ODyn d) -> read_dyn l h = Some (d, h).
Proof. intros H. unfold read_dyn. now rewrite read_as, H. Qed.

Lemma read_dyn_inv (h h' : heap) (l : loc) (d : dynMRS) :
  read_dyn l h = Some (d, h') -> h' = h /\ h !! l = Some (ODyn d).
Proof.
  unfold read_dyn. rewrite read_as.
  destruct (h !! l) as [[]|]; cbn; intros [=]; subst; auto.
Qed.

Lemma read_list_inv (h h' : heap) (l : loc) (ls : list loc) :
  read_list l h = Some (ls, h') -> h' = h /\ h !! l = Some (OList ls).
Proof.
  unfold read_list. rewrite read_as.
  destruct (h !! l) as [[]|]; cbn; intros [=]; subst; auto.
Qed.

Lemma read_mrs_inv (h h' : heap) (l : loc) (m : MRS) :
  read_mrs l h = Some (m, h') -> h' = h /\ h !! l = Some (OMrs m).
Proof.
  unfold read_mrs. rewrite read_as.
  destruct (h !! l) as [[]|]; cbn; intros [=]; subst; auto.
Qed.

Lemma lift_inv {A : Type} (o : option A) (h h' : heap) (a : A) :
  lift o h = Some (a, h') -> h' = h /\ o = Some a.
Proof. unfold lift. destruct o; intros [=]; subst; auto. Qed.

Lemma getitem_eq (h : heap) (l : loc) (a : list float) (i : nat) (v : float) :
  h !! l = Some (ONdarray a) -> a !! i = Some v -> getitem l i h = Some (v, h).
Proof.
  intros H Hi. unfold getitem. rewrite bind_unfold, (read_ndarray_eq _ _ _ H).
  unfold lift. now rewrite Hi.
Qed.

Lemma setitem_eq (h : heap) (l : loc) (a : list float) (i : nat) (v : float) :
  h !! l = Some (ONdarray a) -> i < length a ->
  setitem l i v h = Some (tt, <[l := ONdarray (<[i := v]> a)]> h).
Proof.
  intros H Hi. unfold setitem. rewrite bind_unfold, (read_ndarray_eq _ _ _ H).
  destruct (decide (i < length a)); [reflexivity | lia].
Qed.

Lemma call_eq {Y : Type} (f : list float -> Y) (h : heap) (l : loc) (a : list float) :
  h !! l = Some (ONdarray a) -> call f l h = Some (f a, h).
Proof.
  intros H. unfold call. now rewrite bind_unfold, (read_ndarray_eq _ _ _ H).
Qed.

Lemma alloc_eq (o : obj) (h : heap) :
  alloc o h = Some (fresh (dom h), <[fresh (dom h) := o]> h).
Proof. reflexivity. Qed.

Lemma fresh_not_in (h : heap) : h !! fresh (dom h) = None.
Proof. apply not_elem_of_dom, is_fresh. Qed.

(** A loop whose body does not touch the store. *)
Lemma for_each_pure_eq {A S : Type} (body : A -> S -> M S)
    (f : A -> S -> option S) :
  (forall (a : A) (s : S) (h : heap), body a s h = lift (f a s) h) ->
  forall (l : list A) (s : S) (h : heap),
    for_each l body s h = lift (for_each_pure l f s) h.
Proof.
  intros Hbody. induction l as [|a l IH]; intros s h; cbn [for_each for_each_pure].
  - reflexivity.
  - rewrite bind_unfold, Hbody. unfold lift at 1.
    destruct (f a s) as [s'|]; cbn; [apply IH | reflexivity].
Qed.

End PyFacts.

(** ** misc.py: gradient *)

Module MiscFacts.
Import Float64 Py Misc PyFacts.

Section gradient.
Context {Y : Type}.
Variable Ysub : Y -> Y -> Y.
Variable Ydivs : Y -> float -> Y.
Variable f : list float -> Y.

(** One pass of the loop: the entry is appended and the array is as
    before. *)
Lemma gradient_body_eq (h : heap) (x : loc) (a : list float) (i : nat)
    (xi : float) (g : list Y) :
  h !! x = Some (ONdarray a) -> a !! i = Some xi ->
  gradient_body Ysub Ydivs x f i g h
  = Some (g ++ [forward_difference Ysub Ydivs f a i xi (step xi)], h).
Proof.
  intros Hx Hi. pose proof (lookup_lt_Some _ _ _ Hi) as Hlt.
  unfold gradient_body.
  rewrite bind_unfold, (getitem_eq _ _ _ _ _ Hx Hi). cbv zeta.
  rewrite bind_unfold, (call_eq _ _ _ _ Hx).
  rewrite bind_unfold, (getitem_eq _ _ _ _ _ Hx Hi).
  rewrite bind_unfold, (setitem_eq _ _ _ _ _ Hx Hlt).
  rewrite bind_unfold. erewrite call_eq by apply lookup_insert_eq.
  rewrite bind_unfold. erewrite setitem_eq;
    [| apply lookup_insert_eq | now rewrite length_insert].
  rewrite insert_insert_eq, list_insert_insert_eq, Float64Facts.mul_1_l.
  rewrite (list_insert_id _ _ _ Hi), (insert_id _ _ _ Hx).
  reflexivity.
Qed.

Lemma gradient_loop_eq (h : heap) (x : loc) (a : list float) (n s : nat) (g : list Y) :
  h !! x = Some (ONdarray a) -> s + n = length a ->
  for_each (seq s n) (gradient_body Ysub Ydivs x f) g h
  = Some (g ++ drop s (differences Ysub Ydivs f a), h).
Proof.
  intros Hx. revert s g. induction n as [|n IH]; intros s g Hlen; cbn [seq for_each].
  - rewrite drop_ge; [now rewrite app_nil_r |].
    unfold differences. rewrite length_imap. lia.
  - destruct (lookup_lt_is_Some_2 a s) as [xi Hxi]; [lia |].
    rewrite bind_unfold, (gradient_body_eq _ _ _ _ _ _ Hx Hxi).
    rewrite IH by lia. rewrite <- app_assoc. do 3 f_equal.
    symmetry. apply drop_S. unfold differences.
    now rewrite list_lookup_imap, Hxi.
Qed.

(** [gradient] returns, with the differences of every coordinate; the
    store gains the working copy, holding the values of [x] again. *)
Lemma gradient_eq (h : heap) (x : loc) (a : list float) :
  h !! x = Some (ONdarray a) ->
  gradient Ysub Ydivs x f h
  = Some (differences Ysub Ydivs f a, <[fresh (dom h) := ONdarray a]> h).
Proof.
  intros Hx. unfold gradient, astype_float, size.
  rewrite !bind_unfold, (read_ndarray_eq _ _ _ Hx), alloc_eq.
  rewrite !bind_unfold, (read_ndarray_eq _ (fresh (dom h)) a) by apply lookup_insert_eq.
  cbn [mret M_ret]. unfold for_range.
  rewrite (gradient_loop_eq _ _ a) by (try apply lookup_insert_eq; lia).
  reflexivity.
Qed.

End gradient.



(** C5. After [gradient(x, f)] returns, the caller's array [x] holds the
    values it held at entry: the loop works on the copy [x.astype(float)]
    makes, no object that existed at entry is changed, and the copy
    itself has every perturbed coordinate restored, so that the only
    difference in the store is that copy, equal to [x]. *)
Theorem gradient_leaves_x_unchanged {Y : Type} (Ysub : Y -> Y -> Y)
    (Ydivs : Y -> float -> Y) (f : list float -> Y) (h : heap) (x : loc)
    (a : list float) :
  h !! x = Some (ONdarray a) ->
  exists (g : list Y) (h' : heap),
    gradient Ysub Ydivs x f h = Some (g, h') /\
    h' !! x = Some (ONdarray a) /\
    (forall l : loc, l ∈ dom h -> h' !! l = h !! l) /\
    exists x' : loc, (x' ∉ dom h) /\ h' = <[x' := ONdarray a]> h.
Proof.
  intros Hx. exists (differences Ysub Ydivs f a), (<[fresh (dom h) := ONdarray a]> h).
  pose proof (is_fresh (dom h)) as Hfresh.
  split; [now apply gradient_eq |].
  assert (forall l : loc, l ∈ dom h ->
            (<[fresh (dom h) := ONdarray a]> h) !! l = h !! l) as Hframe.
  { intros l Hl. apply lookup_insert_ne. intros Heq. subst l. contradiction. }
  split; [| split; [exact Hframe | eauto]].
  rewrite Hframe; [exact Hx |]. apply elem_of_dom. eauto.
Qed.

Lemma gradient_leaves_x_unchanged_witness :
  let h : heap := {[ 0 := ONdarray [2; 3; 0]%float ]} in
  let f := fun a : list float => foldl (fun s v => s + v * v)%float 0%float a in
  h !! 0 = Some (ONdarray [2; 3; 0]%float) /\
  exists (g : list float) (h' : heap),
    gradient PrimFloat.sub PrimFloat.div 0 f h = Some (g, h') /\
    h' !! 0 = Some (ONdarray [2; 3; 0]%float) /\
    (forall l : loc, l ∈ dom h -> h' !! l = h !! l) /\
    exists x' : loc, (x' ∉ dom h) /\ h' = <[x' := ONdarray [2; 3; 0]%float]> h.
Proof.
  intros h f. split; [reflexivity |].
  apply (gradient_leaves_x_unchanged PrimFloat.sub PrimFloat.div f h 0 [2; 3; 0]%float).
  reflexivity.
Defined.


End MiscFacts.

(** ** misc.py: gradient and calculate_lap_cov, results that may share
    memory with the argument *)

Module AliasingFacts.
Import Float64 Py Misc PyFacts MiscFacts.
Import Aliasing.

Lemma call_returned_eq {Y : Type} (f : list float -> returned Y) (h : heap) (l : loc)
    (a : list float) :
  h !! l = Some (ONdarray a) -> call f l h = Some (f a, h).
Proof.
  intros H. unfold call. now rewrite bind_unfold, (read_ndarray_eq _ _ _ H).
Qed.

Lemma value_eq {Y : Type} (r : returned Y) (h : heap) (l : loc) (a : list float) :
  h !! l = Some (ONdarray a) -> value l r h = Some (value_of r a, h).
Proof.
  intros H. destruct r as [y | view]; cbn [value value_of]; [reflexivity |].
  now rewrite bind_unfold, (read_ndarray_eq _ _ _ H).
Qed.

Section gradient.
Context {Y : Type}.
Variable Ysub : Y -> Y -> Y.
Variable Ydivs : Y -> float -> Y.
Variable f : list float -> returned Y.

(** One pass of the loop: the entry is appended and the array is as
    before. *)
Lemma gradient_body_read_eq (h : heap) (x : loc) (a : list float) (i : nat)
    (xi : float) (g : list Y) :
  h !! x = Some (ONdarray a) -> a !! i = Some xi ->
  gradient_body Ysub Ydivs x f i g h
  = Some (g ++ [difference Ysub Ydivs f a i xi (step xi)], h).
Proof.
  intros Hx Hi. pose proof (lookup_lt_Some _ _ _ Hi) as Hlt.
  unfold gradient_body.
  rewrite bind_unfold, (getitem_eq _ _ _ _ _ Hx Hi). cbv zeta.
  rewrite bind_unfold, (call_returned_eq _ _ _ _ Hx).
  rewrite bind_unfold, (getitem_eq _ _ _ _ _ Hx Hi).
  rewrite bind_unfold, (setitem_eq _ _ _ _ _ Hx Hlt).
  rewrite bind_unfold. erewrite call_returned_eq by apply lookup_insert_eq.
  rewrite bind_unfold. erewrite value_eq by apply lookup_insert_eq.
  rewrite bind_unfold. erewrite value_eq by apply lookup_insert_eq.
  rewrite bind_unfold. erewrite setitem_eq;
    [| apply lookup_insert_eq | now rewrite length_insert].
  rewrite insert_insert_eq, list_insert_insert_eq, Float64Facts.mul_1_l.
  rewrite (list_insert_id _ _ _ Hi), (insert_id _ _ _ Hx).
  reflexivity.
Qed.

Lemma gradient_loop_read_eq (h : heap) (x : loc) (a : list float) (n s : nat) (g : list Y) :
  h !! x = Some (ONdarray a) -> s + n = length a ->
  for_each (seq s n) (gradient_body Ysub Ydivs x f) g h
  = Some (g ++ drop s (differences Ysub Ydivs f a), h).
Proof.
  intros Hx. revert s g. induction n as [|n IH]; intros s g Hlen; cbn [seq for_each].
  - rewrite drop_ge; [now rewrite app_nil_r |].
    unfold differences. rewrite length_imap. lia.
  - destruct (lookup_lt_is_Some_2 a s) as [xi Hxi]; [lia |].
    rewrite bind_unfold, (gradient_body_read_eq _ _ _ _ _ _ Hx Hxi).
    rewrite IH by lia. rewrite <- app_assoc. do 3 f_equal.
    symmetry. apply drop_S. unfold differences.
    now rewrite list_lookup_imap, Hxi.
Qed.

(** [gradient] returns, with the entries of every coordinate; the store
    gains the working copy, holding the values of [x] again. *)
Lemma gradient_read_eq (h : heap) (x : loc) (a : list float) :
  h !! x = Some (ONdarray a) ->
  gradient Ysub Ydivs x f h
  = Some (differences Ysub Ydivs f a, <[fresh (dom h) := ONdarray a]> h).
Proof.
  intros Hx. unfold gradient, astype_float, size.
  rewrite !bind_unfold, (read_ndarray_eq _ _ _ Hx), alloc_eq.
  rewrite !bind_unfold, (read_ndarray_eq _ (fresh (dom h)) a) by apply lookup_insert_eq.
  cbn [mret M_ret]. unfold for_range.
  rewrite (gradient_loop_read_eq _ _ a) by (try apply lookup_insert_eq; lia).
  reflexivity.
Qed.

(** Where [x] is not an array, [astype] raises. *)
Lemma gradient_raises (h : heap) (x : loc) :
  (forall a : list float, h !! x <> Some (ONdarray a)) ->
  gradient Ysub Ydivs x f h = None.
Proof.
  intros Hx. unfold gradient. rewrite bind_unfold. unfold astype_float.
  rewrite bind_unfold. unfold read_ndarray. rewrite read_as.
  destruct (h !! x) as [[a | | | |]|]; try reflexivity. now destruct (Hx a).
Qed.

End gradient.

(** For a function that returns a new object at every call the entries
    are the forward differences, and [gradient] is the function of
    module [Misc]. *)
Lemma differences_new {Y : Type} (Ysub : Y -> Y -> Y) (Ydivs : Y -> float -> Y)
    (f : list float -> Y) (a : list float) :
  differences Ysub Ydivs (fun b => New (f b)) a = Misc.differences Ysub Ydivs f a.
Proof. reflexivity. Qed.

Lemma gradient_new {Y : Type} (Ysub : Y -> Y -> Y) (Ydivs : Y -> float -> Y)
    (f : list float -> Y) (x : loc) (h : heap) :
  gradient Ysub Ydivs x (fun b => New (f b)) h = Misc.gradient Ysub Ydivs x f h.
Proof.
  destruct (h !! x) as [o|] eqn:Hx; [destruct o as [a | | | |] |].
  1: { rewrite (gradient_read_eq _ _ _ _ _ _ Hx), (MiscFacts.gradient_eq _ _ _ _ _ _ Hx).
       now rewrite differences_new. }
  all: rewrite gradient_raises by (intros a; rewrite Hx; discriminate).
  all: unfold Misc.gradient; rewrite bind_unfold; unfold astype_float.
  all: rewrite bind_unfold; unfold read_ndarray; now rewrite read_as, Hx.
Qed.

(** A function that returns its argument: every entry is the difference
    of the moved array with itself. *)
Lemma differences_of_argument (a : list float) (i : nat) (xi : float) :
  a !! i = Some xi ->
  differences np_sub np_divs (fun _ => View (fun b => b)) a !! i
  = Some (np_divs (np_sub (<[i := (xi + step xi)%float]> a)
                          (<[i := (xi + step xi)%float]> a)) (step xi)).
Proof. intros Hi. unfold differences. now rewrite list_lookup_imap, Hi. Qed.



(** The two kinds of result on one array: squares summed into a new
    number give the forward differences; the array handed back as it is
    gives zeros. *)
Lemma gradient_on_an_array :
  let h : heap := {[ 0 := ONdarray [2; 0]%float ]} in
  gradient np_sub np_divs 0 (fun a => New a) h
  = Some ([[1; 0]; [0; 1]]%float, <[1 := ONdarray [2; 0]%float]> h) /\
  gradient np_sub np_divs 0 (fun _ => View (fun b => b)) h
  = Some ([[0; 0]; [0; 0]]%float, <[1 := ONdarray [2; 0]%float]> h).
Proof. split; vm_compute; reflexivity. Qed.

Section calculate_lap_cov.
Context {Y : Type}.
Variable np_sum_products : Y -> Y -> option float.
Variable grad : list Y.
Variable sig2 : float.








End calculate_lap_cov.



End AliasingFacts.

(** ** dyn_results.py: the deep copy taken by the constructor *)

Module DeepcopyFacts.
Import Py PyFacts DynResults.

Lemma bind_inv {A B : Type} (m : M A) (k : A -> M B) (h h' : heap) (b : B) :
  (m ≫= k) h = Some (b, h') ->
  exists (a : A) (h1 : heap), m h = Some (a, h1) /\ k a h1 = Some (b, h').
Proof.
  rewrite bind_unfold. destruct (m h) as [[a h1]|]; [eauto | discriminate].
Qed.

Lemma alloc_inv (o : obj) (h h' : heap) (l : loc) :
  alloc o h = Some (l, h') ->
  (l ∉ dom h) /\ h' = <[l := o]> h /\ (h ⊆ h').
Proof.
  rewrite alloc_eq. intros [= <- <-].
  split; [apply is_fresh |]. split; [reflexivity |].
  apply insert_subseteq, fresh_not_in.
Qed.

Lemma copy_of_mono (h0 h h' : heap) (l' l : loc) :
  h ⊆ h' -> copy_of h0 h l' l -> copy_of h0 h' l' l.
Proof.
  intros Hsub [Hnew (m & Hl & Hl')]. split; [exact Hnew |].
  exists m. split; eapply lookup_weaken; eauto.
Qed.

Lemma deepcopy_item_inv (h0 h h' : heap) (done : list loc) (l : loc)
    (st st' : list loc * gmap loc loc) :
  copy_inv h0 h done st ->
  deepcopy_item l st h = Some (st', h') ->
  copy_inv h0 h' (done ++ [l]) st'.
Proof.
  intros (Hsub & Hcopied & Hmemo). destruct st as [copied memo].
  unfold deepcopy_item. destruct (memo !! l) as [l'|] eqn:Hm.
  - intros [= <- <-]. split; [exact Hsub |]. split; [| exact Hmemo].
    apply Forall2_app; [exact Hcopied |].
    constructor; [| constructor]. now apply Hmemo.
  - intros (m & h1 & Hread & Hrest)%bind_inv.
    apply read_mrs_inv in Hread as [-> Hl].
    apply bind_inv in Hrest as (l' & h2 & Halloc & Hret).
    apply alloc_inv in Halloc as (Hfresh & -> & Hgrow).
    injection Hret as <- <-.
    assert (copy_of h0 (<[l' := OMrs m]> h) l' l) as Hnew.
    { split.
      - intros Hin. apply Hfresh. eapply subseteq_dom; eauto.
      - exists m. split; [eapply lookup_weaken; eauto | apply lookup_insert_eq]. }
    split; [etransitivity; eauto |]. split.
    + apply Forall2_app.
      * eapply Forall2_impl; [exact Hcopied |].
        intros ? ?. now apply copy_of_mono.
      * constructor; [exact Hnew | constructor].
    + intros k k'. cbn [snd]. rewrite lookup_insert.
      destruct (decide (l = k)) as [<- | Hne].
      * intros [= <-]. exact Hnew.
      * intros Hk. eapply copy_of_mono; [exact Hgrow |]. now apply Hmemo.
Qed.

Lemma deepcopy_loop_inv (h0 : heap) (items : list loc) :
  forall (h h' : heap) (done : list loc) (st st' : list loc * gmap loc loc),
  copy_inv h0 h done st ->
  for_each items deepcopy_item st h = Some (st', h') ->
  copy_inv h0 h' (done ++ items) st'.
Proof.
  induction items as [|l items IH]; intros h h' done st st' Hinv; cbn [for_each].
  - intros [= <- <-]. now rewrite app_nil_r.
  - intros (st1 & h1 & Hitem & Hrest)%bind_inv.
    replace (done ++ l :: items) with ((done ++ [l]) ++ items)
      by now rewrite <- app_assoc.
    eapply IH; [| exact Hrest].
    eapply deepcopy_item_inv; eauto.
Qed.

(** [deepcopy]: nothing that existed is changed; the copy, its list and
    its spectra are new objects, and each new spectrum holds what the
    original holds. *)
Lemma deepcopy_spec (dyn c : loc) (h0 h1 : heap) :
  deepcopy dyn h0 = Some (c, h1) ->
  exists (d : dynMRS) (items items' : list loc) (l' : loc),
    h0 !! dyn = Some (ODyn d) /\
    h0 !! mrs_list d = Some (OList items) /\
    (h0 ⊆ h1) /\
    (c ∉ dom h0) /\ (l' ∉ dom h0) /\
    h1 !! c = Some (ODyn (with_mrs_list d l')) /\
    h1 !! l' = Some (OList items') /\
    Forall2 (copy_of h0 h1) items' items.
Proof.
  unfold deepcopy.
  intros (d & h & Hd & Hrest)%bind_inv. apply read_dyn_inv in Hd as [-> Hd].
  apply bind_inv in Hrest as (items & h & Hitems & Hrest).
  apply read_list_inv in Hitems as [-> Hitems].
  apply bind_inv in Hrest as ([items' memo] & ha & Hloop & Hrest).
  apply bind_inv in Hrest as (l' & hb & Hl' & Hc).
  apply alloc_inv in Hl' as (Hl'new & -> & Hgrow1).
  apply alloc_inv in Hc as (Hcnew & -> & Hgrow2).
  assert (copy_inv h0 h0 [] ([], ∅)) as Hinit.
  { split; [reflexivity |]. split; [constructor |].
    intros l l0. cbn [snd]. rewrite lookup_empty. discriminate. }
  pose proof (deepcopy_loop_inv _ _ _ _ _ _ _ Hinit Hloop) as (Hsub & Hcopied & _).
  cbn [app fst] in Hcopied.
  exists d, items, items', l'. repeat split; try assumption.
  - etransitivity; [exact Hsub |]. etransitivity; eauto.
  - intros Hin. apply Hcnew. apply dom_insert_subseteq. eapply subseteq_dom; eauto.
  - intros Hin. apply Hl'new. eapply subseteq_dom; eauto.
  - apply lookup_insert_eq.
  - eapply lookup_weaken; [apply lookup_insert_eq | exact Hgrow2].
  - eapply Forall2_impl; [exact Hcopied |].
    intros ? ?. apply copy_of_mono. etransitivity; eauto.
Qed.

End DeepcopyFacts.

(** ** dyn_results.py: what the getters read *)

Module GetterFacts.
Import Py PyFacts DynResults DeepcopyFacts.

Lemma collected_results_eq (r : dynRes) (h : heap) :
  collected_results r h
  = match h !! _dyn r ≫= as_dyn with
    | Some d => match collected r d with
                | Some st => Some (st.1, h)
                | None => None
                end
    | None => None
    end.
Proof.
  unfold collected_results, read_dyn. rewrite bind_unfold, read_as.
  destruct (h !! _dyn r ≫= as_dyn) as [d|]; [| reflexivity].
  rewrite bind_unfold.
  rewrite (for_each_pure_eq _
             (fun '(index, param) st =>
                collect_group (vm d) (metabolite_names d) (x r) index param st)).
  - unfold collected, lift. now destruct (for_each_pure _ _ _).
  - now intros [index param] st h'.
Qed.

Lemma mapped_parameters_fst (r : dynRes) (h : heap) :
  fst <$> mapped_parameters r h
  = (fun d => map (fun fp => flatten_mapped (free_to_mapped (vm d) fp))
                  (rows (_data r))) <$> (h !! _dyn r ≫= as_dyn).
Proof.
  unfold mapped_parameters, read_dyn. rewrite bind_unfold, read_as.
  now destruct (h !! _dyn r ≫= as_dyn).
Qed.

Lemma mapped_parameters_init_fst (r : dynRes) (h : heap) :
  fst <$> mapped_parameters_init r h
  = flatten_mapped <$> (h !! _init_x r ≫= as_nested).
Proof.
  unfold mapped_parameters_init, read_nested. rewrite bind_unfold, read_as.
  now destruct (h !! _init_x r ≫= as_nested).
Qed.

Lemma free_parameters_init_eq (r : dynRes) (h : heap) :
  free_parameters_init r h
  = match h !! _dyn r ≫= as_dyn, h !! _init_x r ≫= as_nested with
    | Some d, Some m => Some (mapped_to_free (vm d) m, h)
    | _, _ => None
    end.
Proof.
  unfold free_parameters_init, read_dyn, read_nested.
  rewrite bind_unfold, read_as.
  destruct (h !! _dyn r ≫= as_dyn); [| reflexivity].
  rewrite bind_unfold, read_as.
  now destruct (h !! _init_x r ≫= as_nested).
Qed.

Lemma free_parameters_init_fst (r : dynRes) (h : heap) :
  fst <$> free_parameters_init r h
  = match h !! _dyn r ≫= as_dyn, h !! _init_x r ≫= as_nested with
    | Some d, Some m => Some (mapped_to_free (vm d) m)
    | _, _ => None
    end.
Proof.
  rewrite free_parameters_init_eq.
  now destruct (h !! _dyn r ≫= as_dyn), (h !! _init_x r ≫= as_nested).
Qed.

Lemma mapped_parameters_fitted_init_fst (r : dynRes) (h : heap) :
  fst <$> mapped_parameters_fitted_init r h
  = match h !! _dyn r ≫= as_dyn, h !! _init_x r ≫= as_nested with
    | Some d, Some m =>
        Some (flatten_mapped (free_to_mapped (vm d) (mapped_to_free (vm d) m)))
    | _, _ => None
    end.
Proof.
  unfold mapped_parameters_fitted_init.
  rewrite bind_unfold, free_parameters_init_eq.
  destruct (h !! _dyn r ≫= as_dyn) as [d|] eqn:Hd; [| reflexivity].
  destruct (h !! _init_x r ≫= as_nested); [| reflexivity].
  unfold read_dyn. rewrite bind_unfold, read_as, Hd. reflexivity.
Qed.

Lemma mapped_names_fst (r : dynRes) (h : heap) :
  fst <$> mapped_names r h = Py.mapped_names <$> (h !! _dyn r ≫= as_dyn).
Proof.
  unfold mapped_names, read_dyn. rewrite bind_unfold, read_as.
  now destruct (h !! _dyn r ≫= as_dyn).
Qed.

Lemma free_names_fst (r : dynRes) (h : heap) :
  fst <$> free_names r h = Py.free_names <$> (h !! _dyn r ≫= as_dyn).
Proof.
  unfold free_names, read_dyn. rewrite bind_unfold, read_as.
  now destruct (h !! _dyn r ≫= as_dyn).
Qed.

Lemma collected_results_fst (r : dynRes) (h : heap) :
  fst <$> collected_results r h
  = (h !! _dyn r ≫= as_dyn) ≫= fun d => fst <$> collected r d.
Proof.
  rewrite collected_results_eq.
  destruct (h !! _dyn r ≫= as_dyn) as [d|]; [| reflexivity].
  cbn. now destruct (collected r d).
Qed.

Lemma spectra_loop (h : heap) (items : list loc) (acc : list MRS) :
  for_each items (fun l acc => m ← read_mrs l; mret (acc ++ [m])) acc h
  = match mapM (fun l => h !! l ≫= as_mrs) items with
    | Some ms => Some (acc ++ ms, h)
    | None => None
    end.
Proof.
  revert acc. induction items as [|l items IH]; intros acc; cbn [for_each mapM].
  - cbn. now rewrite app_nil_r.
  - rewrite bind_unfold. unfold read_mrs at 1. rewrite bind_unfold, read_as.
    destruct (h !! l ≫= as_mrs) as [m|]; [| reflexivity].
    cbn [mret M_ret]. rewrite IH. cbn.
    destruct (mapM _ items) as [ms|]; [| reflexivity].
    cbn. now rewrite <- app_assoc.
Qed.

Lemma spectra_fst (dyn : loc) (h : heap) :
  fst <$> spectra dyn h
  = d ← h !! dyn ≫= as_dyn;
    items ← h !! mrs_list d ≫= as_list;
    mapM (fun l => h !! l ≫= as_mrs) items.
Proof.
  unfold spectra, read_dyn, read_list. rewrite bind_unfold, read_as.
  destruct (h !! dyn ≫= as_dyn) as [d|]; [| reflexivity].
  rewrite bind_unfold, read_as. cbn.
  destruct (h !! mrs_list d ≫= as_list) as [items|]; [| reflexivity].
  rewrite spectra_loop. cbn. now destruct (mapM _ items).
Qed.

(** The constructor, taken apart. *)
Lemma dynRes_init_inv (samples : list (list float)) (dyn : loc)
    (init : gmap string loc) (h0 h1 : heap) (r : dynRes) :
  dynRes_init samples dyn init h0 = Some (r, h1) ->
  exists d : dynMRS,
    h0 !! dyn = Some (ODyn d) /\
    pd_DataFrame samples (Py.free_names d) = Some (_data r) /\
    deepcopy dyn h0 = Some (_dyn r, h1) /\
    init !! "x" = Some (_init_x r).
Proof.
  unfold dynRes_init.
  intros (d & h & Hd & Hrest)%bind_inv. apply read_dyn_inv in Hd as [-> Hd].
  apply bind_inv in Hrest as (df & h & Hdf & Hrest).
  apply lift_inv in Hdf as [-> Hdf].
  apply bind_inv in Hrest as (c & h & Hc & Hrest).
  apply bind_inv in Hrest as (ix & h' & Hix & Hret).
  apply lift_inv in Hix as [-> Hix].
  injection Hret as <- <-. exists d. auto.
Qed.

End GetterFacts.

(** ** dyn_results.py: isolation of the results object *)

Module IsolationFacts.
Import Examples Py PyFacts DynResults DeepcopyFacts GetterFacts.

(** The getters see the store only through the copy of the orchestrator,
    the spectra of the copy, and the initialisation array. *)
Lemma observe_frame (r : dynRes) (h1 h2 : heap) :
  h2 !! _dyn r ≫= as_dyn = h1 !! _dyn r ≫= as_dyn ->
  h2 !! _init_x r ≫= as_nested = h1 !! _init_x r ≫= as_nested ->
  fst <$> spectra (_dyn r) h2 = fst <$> spectra (_dyn r) h1 ->
  observe r h2 = observe r h1.
Proof.
  intros Hd Hx Hs. unfold observe.
  rewrite !mapped_parameters_fst, !mapped_parameters_init_fst,
    !free_parameters_init_fst, !mapped_parameters_fitted_init_fst,
    !mapped_names_fst, !free_names_fst, !collected_results_fst.
  now rewrite Hd, Hx, Hs.
Qed.

Lemma mapM_ext_lookup (h1 h2 : heap) (items : list loc) :
  Forall (fun l => h2 !! l = h1 !! l) items ->
  mapM (fun l => h2 !! l ≫= as_mrs) items = mapM (fun l => h1 !! l ≫= as_mrs) items.
Proof.
  induction 1 as [|l items Hl _ IH]; [reflexivity |].
  cbn [mapM]. now rewrite Hl, IH.
Qed.

(** The objects of the orchestrator at construction all existed then,
    and none of them is a nested array. *)
Lemma orchestrator_objects_class (dyn : loc) (h0 h1 : heap) (d : dynMRS)
    (items items' : list loc) (l : loc) :
  h0 !! dyn = Some (ODyn d) ->
  h0 !! mrs_list d = Some (OList items) ->
  h0 ⊆ h1 ->
  Forall2 (copy_of h0 h1) items' items ->
  l ∈ orchestrator_objects dyn h0 ->
  l ∈ dom h0 /\ exists o : obj, h1 !! l = Some o /\ as_nested o = None.
Proof.
  intros Hd Hitems Hsub Hcopy. unfold orchestrator_objects.
  rewrite Hd. cbn. rewrite Hitems. cbn.
  intros [Hl Hdom]%elem_of_intersection. split; [exact Hdom |].
  apply elem_of_union in Hl as [Hl | Hl].
  - apply elem_of_singleton in Hl as ->. exists (ODyn d).
    split; [eapply lookup_weaken; eauto | reflexivity].
  - apply elem_of_union in Hl as [Hl | Hl].
    + apply elem_of_singleton in Hl as ->. exists (OList items).
      split; [eapply lookup_weaken; eauto | reflexivity].
    + apply elem_of_list_to_set in Hl.
      apply list_elem_of_lookup in Hl as [i Hi].
      destruct (Forall2_lookup_r _ _ _ _ _ Hcopy Hi) as (l' & _ & _ & m & Hm & _).
      exists (OMrs m). split; [exact Hm | reflexivity].
Qed.

(** C2. Once a results object is constructed, changing in place the
    orchestrator that was passed to the constructor, its spectrum list or
    any spectrum in it changes no value the results object returns: the
    constructor kept a deep copy, whose objects are all new. *)
Theorem results_isolated_from_orchestrator (samples : list (list float))
    (dyn : loc) (init : gmap string loc) (h0 h1 h2 : heap) (r : dynRes) :
  dynRes_init samples dyn init h0 = Some (r, h1) ->
  mutated (orchestrator_objects dyn h0) h1 h2 ->
  observe r h2 = observe r h1.
Proof.
  intros (d & Hd & _ & Hcopy & _)%dynRes_init_inv Hmut.
  apply deepcopy_spec in Hcopy
    as (d' & items & items' & l' & Hd' & Hitems & Hsub & Hc & Hl' & Hh1c & Hh1l & Hcp).
  rewrite Hd in Hd'. injection Hd' as <-.
  assert (forall l : loc, l ∉ dom h0 -> h2 !! l = h1 !! l) as Hfresh.
  { intros l Hl. apply Hmut. unfold orchestrator_objects.
    intros [_ Hdom]%elem_of_intersection. contradiction. }
  apply observe_frame.
  - now rewrite Hfresh.
  - destruct (decide (_init_x r ∈ orchestrator_objects dyn h0)) as [Hin | Hout].
    + destruct (orchestrator_objects_class _ _ _ _ _ _ _ Hd Hitems Hsub Hcp Hin)
        as (_ & o & Ho & Hclass).
      destruct (Hmut (_init_x r)) as [_ Hsame]. specialize (Hsame Hin).
      rewrite Ho in *. destruct (h2 !! _init_x r) as [o'|]; [| contradiction].
      cbn. rewrite Hclass. now destruct o, o'.
    + destruct (Hmut (_init_x r)) as [-> _]; auto.
  - rewrite !spectra_fst, (Hfresh _ Hc), Hh1c. cbn.
    rewrite (Hfresh _ Hl'), Hh1l. cbn.
    apply mapM_ext_lookup.
    eapply Forall2_Forall_l; [exact Hcp |].
    apply Forall_true. intros l li [Hnew _]. now apply Hfresh.
Qed.

Lemma same_class_refl (o : obj) : same_class o o = true.
Proof. now destruct o. Qed.

(** Overwriting what one object holds is a change in place. *)
Lemma mutated_insert (ls : gset loc) (h : heap) (l : loc) (o o' : obj) :
  l ∈ ls -> h !! l = Some o -> same_class o o' = true ->
  mutated ls h (<[l := o']> h).
Proof.
  intros Hl Ho Hclass k. destruct (decide (l = k)) as [<- | Hne].
  - split; [intros Hk; contradiction |].
    intros _. now rewrite Ho, lookup_insert_eq.
  - rewrite lookup_insert_ne by exact Hne. split; [reflexivity |].
    intros _. destruct (h !! k); [apply same_class_refl | exact I].
Qed.

Lemma example_built :
  dynRes_init [example_samples] 0 example_init example_store
  = Some (example_result, example_store_after).
Proof. vm_compute. reflexivity. Qed.

Lemma results_isolated_from_orchestrator_witness :
  dynRes_init [example_samples] 0 example_init example_store
    = Some (example_result, example_store_after) /\
  mutated (orchestrator_objects 0 example_store) example_store_after
          (<[2 := OMrs {| FID := [] |}]> example_store_after) /\
  observe example_result (<[2 := OMrs {| FID := [] |}]> example_store_after)
    = observe example_result example_store_after.
Proof.
  assert (mutated (orchestrator_objects 0 example_store) example_store_after
            (<[2 := OMrs {| FID := [] |}]> example_store_after)) as Hmut.
  { apply (mutated_insert _ _ _ (OMrs {| FID := [(1, 0)]%float |})).
    - apply (bool_decide_unpack _). vm_compute. exact I.
    - vm_compute. reflexivity.
    - reflexivity. }
  split; [exact example_built |]. split; [exact Hmut |].
  exact (results_isolated_from_orchestrator [example_samples] 0 example_init
           example_store example_store_after _ example_result example_built Hmut).
Defined.

(** C10. The initialisation snapshot is held by reference: the object
    stores the location of [init['x']], so that writing other values
    into that array after construction changes what
    [mapped_parameters_init] and [free_parameters_init] return, as soon
    as the new values flatten, and invert, to something else. *)
Theorem init_snapshot_held_by_reference (samples : list (list float))
    (dyn : loc) (init : gmap string loc) (h0 h1 : heap) (r : dynRes)
    (m0 m1 : nested) :
  dynRes_init samples dyn init h0 = Some (r, h1) ->
  h1 !! _init_x r = Some (ONested m0) ->
  flatten_mapped m1 <> flatten_mapped m0 ->
  (forall d : dynMRS, h0 !! dyn = Some (ODyn d) ->
     mapped_to_free (vm d) m1 <> mapped_to_free (vm d) m0) ->
  init !! "x" = Some (_init_x r) /\
  fst <$> mapped_parameters_init r h1 = Some (flatten_mapped m0) /\
  fst <$> mapped_parameters_init r (<[_init_x r := ONested m1]> h1)
    = Some (flatten_mapped m1) /\
  fst <$> mapped_parameters_init r (<[_init_x r := ONested m1]> h1)
    <> fst <$> mapped_parameters_init r h1 /\
  fst <$> free_parameters_init r (<[_init_x r := ONested m1]> h1)
    <> fst <$> free_parameters_init r h1.
Proof.
  intros Hinit Hx Hflat Hfree.
  pose proof Hinit as (d & Hd & _ & Hcopy & Hix)%dynRes_init_inv.
  apply deepcopy_spec in Hcopy
    as (d' & items & items' & l' & Hd' & _ & _ & _ & _ & Hh1c & _ & _).
  rewrite Hd in Hd'. injection Hd' as <-.
  assert (_init_x r <> _dyn r) as Hne.
  { intros Heq. rewrite Heq, Hh1c in Hx. discriminate. }
  rewrite !mapped_parameters_init_fst, !free_parameters_init_fst.
  rewrite lookup_insert_eq, lookup_insert_ne, Hx, Hh1c by exact Hne. cbn.
  repeat split; try assumption.
  - intros [=]. contradiction.
  - intros [=]. now apply (Hfree d).
Qed.

Lemma init_snapshot_held_by_reference_witness :
  let m0 : nested := [[[1; 2]; [3]]; [[4; 5]; [6]]]%float in
  let m1 : nested := [[[9; 2]; [3]]; [[4; 5]; [6]]]%float in
  dynRes_init [example_samples] 0 example_init example_store
    = Some (example_result, example_store_after) /\
  example_store_after !! 4 = Some (ONested m0) /\
  fst <$> mapped_parameters_init example_result
            (<[4 := ONested m1]> example_store_after)
    <> fst <$> mapped_parameters_init example_result example_store_after /\
  fst <$> free_parameters_init example_result
            (<[4 := ONested m1]> example_store_after)
    <> fst <$> free_parameters_init example_result example_store_after.
Proof.
  intros m0 m1.
  assert (example_store_after !! 4 = Some (ONested m0)) as Hx
    by (vm_compute; reflexivity).
  assert (flatten_mapped m1 <> flatten_mapped m0) as Hflat.
  { intros Heq.
    apply (f_equal (fun l => (default 0 (l !! 0%nat ≫= (.!! 0%nat)) =? 1)%float)) in Heq.
    vm_compute in Heq. discriminate. }
  assert (forall d : dynMRS, example_store !! 0 = Some (ODyn d) ->
            mapped_to_free (vm d) m1 <> mapped_to_free (vm d) m0) as Hfree.
  { intros d Hd Heq.
    assert (d = example_dyn) as ->.
    { vm_compute in Hd. now injection Hd as <-. }
    apply (f_equal (fun l => (default 0 (l !! 0%nat) =? 1)%float)) in Heq.
    vm_compute in Heq. discriminate. }
  split; [exact example_built |]. split; [exact Hx |].
  exact (proj2 (proj2 (proj2
           (init_snapshot_held_by_reference [example_samples] 0 example_init
              example_store example_store_after example_result m0 m1
              example_built Hx Hflat Hfree)))).
Defined.

End IsolationFacts.

(** ** dyn_results.py: collected_results *)

Module CollectedFacts.
Import Examples Py PyFacts DynResults DeepcopyFacts GetterFacts.

(** [str_contains] is the substring test. *)
Lemma prefix_app (sub s : string) :
  String.prefix sub s = true <-> exists post : string, s = sub +:+ post.
Proof.
  revert s. induction sub as [|a sub IH]; intros s.
  - split; [intros _; now exists s | now destruct s].
  - destruct s as [|b s]; cbn.
    + split; [discriminate | intros [post [=]]].
    + destruct (Ascii.ascii_dec a b) as [<- | Hne].
      * rewrite IH. split; intros [post Hpost]; exists post.
        -- cbn. now rewrite Hpost.
        -- cbn in Hpost. now injection Hpost.
      * split; [discriminate |].
        intros [post Hpost]. injection Hpost as Hba _. congruence.
Qed.

Lemma str_contains_spec (sub s : string) :
  str_contains sub s = true <->
  exists pre post : string, s = pre +:+ sub +:+ post.
Proof.
  induction s as [|c s IH]; cbn [str_contains].
  - rewrite orb_false_r, prefix_app. split.
    + intros [post Hpost]. now exists EmptyString, post.
    + intros ([|c pre] & post & Hpre); [now exists post | discriminate].
  - rewrite orb_true_iff, prefix_app, IH. split.
    + intros [[post Hpost] | (pre & post & Hpre)].
      * now exists EmptyString, post.
      * exists (String c pre), post. cbn. now rewrite Hpre.
    + intros ([|c' pre] & post & Hpre).
      * left. now exists post.
      * right. injection Hpre as <- Hpre. now exists pre, post.
Qed.

(** Dictionaries. *)
Lemma dict_get_set_eq {V : Type} (k : string) (v : V) (d : pydict V) :
  dict_get k (dict_set k v d) = Some v.
Proof.
  induction d as [|[k' v'] d IH]; cbn.
  - now rewrite decide_True.
  - destruct (decide (k = k')) as [<- | Hne]; cbn.
    + now rewrite decide_True.
    + now rewrite decide_False.
Qed.

Lemma dict_get_set_ne {V : Type} (k k' : string) (v : V) (d : pydict V) :
  k <> k' -> dict_get k (dict_set k' v d) = dict_get k d.
Proof.
  intros Hne. induction d as [|[k0 v0] d IH]; cbn.
  - now rewrite decide_False.
  - destruct (decide (k' = k0)) as [<- | Hne0]; cbn.
    + now rewrite !decide_False.
    + destruct (decide (k = k0)); [reflexivity | exact IH].
Qed.

Lemma dict_get_set2_ne (param param' key : string) (v : column)
    (results : results_dict) :
  param <> param' ->
  dict_get param (set2 param' key v results) = dict_get param results.
Proof.
  intros Hne. unfold set2. destruct (dict_get param' results); [| reflexivity].
  now apply dict_get_set_ne.
Qed.

Lemma dict_get_name_column_ne (param param' : string) (nmapped : nat)
    (metab_names : list string) (results : results_dict) :
  param <> param' ->
  dict_get param (name_column param' nmapped metab_names results)
  = dict_get param results.
Proof.
  intros Hne. unfold name_column.
  destruct (negb _); now apply dict_get_set2_ne.
Qed.

Lemma unrecognised_tests (beh : behaviour) :
  unrecognised beh ->
  beh_eq beh "fixed" = false /\ beh_eq beh "variable" = false /\
  dynamic_in beh = false.
Proof.
  destruct beh as [s | d]; cbn.
  - intros (Hf & Hv & Hd). now rewrite !bool_decide_eq_false_2.
  - intros Hd. repeat split. apply bool_decide_eq_false_2.
    rewrite Hd. now intros [? ?].
Qed.

(** The pass for a group of unrecognised behaviour: its entry is set to
    the empty dictionary and the counter stays. *)
Lemma collect_group_unrecognised (vm : VariableMapping) (metab_names : list string)
    (values : list float) (index nmapped : nat) (param : string)
    (beh : behaviour) (results : results_dict) (counter : nat) :
  vm_mapped_sizes vm !! index = Some nmapped ->
  Parameters vm !! param = Some beh ->
  unrecognised beh ->
  collect_group vm metab_names values index param (results, counter)
  = Some (dict_set param [] results, counter).
Proof.
  intros Hsize Hbeh (Hf & Hv & Hd)%unrecognised_tests.
  unfold collect_group. rewrite Hsize. cbn. rewrite Hbeh. cbn.
  now rewrite Hf, Hv, Hd.
Qed.

(** The pass for one group leaves the entries of the other groups. *)
Lemma collect_group_other (vm : VariableMapping) (metab_names : list string)
    (values : list float) (index : nat) (param param' : string)
    (st st' : results_dict * nat) :
  param <> param' ->
  collect_group vm metab_names values index param' st = Some st' ->
  dict_get param st'.1 = dict_get param st.1.
Proof.
  intros Hne. destruct st as [results counter]. unfold collect_group.
  destruct (vm_mapped_sizes vm !! index) as [nmapped|]; [| discriminate]. cbn.
  destruct (Parameters vm !! param') as [beh|]; [| discriminate]. cbn.
  assert (dict_get param (dict_set param' [] results) = dict_get param results)
    as Hstart by now apply dict_get_set_ne.
  destruct (beh_eq beh "fixed").
  { intros [= <-]. cbn.
    now rewrite dict_get_set2_ne, dict_get_name_column_ne. }
  destruct (beh_eq beh "variable").
  { intros [= <-].
    assert (forall (l : list nat) (res : results_dict) (c : nat),
              dict_get param
                (foldl (fun '(results, counter) t =>
                          (set2 param' ("t" +:+ pretty t)
                             (ColNum (slice values counter (counter + nmapped)))
                             results, counter + nmapped))
                       (res, c) l).1
              = dict_get param res) as Hloop.
    { induction l as [|t l IH]; intros res c; [reflexivity |].
      cbn [foldl]. rewrite IH. now apply dict_get_set2_ne. }
    now rewrite Hloop, dict_get_name_column_ne. }
  destruct (dynamic_in beh).
  2:{ now intros [= <-]. }
  destruct (params_of beh) as [dyn_name|]; [| discriminate]. cbn.
  destruct (foldl _ _ (seq 0 nmapped)) as [tmp counter'].
  assert (forall (l : list (nat * string)) (acc : option results_dict)
                 (res : results_dict),
            foldl (fun acc '(i, t) =>
                     results ← acc;
                     col ← np_column tmp i;
                     Some (set2 param' t (ColNum col) results))
                  acc l = Some res ->
            exists res0 : results_dict,
              acc = Some res0 /\ dict_get param res = dict_get param res0)
    as Hloop.
  { induction l as [|[i t] l IH]; intros acc res; cbn [foldl].
    - intros ->. eauto.
    - intros (res1 & Hacc & ->)%IH.
      destruct acc as [res0|]; [| discriminate]. cbn in Hacc.
      destruct (np_column tmp i) as [col|]; [| discriminate]. cbn in Hacc.
      injection Hacc as <-. exists res0. split; [reflexivity |].
      now apply dict_get_set2_ne. }
  destruct (foldl _ (Some _) (imap pair dyn_name)) as [res|] eqn:Hres;
    [| discriminate].
  cbn. intros [= <-]. cbn.
  apply Hloop in Hres as (res0 & [= <-] & ->).
  now rewrite dict_get_name_column_ne.
Qed.

Lemma collected_loop_unrecognised (vm : VariableMapping) (metab_names : list string)
    (values : list float) (param : string) (beh : behaviour) :
  Parameters vm !! param = Some beh ->
  unrecognised beh ->
  forall (l : list (nat * string)) (st st' : results_dict * nat),
    for_each_pure l
      (fun '(index, param) st =>
         collect_group vm metab_names values index param st) st = Some st' ->
    param ∈ l.*2 \/ dict_get param st.1 = Some [] ->
    dict_get param st'.1 = Some [].
Proof.
  intros Hbeh Hun. induction l as [|[index p] l IH]; intros st st'; cbn.
  - intros [= <-] [Hin | Hget]; [| exact Hget]. now apply elem_of_nil in Hin.
  - destruct (collect_group vm metab_names values index p st) as [st1|] eqn:Hstep;
      [| discriminate].
    cbn. intros Hrest Hor. apply (IH _ _ Hrest).
    destruct (decide (param = p)) as [<- | Hne].
    + right. destruct st as [results counter].
      destruct (vm_mapped_sizes vm !! index) as [nmapped|] eqn:Hsize.
      * rewrite (collect_group_unrecognised _ _ _ _ _ _ _ _ _ Hsize Hbeh Hun)
          in Hstep.
        injection Hstep as <-. apply dict_get_set_eq.
      * unfold collect_group in Hstep. rewrite Hsize in Hstep. discriminate.
    + destruct Hor as [Hin | Hget].
      * left. apply elem_of_cons in Hin as [-> | Hin]; [contradiction | exact Hin].
      * right. rewrite (collect_group_other _ _ _ _ _ _ _ _ Hne Hstep). exact Hget.
Qed.

(** C7. [collected_results] with no output file is a pure read: it
    leaves the store as it found it, a second call right after the first
    returns the same dictionary, and nothing the results object returns
    has changed. *)
Theorem collected_results_pure_read (r : dynRes) (h h' : heap)
    (res : results_dict) :
  collected_results r h = Some (res, h') ->
  h' = h /\
  collected_results r h' = Some (res, h') /\
  (res1 ← collected_results r;
   res2 ← collected_results r;
   mret (res1, res2)) h = Some ((res, res), h) /\
  observe r h' = observe r h.
Proof.
  intros Hcall. assert (h' = h) as ->.
  { rewrite collected_results_eq in Hcall.
    destruct (h !! _dyn r ≫= as_dyn) as [d|]; [| discriminate].
    destruct (collected r d); [| discriminate]. now injection Hcall. }
  repeat split; try assumption.
  now rewrite !bind_unfold, Hcall, bind_unfold, Hcall.
Qed.

Lemma example_collected_eq :
  collected_results Examples.example_result Examples.example_store_after
  = Some (example_collected, Examples.example_store_after).
Proof. vm_compute. reflexivity. Qed.

Lemma collected_results_pure_read_witness :
  let r := Examples.example_result in
  let h := Examples.example_store_after in
  collected_results r h = Some (example_collected, h) /\
  h = h /\
  collected_results r h = Some (example_collected, h) /\
  (res1 ← collected_results r;
   res2 ← collected_results r;
   mret (res1, res2)) h = Some ((example_collected, example_collected), h) /\
  observe r h = observe r h.
Proof.
  intros r h. split; [exact example_collected_eq |].
  exact (collected_results_pure_read r h h example_collected example_collected_eq).
Defined.

(** C8. A parameter group whose behaviour is neither ['fixed'] nor
    ['variable'] and does not contain ['dynamic'] is passed over in
    silence: its pass of the loop raises nothing, sets the entry of the
    group to the empty dictionary and leaves the counter into the value
    vector where it was; and in what [collected_results] returns the
    entry of the group is empty. *)
Theorem unrecognised_behaviour_is_skipped (r : dynRes) (h h' : heap)
    (d : dynMRS) (res : results_dict) (param : string) (beh : behaviour) :
  h !! _dyn r = Some (ODyn d) ->
  collected_results r h = Some (res, h') ->
  param ∈ vm_mapped_names (vm d) ->
  Parameters (vm d) !! param = Some beh ->
  unrecognised beh ->
  dict_get param res = Some [] /\
  forall (index nmapped : nat) (results : results_dict) (counter : nat),
    vm_mapped_sizes (vm d) !! index = Some nmapped ->
    collect_group (vm d) (metabolite_names d) (x r) index param (results, counter)
    = Some (dict_set param [] results, counter).
Proof.
  intros Hd Hcall Hin Hbeh Hun. split.
  - rewrite collected_results_eq, Hd in Hcall. cbn in Hcall.
    destruct (collected r d) as [st|] eqn:Hst; [| discriminate].
    injection Hcall as <- _.
    apply (collected_loop_unrecognised _ _ _ _ _ Hbeh Hun _ _ _ Hst).
    left. apply list_elem_of_lookup in Hin as [i Hi].
    apply list_elem_of_fmap. exists (i, param). split; [reflexivity |].
    apply list_elem_of_lookup. exists i.
    now rewrite list_lookup_imap, Hi.
  - intros index nmapped results counter Hsize.
    now apply (collect_group_unrecognised _ _ _ _ nmapped _ beh).
Qed.

Lemma unrecognised_behaviour_is_skipped_witness :
  let r := Examples.example_result in
  let h := Examples.example_store_after in
  let d := with_mrs_list Examples.example_dyn 7 in
  h !! _dyn r = Some (ODyn d) /\
  collected_results r h = Some (example_collected, h) /\
  "sigma" ∈ vm_mapped_names (vm d) /\
  Parameters (vm d) !! "sigma" = Some (BehStr "smooth") /\
  unrecognised (BehStr "smooth") /\
  dict_get "sigma" example_collected = Some [] /\
  forall (index nmapped : nat) (results : results_dict) (counter : nat),
    vm_mapped_sizes (vm d) !! index = Some nmapped ->
    collect_group (vm d) (metabolite_names d) (x r) index "sigma" (results, counter)
    = Some (dict_set "sigma" [] results, counter).
Proof.
  intros r h d.
  assert (h !! _dyn r = Some (ODyn d)) as Hd by (vm_compute; reflexivity).
  assert ("sigma" ∈ vm_mapped_names (vm d)) as Hin.
  { apply (bool_decide_unpack _). vm_compute. exact I. }
  assert (Parameters (vm d) !! "sigma" = Some (BehStr "smooth")) as Hbeh
    by (vm_compute; reflexivity).
  assert (unrecognised (BehStr "smooth")) as Hun.
  { unfold unrecognised.
    split; [discriminate | split; [discriminate | vm_compute; reflexivity]]. }
  repeat (split; [first [exact Hd | exact example_collected_eq | exact Hin
                        | exact Hbeh | exact Hun] |]).
  exact (unrecognised_behaviour_is_skipped r h h d example_collected "sigma"
           (BehStr "smooth") Hd example_collected_eq Hin Hbeh Hun).
Defined.

End CollectedFacts.

(** ** dyn_results.py: the point estimate and the Newton uncertainties *)

Module NewtonFacts.
Import Examples Float64 Py PyFacts DynResults DeepcopyFacts GetterFacts.


Lemma pd_DataFrame_inv (samples : list (list float)) (names : list string)
    (df : DataFrame) :
  pd_DataFrame samples names = Some df ->
  df = {| columns := names; rows := samples |} /\
  Forall (fun row => length row = length names) samples.
Proof.
  unfold pd_DataFrame. destruct (forallb _ samples) eqn:Hall; [| discriminate].
  intros [= <-]. split; [reflexivity |].
  apply Forall_forall. intros row Hrow.
  rewrite forallb_forall in Hall. apply Nat.eqb_eq, Hall.
  now apply list_elem_of_In.
Qed.

(** [x] is the list of the column means. *)
Lemma x_lookup (r : dynRes) (j : nat) :
  j < length (columns (data_frame r)) ->
  x r !! j = Some (nanmean (df_column (data_frame r) j)).
Proof.
  intros Hj. unfold x, df_mean. rewrite list_lookup_imap.
  destruct (lookup_lt_is_Some_2 _ _ Hj) as [name ->]. reflexivity.
Qed.


(** The diagonal of a matrix whose rows are at least as long as it has
    rows. *)
Lemma np_diagonal_from (m : matrix) (k : nat) :
  Forall (fun row => k + length m <= length row) m ->
  omap id (imap (fun i row => row !! (k + i)) m)
  = imap (fun i row => default 0%float (row !! (k + i))) m.
Proof.
  revert k. induction m as [|row m IH]; intros k Hrows; [reflexivity |].
  apply Forall_cons in Hrows as [Hrow Hrows]. cbn [length] in *.
  cbn [imap omap]. rewrite Nat.add_0_r.
  destruct (lookup_lt_is_Some_2 row k) as [c Hc]; [lia |].
  rewrite Hc. cbn. f_equal.
  rewrite (imap_ext _ (fun i row => row !! (S k + i))),
          (imap_ext (_ ∘ S) (fun i row => default 0%float (row !! (S k + i)))).
  - apply IH. eapply Forall_impl; [exact Hrows |]. cbn. intros; lia.
  - intros i row' _. cbn. now rewrite Nat.add_succ_r.
  - intros i row' _. cbn. now rewrite Nat.add_succ_r.
Qed.

Lemma np_diagonal_square (cov : matrix) :
  Forall (fun row => length row = length cov) cov ->
  length (np_diagonal cov) = length cov /\
  forall (i : nat) (row : list float) (c : float),
    cov !! i = Some row -> row !! i = Some c -> np_diagonal cov !! i = Some c.
Proof.
  intros Hsq. unfold np_diagonal.
  assert (Forall (fun row => 0 + length cov <= length row) cov) as Hrows.
  { eapply Forall_impl; [exact Hsq |]. cbn. intros; lia. }
  pose proof (np_diagonal_from cov 0 Hrows) as Hdiag. cbn [Nat.add] in Hdiag.
  rewrite Hdiag. split; [apply length_imap |].
  intros i row c Hrow Hc. rewrite list_lookup_imap, Hrow. cbn. now rewrite Hc.
Qed.

Lemma free_names_eq (r : dynRes) (h : heap) (d : dynMRS) :
  h !! _dyn r = Some (ODyn d) -> free_names r h = Some (Py.free_names d, h).
Proof.
  intros Hd. unfold free_names. now rewrite bind_unfold, (read_dyn_eq _ _ _ Hd).
Qed.

Lemma same_number_refl (v : float) : same_number v v.
Proof. now left. Qed.












(** What the whole constructor returns has the object of lines 414 to
    424 as its free-parameter part. *)
Lemma construct_free_part
    (calculate_lap_cov :
       list float -> (list float -> list complex) -> list complex -> option matrix)
    (Mapped : Type) (mapped_block : dynMRS -> list float -> matrix -> M Mapped)
    (samples : list float) (dyn : loc) (init : gmap string loc) (h h2 : heap)
    (o : dynRes_newton_object Mapped) :
  dynRes_newton_construct calculate_lap_cov Mapped mapped_block samples dyn init h
  = Some (o, h2) ->
  exists h1 : heap,
    dynRes_newton_init calculate_lap_cov samples dyn init h = Some (free_part o, h1) /\
    _corr_dyn (free_part o) = Some (corr_part o).
Proof.
  unfold dynRes_newton_construct. intros Hc.
  apply bind_inv in Hc as (r & h1 & Hr & Hc).
  apply bind_inv in Hc as (corr & h1' & Hcorr & Hc).
  apply lift_inv in Hcorr as [-> Hcorr].
  apply bind_inv in Hc as (d & h1' & _ & Hc).
  apply bind_inv in Hc as (m & h3 & _ & Hret).
  injection Hret as <- _. cbn [free_part corr_part]. eauto.
Qed.


Lemma example_newton_built :
  dynRes_newton_init example_lap_cov Examples.example_samples 0
    Examples.example_init Examples.example_store
  = Some (example_newton, Examples.example_store_after).
Proof. vm_compute. reflexivity. Qed.



(** The quotient of line 425 for an N x N covariance matrix. *)
Lemma corr_dyn_square (b : dynRes) (cov : matrix) :
  Forall (fun row => length row = length cov) cov ->
  _corr_dyn {| base := b; _cov_dyn := cov;
               _std_dyn := map PrimFloat.sqrt (np_diagonal cov) |}
  = Some (zip_with (zip_with PrimFloat.div) cov
            (np_outer (map PrimFloat.sqrt (np_diagonal cov)))).
Proof.
  intros Hsq. unfold _corr_dyn, np_divide. cbn [_cov_dyn _std_dyn].
  destruct (np_diagonal_square cov Hsq) as [Hdl _].
  rewrite decide_True; [reflexivity |].
  apply Forall2_same_length_lookup_2.
  - unfold np_outer. now rewrite !length_map.
  - intros i ra rb Hra Hrb. unfold np_outer in Hrb.
    rewrite list_lookup_fmap in Hrb.
    destruct (map PrimFloat.sqrt (np_diagonal cov) !! i) as [si|]; [| discriminate].
    injection Hrb as <-. rewrite !length_map, Hdl.
    exact (proj1 (Forall_lookup _ _) Hsq i ra Hra).
Qed.

(** C3. In a Newton result the standard deviations of the free
    parameters are the square roots, entry by entry, of the diagonal of
    the covariance matrix that [calculate_lap_cov] returned; where an
    entry of the diagonal is negative the standard deviation is NaN.
    Lines 414 to 424 return with these attributes, and whatever the
    whole constructor returns has them. For an N x N covariance matrix,
    N the number of free parameters, line 425 raises nothing either,
    whatever the signs on the diagonal: the constructor gets to the
    mapped-parameter block with [_corr_dyn] set, and returns or raises
    as that block does; [std_dyn] reports the values against the names
    of the free parameters, in the store the constructor leaves and in
    any that extends it. *)
Theorem newton_std_is_sqrt_of_diagonal
    (calculate_lap_cov :
       list float -> (list float -> list complex) -> list complex -> option matrix)
    (Mapped : Type) (mapped_block : dynMRS -> list float -> matrix -> M Mapped)
    (samples : list float) (dyn : loc) (init : gmap string loc) (h h1 : heap)
    (b : dynRes) (d : dynMRS) (cov : matrix) :
  dynRes_init [samples] dyn init h = Some (b, h1) ->
  h !! dyn = Some (ODyn d) ->
  calculate_lap_cov samples (full_fwd d) (concat (data d)) = Some cov ->
  let std := map PrimFloat.sqrt (np_diagonal cov) in
  let r := {| base := b; _cov_dyn := cov; _std_dyn := std |} in
  dynRes_newton_init calculate_lap_cov samples dyn init h = Some (r, h1) /\
  (forall (i : nat) (c : float),
     np_diagonal cov !! i = Some c ->
     std !! i = Some (PrimFloat.sqrt c) /\
     ((c <? 0)%float = true -> is_nan (PrimFloat.sqrt c) = true)) /\
  (forall (o : dynRes_newton_object Mapped) (h2 : heap),
     dynRes_newton_construct calculate_lap_cov Mapped mapped_block samples dyn init h
     = Some (o, h2) ->
     free_part o = r) /\
  (Forall (fun row => length row = length cov) cov ->
   length cov = length samples ->
   (forall (i : nat) (row : list float) (c : float),
      cov !! i = Some row -> row !! i = Some c ->
      std !! i = Some (PrimFloat.sqrt c)) /\
   dynRes_newton_construct calculate_lap_cov Mapped mapped_block samples dyn init h
   = match mapped_block d samples cov h1 with
     | Some (m, h2) =>
         Some ({| free_part := r;
                  corr_part := zip_with (zip_with PrimFloat.div) cov (np_outer std);
                  mapped_part := m |}, h2)
     | None => None
     end /\
   (forall h2 : heap, h1 ⊆ h2 ->
      fst <$> std_dyn r h2 = Some (zip (Py.free_names d) std))).
Proof.
  intros Hb Hd Hcov std r.
  pose proof Hb as (d0 & Hd0 & Hdf & Hcopy & _)%dynRes_init_inv.
  rewrite Hd in Hd0. injection Hd0 as <-.
  apply deepcopy_spec in Hcopy
    as (d' & items & items' & l' & Hd' & _ & Hsub & _ & _ & Hh1c & _ & _).
  rewrite Hd in Hd'. injection Hd' as <-.
  assert (h1 !! dyn = Some (ODyn d)) as Hd1 by (eapply lookup_weaken; eauto).
  assert (dynRes_newton_init calculate_lap_cov samples dyn init h = Some (r, h1))
    as Hinit.
  { unfold dynRes_newton_init. rewrite bind_unfold, Hb.
    rewrite bind_unfold, (read_dyn_eq _ _ d Hd1).
    cbv zeta. rewrite bind_unfold. unfold lift at 1. now rewrite Hcov. }
  split; [exact Hinit |]. split; [| split].
  { intros i c Hc. split; [| apply Float64Facts.sqrt_neg_nan].
    unfold std. now rewrite list_lookup_fmap, Hc. }
  { intros o h2 Hc. apply construct_free_part in Hc as (h1' & Hr & _).
    rewrite Hinit in Hr. now injection Hr as <- _. }
  intros Hsq Hlen. destruct (np_diagonal_square cov Hsq) as [Hdl Hdiag].
  split; [| split].
  { intros i row c Hrow Hc. unfold std.
    now rewrite list_lookup_fmap, (Hdiag i row c Hrow Hc). }
  { unfold dynRes_newton_construct. rewrite bind_unfold, Hinit.
    rewrite bind_unfold. unfold r, std.
    rewrite (corr_dyn_square b cov Hsq). unfold lift at 1.
    rewrite bind_unfold, (read_dyn_eq _ _ d Hd1).
    rewrite bind_unfold. cbn [_cov_dyn].
    destruct (mapped_block d samples cov h1) as [[m h2]|]; reflexivity. }
  intros h2 Hh2.
  unfold std_dyn, r. cbn [base _std_dyn].
  assert (h2 !! _dyn b = Some (ODyn (with_mrs_list d l'))) as Hc2
    by (eapply lookup_weaken; eauto).
  rewrite bind_unfold, (free_names_eq _ _ _ Hc2). cbn [Py.free_names with_mrs_list].
  unfold lift, pd_Series.
  apply pd_DataFrame_inv in Hdf as [_ Hrow].
  apply Forall_cons in Hrow as [Hrow _].
  unfold std. rewrite length_map, Hdl, Hlen, Hrow, Nat.eqb_refl. reflexivity.
Qed.

Lemma newton_std_is_sqrt_of_diagonal_witness :
  let block := fun (_ : dynMRS) (_ : list float) (_ : matrix) => (raise : M unit) in
  dynRes_init [Examples.example_samples] 0 Examples.example_init
    Examples.example_store
    = Some (Examples.example_result, Examples.example_store_after) /\
  Examples.example_store !! 0 = Some (ODyn Examples.example_dyn) /\
  example_lap_cov Examples.example_samples
    (full_fwd Examples.example_dyn)
    (concat (data Examples.example_dyn)) = Some example_cov /\
  dynRes_newton_init example_lap_cov Examples.example_samples 0
    Examples.example_init Examples.example_store
    = Some (example_newton, Examples.example_store_after) /\
  _std_dyn example_newton = map PrimFloat.sqrt (np_diagonal example_cov) /\
  _std_dyn example_newton !! 0 = Some nan /\
  dynRes_newton_construct example_lap_cov unit block Examples.example_samples 0
    Examples.example_init Examples.example_store
    = None /\
  fst <$> std_dyn example_newton Examples.example_store_after
    = Some (zip (Py.free_names Examples.example_dyn) (_std_dyn example_newton)).
Proof.
  intros block.
  assert (Examples.example_store !! 0 = Some (ODyn Examples.example_dyn))
    as Hd by (vm_compute; reflexivity).
  assert (Forall (fun row => length row = length example_cov) example_cov) as Hsq.
  { apply (bool_decide_unpack _). vm_compute. exact I. }
  split; [exact IsolationFacts.example_built |]. split; [exact Hd |].
  split; [reflexivity |].
  destruct (newton_std_is_sqrt_of_diagonal example_lap_cov unit block
              Examples.example_samples 0 Examples.example_init
              Examples.example_store Examples.example_store_after
              Examples.example_result Examples.example_dyn example_cov
              IsolationFacts.example_built Hd eq_refl)
    as (Hinit & Hstd & _ & Hrest).
  destruct (Hrest Hsq eq_refl) as (_ & Hwhole & Hnames).
  split; [exact Hinit |]. split; [vm_compute; reflexivity |].
  split; [vm_compute; reflexivity |].
  split; [exact Hwhole |].
  exact (Hnames Examples.example_store_after (reflexivity _)).
Defined.

End NewtonFacts.

(** ** fsl_dynmrs.py: the water-reference option *)

Module FslDynmrsFacts.
Import FslDynmrs.

Lemma run_bind_unfold {A B : Type} (m : Run A) (k : A -> Run B) (w : world) :
  (m ≫= k) w = match m w with
               | (inr a, w') => k a w'
               | (inl e, w') => (inl e, w')
               end.
Proof. reflexivity. Qed.

Lemma mkdir_returns (p : string) (w w1 : world) (u : unit) :
  mkdir p w = (inr u, w1) -> p ∈ dirs w1 /\ files_read w1 = files_read w.
Proof.
  unfold mkdir. repeat case_decide; try discriminate.
  intros [= _ <-]. cbn [dirs files_read]. split; [| reflexivity].
  rewrite !elem_of_union, elem_of_singleton. auto.
Qed.

Lemma rmtree_files_read (p : string) (w w1 : world) (r : exn + unit) :
  rmtree p w = (r, w1) -> files_read w1 = files_read w.
Proof. unfold rmtree. repeat case_decide; intros [= _ <-]; reflexivity. Qed.

(** When the folder step returns, the output folder exists and no file
    has been read. *)
Lemma check_output_folder_returns (args : Args) (w w1 : world) (u : unit) :
  check_output_folder args w = (inr u, w1) ->
  output args ∈ dirs w1 /\ files_read w1 = files_read w.
Proof.
  assert (forall w0 : world, files_read w0 = files_read w ->
            match rmtree (output args) w0 with
            | (inr _, w2) => mkdir (output args) w2
            | (inl e, w2) => (inl e, w2)
            end = (inr u, w1) ->
            output args ∈ dirs w1 /\ files_read w1 = files_read w) as Hremake.
  { intros w0 Hw0.
    destruct (rmtree (output args) w0) as [[e | []] w2] eqn:Hrm; [discriminate |].
    apply rmtree_files_read in Hrm. intros Hmk.
    apply mkdir_returns in Hmk as [Hin Hfr]. split; [exact Hin | congruence]. }
  unfold check_output_folder, is_dir, input, print, exit, throw,
    mbind, Run_bind, mret, Run_ret.
  destruct (bool_decide (output args ∈ dirs w)).
  - destruct (overwrite args); cbn -[rmtree mkdir].
    + apply Hremake. reflexivity.
    + destruct (stdin w) as [|line rest]; [discriminate |].
      destruct (bool_decide (upper line = "Y")); cbn -[rmtree mkdir];
        [| discriminate].
      apply Hremake. reflexivity.
  - apply mkdir_returns.
Qed.

(** C9, as the code has it. With [--h2o] on the command line the script
    never reaches the fitting: whatever the rest of the run would do, the
    outcome is the same without it. If the output-folder step ends the
    run (the user declines to overwrite, or no answer can be read), it
    ends there, before the check. Otherwise the output folder has been
    made (an existing one removed first) and the input file has been
    asked for by the time the run stops, with NotImplementedError and
    its message if the data could be read. *)
Theorem h2o_rejected_before_fitting (Data : Type)
    (read_FID : string -> option Data) (shape dim_tags : Data -> string)
    (fit_and_save fit_and_save' : Args -> Data -> Run unit)
    (args : Args) (w : world) (s : string) :
  h2o args = Some s ->
  main Data read_FID shape dim_tags fit_and_save args w
    = main Data read_FID shape dim_tags fit_and_save' args w /\
  match check_output_folder args w with
  | (inl e, w1) =>
      main Data read_FID shape dim_tags fit_and_save args w = (inl e, w1)
  | (inr _, w1) =>
      output args ∈ dirs w1 /\
      dirs (main Data read_FID shape dim_tags fit_and_save args w).2 = dirs w1 /\
      files_read (main Data read_FID shape dim_tags fit_and_save args w).2
        = files_read w ++ [data args] /\
      (main Data read_FID shape dim_tags fit_and_save args w).1
        = match read_FID (data args) with
          | Some _ => inl (NotImplementedError h2o_message)
          | None => inl ReadError
          end
  end.
Proof.
  intros Hh2o. unfold main. rewrite !(run_bind_unfold (check_output_folder args)).
  destruct (check_output_folder args w) as [[e | u] w1] eqn:Hfolder.
  { split; reflexivity. }
  apply check_output_folder_returns in Hfolder as [Hdir Hfiles].
  rewrite Hh2o.
  unfold when, mrs_io_read_FID, print, throw, mbind, Run_bind, mret, Run_ret.
  destruct (verbose args), (read_FID (data args)); cbn; rewrite Hfiles; auto.
Qed.

Lemma h2o_rejected_before_fitting_witness :
  let read_FID := fun _ : string => Some tt in
  let show := fun _ : unit => "" in
  let fit := fun (_ : Args) (_ : unit) => mret tt : Run unit in
  h2o example_args = Some "wref.nii.gz" /\
  main unit read_FID show show fit example_args example_world
    = main unit read_FID show show (fun _ _ => print "fitted") example_args
        example_world /\
  (main unit read_FID show show fit example_args example_world).1
    = inl (NotImplementedError h2o_message).
Proof.
  intros read_FID show fit. split; [reflexivity |].
  pose proof (h2o_rejected_before_fitting unit read_FID show show fit
                (fun _ _ => print "fitted") example_args example_world
                "wref.nii.gz" eq_refl) as [Hsame Hrest].
  split; [exact Hsame |].
  destruct (check_output_folder example_args example_world) as [[e | u] w1]
    eqn:Hfolder.
  - apply (f_equal fst) in Hfolder. vm_compute in Hfolder. discriminate Hfolder.
  - exact (proj2 (proj2 (proj2 Hrest))).
Defined.

(** C9, as the specification states it, fails: with the output folder
    present and [--overwrite] given, the folder is removed and made
    again and the input file is read before the error is raised; and
    when the user declines to overwrite, the script exits without the
    error at all. *)
Lemma h2o_partial_execution_counterexample :
  let read_FID := fun _ : string => Some tt in
  let show := fun _ : unit => "" in
  let fit := fun (_ : Args) (_ : unit) => mret tt : Run unit in
  let declining : Args :=
    {| data := "metab.nii.gz"; basis := "basis"; output := "out";
       dyn_config := "config.py"; time_variables := ["bvals"];
       h2o := Some "wref.nii.gz"; verbose := false; overwrite := false |} in
  h2o example_args = Some "wref.nii.gz" /\
  (main unit read_FID show show fit example_args example_world).1
    = inl (NotImplementedError h2o_message) /\
  removed (main unit read_FID show show fit example_args example_world).2
    = ["out"] /\
  files_read (main unit read_FID show show fit example_args example_world).2
    = ["metab.nii.gz"] /\
  ~ rejected_at_once unit read_FID show show fit example_args example_world /\
  (main unit read_FID show show fit declining example_world).1 = inl SystemExit /\
  ~ rejected_at_once unit read_FID show show fit declining example_world.
Proof.
  intros read_FID show fit declining.
  do 4 (split; [reflexivity |]).
  split; [| split; [reflexivity |]].
  - unfold rejected_at_once. intros Heq.
    apply (f_equal (fun p => files_read p.2)) in Heq. discriminate.
  - unfold rejected_at_once. intros Heq.
    apply (f_equal fst) in Heq. discriminate.
Qed.

End FslDynmrsFacts.

(** ** misc.py: hessian and hessian_diag *)

Module HessianFacts.
Import Float64 Py Misc PyFacts MiscFacts.

Section hessian_facts.
Variable f : list float -> float.
Variable x : loc.
Variable a : list float.
Variable gd_0 : list float.
Variable eps : float.
Hypothesis gd_0_length : length gd_0 = length a.

Lemma gradient_at_step_length (i : nat) :
  i < length a -> length (gradient_at_step f a eps i) = length a.
Proof.
  intros Hi. unfold gradient_at_step.
  destruct (lookup_lt_is_Some_2 a i Hi) as [xi ->].
  unfold differences. now rewrite length_imap, length_insert.
Qed.

Lemma hessian_column_length (i : nat) :
  i < length a -> length (hessian_column f a gd_0 eps i) = length a.
Proof.
  intros Hi. unfold hessian_column, np_divs, np_sub.
  rewrite length_map, length_zip_with, gradient_at_step_length by exact Hi. lia.
Qed.

Lemma hessian_column_lookup (i k : nat) (g1 g0 : float) :
  gradient_at_step f a eps i !! k = Some g1 -> gd_0 !! k = Some g0 ->
  hessian_column f a gd_0 eps i !! k = Some ((g1 - g0) / eps)%float.
Proof.
  intros H1 H0. unfold hessian_column, np_divs, np_sub.
  now rewrite list_lookup_fmap, lookup_zip_with, H1, H0.
Qed.

(** The store after one pass: the working copy [gradient] made of the
    moved array has been added, and [x] holds [a] again. *)
Lemma perturbed_store (h : heap) (i : nat) (xi : float) :
  h !! x = Some (ONdarray a) -> a !! i = Some xi ->
  let a1 := <[i := (1 * xi + eps)%float]> a in
  let h1 := <[x := ONdarray a1]> h in
  <[x := ONdarray (<[i := (1 * xi)%float]> a1)]>
    (<[fresh (dom h1) := ONdarray a1]> h1)
  = <[fresh (dom h) := ONdarray (<[i := (xi + eps)%float]> a)]> h.
Proof.
  intros Hx Hi a1 h1. subst a1 h1.
  rewrite list_insert_insert_eq, !Float64Facts.mul_1_l, (list_insert_id _ _ _ Hi).
  rewrite dom_insert_lookup_L by (rewrite Hx; eauto).
  assert (x <> fresh (dom h)) as Hne.
  { intros Heq. pose proof (fresh_not_in h) as Hf. rewrite <- Heq, Hx in Hf.
    discriminate. }
  rewrite insert_insert_ne by exact Hne.
  now rewrite insert_insert_eq, (insert_id _ _ _ Hx).
Qed.

Lemma hessian_body_eq (h : heap) (i : nat) (xi : float) (H : matrix) :
  h !! x = Some (ONdarray a) -> a !! i = Some xi ->
  length H = length a -> Forall (fun row => length row = length a) H ->
  hessian_body x f gd_0 eps i H h
  = Some (zip_with (fun row v => <[i := v]> row) H (hessian_column f a gd_0 eps i),
          <[fresh (dom h) := ONdarray (<[i := (xi + eps)%float]> a)]> h).
Proof.
  intros Hx Hi HH Hrows. pose proof (lookup_lt_Some _ _ _ Hi) as Hlt.
  unfold hessian_body.
  rewrite bind_unfold, (getitem_eq _ _ _ _ _ Hx Hi). cbv zeta.
  rewrite bind_unfold, (setitem_eq _ _ _ _ _ Hx Hlt).
  set (a1 := <[i := (1 * xi + eps)%float]> a).
  set (h1 := <[x := ONdarray a1]> h).
  assert (h1 !! x = Some (ONdarray a1)) as Hx1 by apply lookup_insert_eq.
  rewrite bind_unfold, (gradient_eq _ _ _ _ _ _ Hx1).
  set (h2 := <[fresh (dom h1) := ONdarray a1]> h1).
  assert (h2 !! x = Some (ONdarray a1)) as Hx2.
  { unfold h2. rewrite lookup_insert_ne; [exact Hx1 |].
    intros Heq. pose proof (fresh_not_in h1) as Hf. rewrite Heq, Hx1 in Hf.
    discriminate. }
  unfold size. rewrite !bind_unfold, (read_ndarray_eq _ _ _ Hx2). cbn [mret M_ret].
  assert (differences PrimFloat.sub PrimFloat.div f a1 = gradient_at_step f a eps i)
    as ->.
  { unfold gradient_at_step, a1. now rewrite Hi, Float64Facts.mul_1_l. }
  fold (hessian_column f a gd_0 eps i).
  assert (length a1 = length a) as Ha1 by (unfold a1; now rewrite length_insert).
  rewrite bind_unfold. unfold lift at 1, reshape.
  rewrite decide_True by (rewrite hessian_column_length, Ha1; auto).
  rewrite bind_unfold. unfold lift at 1, setcolumn.
  rewrite decide_True.
  2:{ split; [rewrite hessian_column_length; auto |].
      eapply Forall_impl; [exact Hrows |]. cbn. intros row ->. exact Hlt. }
  rewrite bind_unfold, (setitem_eq _ _ _ _ _ Hx2) by (rewrite Ha1; exact Hlt).
  unfold mret, M_ret. do 2 f_equal. now apply perturbed_store.
Qed.

Lemma hessian_diag_body_eq (h : heap) (i : nat) (xi g1 g0 : float) (D : matrix)
    (row : list float) :
  h !! x = Some (ONdarray a) -> a !! i = Some xi ->
  gradient_at_step f a eps i !! i = Some g1 -> gd_0 !! i = Some g0 ->
  D !! i = Some row ->
  hessian_diag_body x f gd_0 eps i D h
  = Some (<[i := map (fun _ => ((g1 - g0) / eps)%float) row]> D,
          <[fresh (dom h) := ONdarray (<[i := (xi + eps)%float]> a)]> h).
Proof.
  intros Hx Hi Hg1 Hg0 Hrow. pose proof (lookup_lt_Some _ _ _ Hi) as Hlt.
  unfold hessian_diag_body.
  rewrite bind_unfold, (getitem_eq _ _ _ _ _ Hx Hi). cbv zeta.
  rewrite bind_unfold, (setitem_eq _ _ _ _ _ Hx Hlt).
  set (a1 := <[i := (1 * xi + eps)%float]> a).
  set (h1 := <[x := ONdarray a1]> h).
  assert (h1 !! x = Some (ONdarray a1)) as Hx1 by apply lookup_insert_eq.
  rewrite bind_unfold, (gradient_eq _ _ _ _ _ _ Hx1).
  set (h2 := <[fresh (dom h1) := ONdarray a1]> h1).
  assert (h2 !! x = Some (ONdarray a1)) as Hx2.
  { unfold h2. rewrite lookup_insert_ne; [exact Hx1 |].
    intros Heq. pose proof (fresh_not_in h1) as Hf. rewrite Heq, Hx1 in Hf.
    discriminate. }
  assert (differences PrimFloat.sub PrimFloat.div f a1 = gradient_at_step f a eps i)
    as ->.
  { unfold gradient_at_step, a1. now rewrite Hi, Float64Facts.mul_1_l. }
  assert (length a1 = length a) as Ha1 by (unfold a1; now rewrite length_insert).
  rewrite bind_unfold. unfold lift at 1. rewrite Hg1.
  rewrite bind_unfold. unfold lift at 1. rewrite Hg0.
  rewrite bind_unfold. unfold lift at 1, setrow. rewrite Hrow. cbn [mbind option_bind].
  rewrite bind_unfold, (setitem_eq _ _ _ _ _ Hx2) by (rewrite Ha1; exact Hlt).
  unfold mret, M_ret. do 2 f_equal. now apply perturbed_store.
Qed.

Lemma setcolumn_filled (s : nat) (H : matrix) :
  s < length a -> columns_filled f a gd_0 eps s H ->
  columns_filled f a gd_0 eps (S s)
    (zip_with (fun row v => <[s := v]> row) H (hessian_column f a gd_0 eps s)).
Proof.
  intros Hs (HH & Hrows & Hent).
  assert (forall (k : nat) (row' : list float),
            zip_with (fun row v => <[s := v]> row) H
              (hessian_column f a gd_0 eps s) !! k = Some row' ->
            exists (row : list float) (v : float),
              H !! k = Some row /\
              hessian_column f a gd_0 eps s !! k = Some v /\
              row' = <[s := v]> row)
    as Hzip.
  { intros k row'. rewrite lookup_zip_with.
    destruct (H !! k) as [row|]; [| discriminate]. cbn.
    destruct (hessian_column f a gd_0 eps s !! k) as [v|]; [| discriminate]. cbn.
    intros [= <-]. eauto. }
  split; [| split].
  - rewrite length_zip_with, hessian_column_length by exact Hs. lia.
  - apply Forall_lookup. intros k row' (row & v & Hrow & _ & ->)%Hzip.
    rewrite length_insert. exact (proj1 (Forall_lookup _ _) Hrows k row Hrow).
  - intros i k row' Hi (row & v & Hrow & Hv & ->)%Hzip.
    pose proof (proj1 (Forall_lookup _ _) Hrows k row Hrow) as Hlen. cbn in Hlen.
    destruct (decide (i = s)) as [-> | Hne].
    + rewrite list_lookup_insert_eq by lia. now rewrite Hv.
    + rewrite list_lookup_insert_ne by auto. apply (Hent i k row); [lia | exact Hrow].
Qed.

Lemma hessian_loops (n : nat) :
  forall (s : nat) (H D : matrix) (h : heap),
    s + n = length a -> h !! x = Some (ONdarray a) ->
    columns_filled f a gd_0 eps s H -> rows_filled f a gd_0 eps s D ->
    exists (H' D' : matrix) (h' : heap),
      for_each (seq s n) (hessian_body x f gd_0 eps) H h = Some (H', h') /\
      for_each (seq s n) (hessian_diag_body x f gd_0 eps) D h = Some (D', h') /\
      columns_filled f a gd_0 eps (length a) H' /\
      rows_filled f a gd_0 eps (length a) D' /\
      h' !! x = Some (ONdarray a) /\ (h ⊆ h').
Proof.
  induction n as [|n IH]; intros s H D h Hlen Hx HH HD; cbn [seq for_each].
  - exists H, D, h. replace (length a) with s by lia.
    do 2 (split; [reflexivity |]). auto.
  - assert (s < length a) as Hs by lia.
    destruct (lookup_lt_is_Some_2 a s Hs) as [xi Hxi].
    destruct (lookup_lt_is_Some_2 (gradient_at_step f a eps s) s) as [g1 Hg1];
      [now rewrite gradient_at_step_length |].
    destruct (lookup_lt_is_Some_2 gd_0 s) as [g0 Hg0]; [lia |].
    destruct HD as (HDlen & HDrows & HDent).
    destruct (lookup_lt_is_Some_2 D s) as [row Hrow]; [lia |].
    pose proof (proj1 (Forall_lookup _ _) HDrows s row Hrow) as Hrow1. cbn in Hrow1.
    rewrite !bind_unfold.
    rewrite (hessian_body_eq h s xi H Hx Hxi (proj1 HH) (proj1 (proj2 HH))).
    rewrite (hessian_diag_body_eq h s xi g1 g0 D row Hx Hxi Hg1 Hg0 Hrow).
    set (h1 := <[fresh (dom h) := ONdarray (<[s := (xi + eps)%float]> a)]> h).
    assert (h ⊆ h1) as Hsub by (apply insert_subseteq, fresh_not_in).
    destruct (IH (S s)
                 (zip_with (fun row v => <[s := v]> row) H
                    (hessian_column f a gd_0 eps s))
                 (<[s := map (fun _ => ((g1 - g0) / eps)%float) row]> D) h1)
      as (H' & D' & h' & HlH & HlD & HH' & HD' & Hx' & Hsub').
    + lia.
    + eapply lookup_weaken; eauto.
    + now apply setcolumn_filled.
    + split; [now rewrite length_insert | split].
      * apply Forall_insert; [exact HDrows | now rewrite length_map].
      * intros i Hi. destruct (decide (i = s)) as [-> | Hne].
        -- rewrite list_lookup_insert_eq by lia.
           rewrite (hessian_column_lookup s s g1 g0 Hg1 Hg0). cbn.
           destruct row as [|r [|r' row]]; try discriminate. reflexivity.
        -- rewrite list_lookup_insert_ne by auto. apply HDent. lia.
    + exists H', D', h'. do 5 (split; [assumption |]). now transitivity h1.
Qed.

End hessian_facts.

Section hessian_theorems.
Variable np_linalg_norm : list float -> float.
Variable f : list float -> float.

Lemma np_zeros_length (n m : nat) : length (np_zeros n m) = n.
Proof. unfold np_zeros. apply length_replicate. Qed.

Lemma np_zeros_rows (n m : nat) :
  Forall (fun row => length row = m) (np_zeros n m).
Proof. unfold np_zeros. apply Forall_replicate, length_replicate. Qed.

(** Both functions return, on one store; the matrix of the one holds
    the columns [col], the array of the other their diagonal entries;
    [x] holds its values again and no object of the caller has
    changed. *)
Lemma hessian_both (h : heap) (x : loc) (a : list float) :
  h !! x = Some (ONdarray a) ->
  let gd_0 := differences PrimFloat.sub PrimFloat.div f a in
  let eps := hessian_step np_linalg_norm gd_0 in
  exists (H D : matrix) (h' : heap),
    hessian np_linalg_norm x f h = Some (H, h') /\
    hessian_diag np_linalg_norm x f h = Some (D, h') /\
    columns_filled f a gd_0 eps (length a) H /\
    rows_filled f a gd_0 eps (length a) D /\
    h' !! x = Some (ONdarray a) /\ (h ⊆ h').
Proof.
  intros Hx gd_0 eps.
  assert (length gd_0 = length a) as Hgd by apply length_imap.
  set (h0 := <[fresh (dom h) := ONdarray a]> h).
  assert (h ⊆ h0) as Hsub by (apply insert_subseteq, fresh_not_in).
  assert (h0 !! x = Some (ONdarray a)) as Hx0 by (eapply lookup_weaken; eauto).
  destruct (hessian_loops f x a gd_0 eps Hgd (length a) 0
              (np_zeros (length a) (length a)) (np_zeros (length a) 1) h0)
    as (H & D & h' & HlH & HlD & HH & HD & Hx' & Hsub').
  - lia.
  - exact Hx0.
  - split; [apply np_zeros_length | split; [apply np_zeros_rows |]]. intros; lia.
  - split; [apply np_zeros_length | split; [apply np_zeros_rows |]]. intros; lia.
  - exists H, D, h'. split; [| split].
    + unfold hessian, size.
      rewrite !bind_unfold, (read_ndarray_eq _ _ _ Hx). cbn [mret M_ret]. cbv zeta.
      rewrite bind_unfold, (gradient_eq _ _ _ _ _ _ Hx). exact HlH.
    + unfold hessian_diag, size.
      rewrite !bind_unfold, (read_ndarray_eq _ _ _ Hx). cbn [mret M_ret]. cbv zeta.
      rewrite bind_unfold, (gradient_eq _ _ _ _ _ _ Hx). exact HlD.
    + do 3 (split; [assumption |]). now transitivity h0.
Qed.

End hessian_theorems.

(** X2. [hessian(x, f)] returns, for every float array [x] and scalar
    function [f], an N x N matrix (N = x.size) whose entry (k, i) is
    [(g_i[k] - g_0[k]) / eps], where [g_0 = gradient(x, f)], [g_i] is
    the gradient at [x] with coordinate [i] moved by [eps], and [eps] is
    one step for all coordinates: [norm(g_0) * eps32], or [1e-5] when
    that product is zero. *)
Theorem hessian_forward_differences (np_linalg_norm : list float -> float)
    (f : list float -> float) (h : heap) (x : loc) (a : list float) :
  h !! x = Some (ONdarray a) ->
  let gd_0 := differences PrimFloat.sub PrimFloat.div f a in
  let eps := hessian_step np_linalg_norm gd_0 in
  exists (H : matrix) (h' : heap),
    hessian np_linalg_norm x f h = Some (H, h') /\
    length H = length a /\
    Forall (fun row => length row = length a) H /\
    forall (i k : nat) (xi g0 g1 : float),
      a !! i = Some xi -> gd_0 !! k = Some g0 ->
      differences PrimFloat.sub PrimFloat.div f (<[i := (xi + eps)%float]> a) !! k
        = Some g1 ->
      H !! k ≫= (.!! i) = Some ((g1 - g0) / eps)%float.
Proof.
  intros Hx gd_0 eps.
  destruct (hessian_both np_linalg_norm f h x a Hx)
    as (H & D & h' & HH & _ & (Hlen & Hrows & Hent) & _).
  exists H, h'. do 3 (split; [assumption |]).
  intros i k xi g0 g1 Hi Hg0 Hg1.
  pose proof (lookup_lt_Some _ _ _ Hi) as Hilt.
  assert (k < length H) as Hk.
  { rewrite Hlen. apply lookup_lt_Some in Hg0. unfold gd_0, differences in Hg0.
    now rewrite length_imap in Hg0. }
  destruct (lookup_lt_is_Some_2 H k Hk) as [row Hrow]. rewrite Hrow. cbn.
  rewrite (Hent i k row Hilt Hrow).
  apply hessian_column_lookup; [| exact Hg0]. unfold gradient_at_step. now rewrite Hi.
Qed.

Lemma hessian_forward_differences_witness :
  let h : heap := {[ 0 := ONdarray [2; 3]%float ]} in
  let f := fun a : list float => foldl (fun s v => s + v * v)%float 0%float a in
  let norm := fun g : list float => foldl (fun s v => s + abs v)%float 0%float g in
  h !! 0 = Some (ONdarray [2; 3]%float) /\
  exists (H : matrix) (h' : heap),
    hessian norm 0 f h = Some (H, h') /\ length H = 2.
Proof.
  intros h f norm. split; [reflexivity |].
  destruct (hessian_forward_differences norm f h 0 [2; 3]%float eq_refl)
    as (H & h' & Heq & Hlen & _).
  exists H, h'. split; [exact Heq | exact Hlen].
Defined.

(** X3. [hessian] and [hessian_diag] write to the caller's array (they
    take no copy of it, unlike [gradient]) and put every coordinate back:
    when they return, [x] holds the values it held at entry, and no
    object that existed at entry has changed. *)
Theorem hessian_restores_x (np_linalg_norm : list float -> float)
    (f : list float -> float) (h : heap) (x : loc) (a : list float) :
  h !! x = Some (ONdarray a) ->
  (exists (H : matrix) (h' : heap),
     hessian np_linalg_norm x f h = Some (H, h') /\
     h' !! x = Some (ONdarray a) /\
     forall l : loc, l ∈ dom h -> h' !! l = h !! l) /\
  (exists (D : matrix) (h' : heap),
     hessian_diag np_linalg_norm x f h = Some (D, h') /\
     h' !! x = Some (ONdarray a) /\
     forall l : loc, l ∈ dom h -> h' !! l = h !! l).
Proof.
  intros Hx.
  destruct (hessian_both np_linalg_norm f h x a Hx)
    as (H & D & h' & HH & HD & _ & _ & Hx' & Hsub).
  assert (forall l : loc, l ∈ dom h -> h' !! l = h !! l) as Hframe.
  { intros l [o Ho]%elem_of_dom. rewrite Ho. eapply lookup_weaken; eauto. }
  split; [exists H, h' | exists D, h']; auto.
Qed.

Lemma hessian_restores_x_witness :
  let h : heap := {[ 0 := ONdarray [2; 3]%float ]} in
  let f := fun a : list float => foldl (fun s v => s + v * v)%float 0%float a in
  let norm := fun g : list float => foldl (fun s v => s + abs v)%float 0%float g in
  h !! 0 = Some (ONdarray [2; 3]%float) /\
  exists (H : matrix) (h' : heap),
    hessian norm 0 f h = Some (H, h') /\
    h' !! 0 = Some (ONdarray [2; 3]%float).
Proof.
  intros h f norm. split; [reflexivity |].
  destruct (hessian_restores_x norm f h 0 [2; 3]%float eq_refl)
    as [(H & h' & Heq & Hx & _) _].
  exists H, h'. split; [exact Heq | exact Hx].
Defined.

(** X4. On one array and one function, [hessian_diag] returns the
    diagonal of what [hessian] returns, as an N x 1 array: row [i] is
    the one entry (i, i) of the matrix, bit for bit; the two calls leave
    the store in the same state. *)
Theorem hessian_diag_is_diagonal (np_linalg_norm : list float -> float)
    (f : list float -> float) (h : heap) (x : loc) (a : list float) :
  h !! x = Some (ONdarray a) ->
  exists (H D : matrix) (h' : heap),
    hessian np_linalg_norm x f h = Some (H, h') /\
    hessian_diag np_linalg_norm x f h = Some (D, h') /\
    D = map (fun v => [v]) (DynResults.np_diagonal H).
Proof.
  intros Hx.
  destruct (hessian_both np_linalg_norm f h x a Hx)
    as (H & D & h' & HH & HD & (Hlen & Hrows & Hent) & (HDlen & _ & HDent) & _).
  exists H, D, h'. do 2 (split; [assumption |]).
  assert (Forall (fun row => length row = length H) H) as Hsq by now rewrite Hlen.
  destruct (NewtonFacts.np_diagonal_square H Hsq) as [Hdl Hdiag].
  apply list_eq. intros i. rewrite list_lookup_fmap.
  destruct (decide (i < length a)) as [Hi | Hi].
  - rewrite (HDent i Hi).
    destruct (lookup_lt_is_Some_2 H i) as [row Hrow]; [lia |].
    pose proof (proj1 (Forall_lookup _ _) Hrows i row Hrow) as Hrl. cbn in Hrl.
    destruct (lookup_lt_is_Some_2 row i) as [c Hc]; [lia |].
    rewrite (Hdiag i row c Hrow Hc), <- (Hent i i row Hi Hrow), Hc. reflexivity.
  - rewrite !lookup_ge_None_2; [reflexivity | lia | lia].
Qed.

Lemma hessian_diag_is_diagonal_witness :
  let h : heap := {[ 0 := ONdarray [2; 3]%float ]} in
  let f := fun a : list float => foldl (fun s v => s + v * v)%float 0%float a in
  let norm := fun g : list float => foldl (fun s v => s + abs v)%float 0%float g in
  h !! 0 = Some (ONdarray [2; 3]%float) /\
  exists (H D : matrix) (h' : heap),
    hessian norm 0 f h = Some (H, h') /\
    hessian_diag norm 0 f h = Some (D, h') /\
    D = map (fun v => [v]) (DynResults.np_diagonal H).
Proof.
  intros h f norm. split; [reflexivity |].
  exact (hessian_diag_is_diagonal norm f h 0 [2; 3]%float eq_refl).
Defined.

End HessianFacts.

(** ** misc.py: ppm2hz and hz2ppm *)

Module ShiftFacts.
Import Float64 Misc.

(** X15. The reference of the shifted scale is exact for every central
    frequency that is finite and not zero: 4.65 ppm is 0 Hz (of either
    sign), 0 Hz is 4.65 ppm, and taking 4.65 ppm to Hz and back gives
    4.65 again, with no rounding error. *)
Theorem water_reference_exact (cf : float) :
  is_finite_float cf = true -> (cf =? 0)%float = false ->
  (ppm2hz cf H2O_PPM_TO_TMS true =? 0)%float = true /\
  hz2ppm cf 0 true = H2O_PPM_TO_TMS /\
  hz2ppm cf (ppm2hz cf H2O_PPM_TO_TMS true) true = H2O_PPM_TO_TMS.
Proof.
  unfold is_finite_float, is_nan, is_infinity.
  rewrite !FloatAxioms.eqb_spec, abs_spec.
  change (Prim2SF infinity) with (S754_infinity false).
  change (Prim2SF 0) with (S754_zero false).
  intros Hfin Hnz. split; [| split].
  - unfold ppm2hz. rewrite !mul_spec.
    change (Prim2SF (H2O_PPM_TO_TMS - H2O_PPM_TO_TMS)) with (S754_zero false).
    destruct (Prim2SF cf) as [sg|[|]| |[|] m e]; cbn in Hfin, Hnz |- *;
      try discriminate; reflexivity.
  - apply Prim2SF_inj. unfold hz2ppm. rewrite add_spec, div_spec, mul_spec.
    change (Prim2SF 0) with (S754_zero false).
    destruct (Prim2SF cf) as [sg|[|]| |[|] m e]; cbn in Hfin, Hnz |- *;
      try discriminate; reflexivity.
  - apply Prim2SF_inj. unfold hz2ppm, ppm2hz.
    rewrite add_spec, div_spec, !mul_spec.
    change (Prim2SF (H2O_PPM_TO_TMS - H2O_PPM_TO_TMS)) with (S754_zero false).
    destruct (Prim2SF cf) as [sg|[|]| |[|] m e]; cbn in Hfin, Hnz |- *;
      try discriminate; reflexivity.
Qed.

Lemma water_reference_exact_witness :
  is_finite_float 123.25%float = true /\ (123.25 =? 0)%float = false /\
  hz2ppm 123.25 (ppm2hz 123.25 H2O_PPM_TO_TMS true) true = H2O_PPM_TO_TMS.
Proof.
  split; [reflexivity |]. split; [reflexivity |].
  exact (proj2 (proj2 (water_reference_exact 123.25%float eq_refl eq_refl))).
Defined.

End ShiftFacts.

(** ** dyn_results.py: the grid of subplots *)

Module SubplotFacts.
Import DynResults.

(** The loop runs zero, one or two times. *)
Lemma subplot_shape_cases (n : nat) :
  let s := Nat.sqrt n in
  forall fuel : nat, 2 <= fuel ->
    subplot_shape fuel n
    = Some (if decide (n <= s * s) then (s, s)
            else if decide (n <= s * (s + 1)) then (s, s + 1)
            else (s + 1, s + 1)).
Proof.
  intros s fuel Hfuel. unfold subplot_shape. fold s.
  pose proof (Nat.sqrt_spec n (Nat.le_0_l n)) as [Hlo Hhi]. fold s in Hlo, Hhi.
  destruct fuel as [|[|fuel]]; try lia.
  cbn [subplot_loop].
  destruct (decide (n <= s * s)) as [H1 | H1].
  { rewrite (proj2 (Nat.ltb_ge _ _)) by lia. reflexivity. }
  rewrite (proj2 (Nat.ltb_lt _ _)) by lia.
  change (0 mod 2 =? 0) with true. cbn [negb].
  destruct (decide (n <= s * (s + 1))) as [H2 | H2].
  { rewrite (proj2 (Nat.ltb_ge _ _)) by lia. reflexivity. }
  rewrite (proj2 (Nat.ltb_lt _ _)) by lia.
  change ((0 + 1) mod 2 =? 0) with false. cbn [negb].
  destruct fuel; cbn [subplot_loop];
    rewrite (proj2 (Nat.ltb_ge _ _)) by (cbn in Hhi; nia); reflexivity.
Qed.

(** X5. For a count of plots below 2^52, [subplot_shape] returns after
    at most two passes of its loop, with a grid [(col, row)] that holds
    all the plots, has as many rows as columns or one row more, and has
    no row and no column to spare: with a row less, or a column less,
    the plots would not fit. *)
Theorem subplot_shape_fits (fuel plots_needed : nat) :
  (Z.of_nat plots_needed < 2 ^ 52)%Z -> 2 <= fuel ->
  exists col row : nat,
    subplot_shape fuel plots_needed = Some (col, row) /\
    plots_needed <= col * row /\
    col <= row <= col + 1 /\
    (0 < plots_needed ->
     col * (row - 1) < plots_needed /\ (col - 1) * row < plots_needed).
Proof.
  intros _ Hfuel. rewrite (subplot_shape_cases plots_needed fuel Hfuel).
  set (s := Nat.sqrt plots_needed).
  pose proof (Nat.sqrt_spec plots_needed (Nat.le_0_l _)) as [Hlo Hhi].
  fold s in Hlo, Hhi. cbn in Hhi.
  destruct (decide (plots_needed <= s * s)); [| destruct (decide _)];
    eexists _, _; (split; [reflexivity |]); nia.
Qed.

Lemma subplot_shape_fits_witness :
  (Z.of_nat 7 < 2 ^ 52)%Z /\ 2 <= 2 /\
  exists col row : nat,
    subplot_shape 2 7 = Some (col, row) /\ 7 <= col * row /\
    col <= row <= col + 1 /\
    (0 < 7 -> col * (row - 1) < 7 /\ (col - 1) * row < 7).
Proof.
  split; [reflexivity |]. split; [lia |].
  apply (subplot_shape_fits 2 7); [reflexivity | lia].
Defined.

Lemma subplot_loop_fits (plots_needed : nat) :
  forall (fuel col row counter c r : nat),
    subplot_loop fuel plots_needed col row counter = Some (c, r) ->
    plots_needed <= c * r.
Proof.
  induction fuel as [|fuel IH]; intros col row counter c r; cbn [subplot_loop];
    destruct (col * row <? plots_needed) eqn:Hlt; try discriminate;
    try (intros [= <- <-]; apply Nat.ltb_ge in Hlt; exact Hlt).
  destruct (negb _); apply IH.
Qed.

(** X6. [plot_spectra] unpacks the shape as [row, col] and draws
    spectrum [idx] in row [idx // col + 1], column [idx % col + 1]:
    every spectrum lands inside the [row] x [col] grid that was asked
    for, and no two spectra share a cell. *)
Theorem plot_spectra_cells_in_grid (fuel ntitles row col : nat) :
  (Z.of_nat ntitles < 2 ^ 52)%Z ->
  subplot_shape fuel ntitles = Some (row, col) ->
  (forall idx : nat, idx < ntitles ->
     exists r c : nat,
       subplot_cell col idx = Some (r, c) /\ 1 <= r <= row /\ 1 <= c <= col) /\
  (forall idx idx' : nat, idx < ntitles -> idx' < ntitles ->
     subplot_cell col idx = subplot_cell col idx' -> idx = idx').
Proof.
  intros _ Hshape. apply subplot_loop_fits in Hshape.
  assert (forall idx : nat, idx < ntitles -> (col =? 0) = false) as Hcol.
  { intros idx Hidx. apply Nat.eqb_neq. nia. }
  split.
  - intros idx Hidx. unfold subplot_cell. rewrite (Hcol idx Hidx).
    pose proof (Hcol idx Hidx) as Hne%Nat.eqb_neq.
    eexists _, _. split; [reflexivity |].
    pose proof (Nat.mod_upper_bound idx col Hne).
    assert (idx / col < row) by (apply Nat.Div0.div_lt_upper_bound; nia).
    lia.
  - intros idx idx' Hidx Hidx'. unfold subplot_cell. rewrite (Hcol idx Hidx).
    intros [= Hdiv Hmod].
    rewrite (Nat.div_mod_eq idx col), (Nat.div_mod_eq idx' col).
    assert (idx / col = idx' / col) as -> by lia.
    assert (idx mod col = idx' mod col) as -> by lia. reflexivity.
Qed.

Lemma plot_spectra_cells_in_grid_witness :
  (Z.of_nat 7 < 2 ^ 52)%Z /\
  subplot_shape 2 7 = Some (3, 3) /\
  forall idx : nat, idx < 7 ->
    exists r c : nat,
      subplot_cell 3 idx = Some (r, c) /\ 1 <= r <= 3 /\ 1 <= c <= 3.
Proof.
  split; [reflexivity |]. split; [reflexivity |].
  exact (proj1 (plot_spectra_cells_in_grid 2 7 3 3 eq_refl eq_refl)).
Defined.

End SubplotFacts.

(** ** dyn_results.py: how collected_results lays out the result vector *)

Module LayoutFacts.
Import Examples Float64 Py PyFacts DynResults DeepcopyFacts GetterFacts.
Import CollectedFacts.

Lemma for_each_pure_app {A S : Type} (body : A -> S -> option S) (l1 l2 : list A)
    (s : S) :
  for_each_pure (l1 ++ l2) body s
  = for_each_pure l1 body s ≫= for_each_pure l2 body.
Proof.
  revert s. induction l1 as [|a l1 IH]; intros s; cbn [app for_each_pure].
  - reflexivity.
  - destruct (body a s) as [s'|]; cbn; [apply IH | reflexivity].
Qed.

Lemma set2_get (param key : string) (v : column) (results : results_dict) :
  dict_get param (set2 param key v results)
  = dict_set key v <$> dict_get param results.
Proof.
  unfold set2. destruct (dict_get param results) as [g|] eqn:Hg; cbn.
  - apply dict_get_set_eq.
  - exact Hg.
Qed.

Lemma name_column_eq (param : string) (nmapped : nat) (metab_names : list string)
    (results : results_dict) :
  name_column param nmapped metab_names results
  = set2 param (first_column param nmapped metab_names).1
         (first_column param nmapped metab_names).2 results.
Proof. unfold name_column, first_column. now destruct (bool_decide _). Qed.

Lemma dict_set_fresh {V : Type} (k : string) (v : V) (d : pydict V) :
  k ∉ d.*1 -> dict_set k v d = d ++ [(k, v)].
Proof.
  induction d as [|[k' v'] d IH]; cbn; [reflexivity |].
  intros Hk. apply not_elem_of_cons in Hk as [Hne Hk].
  rewrite decide_False by exact Hne. now rewrite IH.
Qed.

Lemma dict_set_keys {V : Type} (k : string) (v : V) (d : pydict V) :
  (dict_set k v d).*1 = if decide (k ∈ d.*1) then d.*1 else d.*1 ++ [k].
Proof.
  induction d as [|[k' v'] d IH]; cbn.
  - rewrite decide_False; [reflexivity | apply not_elem_of_nil].
  - destruct (decide (k = k')) as [<- | Hne]; cbn.
    + rewrite decide_True; [reflexivity | apply list_elem_of_here].
    + rewrite IH. destruct (decide (k ∈ d.*1)) as [Hin | Hnin].
      * rewrite decide_True; [reflexivity | now apply list_elem_of_further].
      * rewrite decide_False; [reflexivity |].
        intros [? | ?]%elem_of_cons; contradiction.
Qed.

Lemma set2_keys (param key : string) (v : column) (results : results_dict) :
  (set2 param key v results).*1 = results.*1.
Proof.
  unfold set2. destruct (dict_get param results) as [g|] eqn:Hg; [| reflexivity].
  rewrite dict_set_keys. rewrite decide_True; [reflexivity |].
  clear -Hg. induction results as [|[k' v'] results IH]; [discriminate |].
  cbn in Hg |- *. destruct (decide (param = k')) as [<- | Hne].
  - apply list_elem_of_here.
  - apply list_elem_of_further, IH, Hg.
Qed.

Lemma slice_lookup (a : list float) (lo n i : nat) :
  i < n -> slice a lo (lo + n) !! i = a !! (lo + i).
Proof.
  intros Hi. unfold slice. replace (lo + n - lo) with n by lia.
  rewrite lookup_take_lt by exact Hi. apply lookup_drop.
Qed.

Lemma mapM_map {A B C : Type} (g : B -> option C) (f : A -> B) (l : list A) :
  mapM g (map f l) = mapM (fun a => g (f a)) l.
Proof. induction l as [|a l IH]; cbn; [reflexivity | now rewrite IH]. Qed.

Lemma mapM_ext_in {A B : Type} (f g : A -> option B) (l : list A) :
  (forall a : A, a ∈ l -> f a = g a) -> mapM f l = mapM g l.
Proof.
  induction l as [|a l IH]; intros Hext; cbn; [reflexivity |].
  rewrite Hext by apply list_elem_of_here.
  rewrite IH; [reflexivity |]. intros b Hb. now apply Hext, list_elem_of_further.
Qed.

Lemma imap_pair_snd {A : Type} (l : list A) : (imap pair l).*2 = l.
Proof.
  apply list_eq. intros i. rewrite list_lookup_fmap, list_lookup_imap.
  now destruct (l !! i).
Qed.

Lemma np_column_inv (tmp : list (list float)) (i : nat) (col : list float) :
  np_column tmp i = Some col -> mapM (fun r => r !! i) tmp = Some col.
Proof.
  unfold np_column. destruct tmp as [|row tmp]; [discriminate |].
  now destruct (forallb _ _).
Qed.

Lemma slice_length (a : list float) (lo n : nat) :
  length (slice a lo (lo + n)) = min n (length a - lo).
Proof.
  unfold slice. replace (lo + n - lo) with n by lia.
  now rewrite length_take, length_drop.
Qed.

Section group.
Variable vm : VariableMapping.
Variable metab_names : list string.
Variable values : list float.

(** The loop of the variable branch. *)
Lemma time_key_fresh (first : string * column) (nmapped c0 s : nat) :
  first.1 = "name" \/ first.1 = "metab" ->
  "t" +:+ pretty s ∉ (first :: map (time_column values nmapped c0) (seq 0 s)).*1.
Proof.
  intros Hfirst. cbn [fmap list_fmap]. apply not_elem_of_cons. split.
  - destruct Hfirst as [-> | ->]; discriminate.
  - rewrite <- list_fmap_compose. intros (t & Heq & Ht)%list_elem_of_fmap.
    cbn in Heq. injection Heq as Heq. change (pretty s = pretty t) in Heq.
    apply (inj pretty) in Heq. subst t. apply elem_of_seq in Ht. lia.
Qed.

Lemma variable_loop (param : string) (nmapped c0 : nat) (first : string * column) :
  first.1 = "name" \/ first.1 = "metab" ->
  forall (n s : nat) (results : results_dict),
    dict_get param results
      = Some (first :: map (time_column values nmapped c0) (seq 0 s)) ->
    exists results' : results_dict,
      foldl (fun '(results, counter) t =>
               (set2 param ("t" +:+ pretty t)
                  (ColNum (slice values counter (counter + nmapped))) results,
                counter + nmapped))
            (results, c0 + s * nmapped) (seq s n)
      = (results', c0 + (s + n) * nmapped) /\
      dict_get param results'
      = Some (first :: map (time_column values nmapped c0) (seq 0 (s + n))).
Proof.
  intros Hfirst. induction n as [|n IH]; intros s results Hg; cbn [seq foldl].
  - exists results. now rewrite Nat.add_0_r.
  - destruct (IH (S s)
                (set2 param ("t" +:+ pretty s)
                   (ColNum (slice values (c0 + s * nmapped)
                                         (c0 + s * nmapped + nmapped))) results))
      as (results' & Hloop & Hg').
    + rewrite set2_get, Hg. cbn [fmap option_fmap option_map].
      rewrite dict_set_fresh by now apply time_key_fresh.
      rewrite seq_S, map_app. reflexivity.
    + exists results'. replace (s + S n) with (S s + n) by lia.
      split; [| exact Hg']. rewrite <- Hloop. do 2 f_equal. lia.
Qed.

Lemma variable_loop_counter (param : string) (nmapped : nat) :
  forall (l : list nat) (results : results_dict) (c : nat),
    (foldl (fun '(results, counter) t =>
              (set2 param ("t" +:+ pretty t)
                 (ColNum (slice values counter (counter + nmapped))) results,
               counter + nmapped))
           (results, c) l).2
    = c + length l * nmapped.
Proof.
  induction l as [|t l IH]; intros results c; cbn [foldl length].
  - cbn. lia.
  - rewrite IH. lia.
Qed.

(** The first loop of the dynamic branch. *)
Lemma dynamic_loop (nfree c0 : nat) :
  forall (n s : nat),
    foldl (fun '(tmp, counter) (t : nat) =>
             (tmp ++ [slice values counter (counter + nfree)], counter + nfree))
          (map (free_row values nfree c0) (seq 0 s), c0 + s * nfree) (seq s n)
    = (map (free_row values nfree c0) (seq 0 (s + n)), c0 + (s + n) * nfree).
Proof.
  induction n as [|n IH]; intros s; cbn [seq foldl].
  - now rewrite Nat.add_0_r.
  - replace (s + S n) with (S s + n) by lia. rewrite <- IH.
    rewrite seq_S, map_app. cbn [map Nat.add]. unfold free_row at 3.
    do 2 f_equal. lia.
Qed.

(** The second loop of the dynamic branch, seen from the group. *)
Lemma columns_loop_none (param : string) (tmp : list (list float))
    (l : list (nat * string)) :
  foldl (fun acc '(i, t) =>
           results ← acc;
           col ← np_column tmp i;
           Some (set2 param t (ColNum col) results))
        None l = None.
Proof. induction l as [|[i t] l IH]; [reflexivity | exact IH]. Qed.

Lemma columns_loop (param : string) (tmp : list (list float)) :
  forall (l : list (nat * string)) (results res' : results_dict) (g : group_result),
    foldl (fun acc '(i, t) =>
             results ← acc;
             col ← np_column tmp i;
             Some (set2 param t (ColNum col) results))
          (Some results) l = Some res' ->
    dict_get param results = Some g ->
    NoDup l.*2 ->
    exists g' : group_result,
      dict_get param res' = Some g' /\
      (forall t : string, t ∉ l.*2 -> dict_get t g' = dict_get t g) /\
      (forall (i : nat) (t : string), (i, t) ∈ l ->
         exists col : list float,
           np_column tmp i = Some col /\ dict_get t g' = Some (ColNum col)).
Proof.
  induction l as [|[i0 t0] l IH]; intros results res' g; cbn [foldl].
  - intros [= <-] Hg _. exists g. split; [exact Hg |]. split; [auto |].
    intros i t Hin. now apply elem_of_nil in Hin.
  - cbn [mbind option_bind].
    destruct (np_column tmp i0) as [col0|] eqn:Hcol0.
    2:{ cbn. rewrite columns_loop_none. discriminate. }
    cbn. intros Hfold Hg Hnd. cbn in Hnd. apply NoDup_cons in Hnd as [Hnin Hnd].
    destruct (IH _ _ (dict_set t0 (ColNum col0) g) Hfold) as (g' & Hg' & Hout & Hin).
    { rewrite set2_get, Hg. reflexivity. }
    { exact Hnd. }
    exists g'. split; [exact Hg' |]. split.
    + intros t Ht. cbn in Ht. apply not_elem_of_cons in Ht as [Hne Ht].
      rewrite (Hout t Ht). now apply dict_get_set_ne.
    + intros i t [[= -> ->] | Hit]%elem_of_cons.
      * exists col0. split; [exact Hcol0 |].
        rewrite (Hout t0 Hnin). apply dict_get_set_eq.
      * now apply Hin.
Qed.

Lemma first_column_key (param : string) (nmapped : nat) :
  (first_column param nmapped metab_names).1 = "name" \/
  (first_column param nmapped metab_names).1 = "metab".
Proof. unfold first_column. destruct (bool_decide _); auto. Qed.

(** The group after its entry has been emptied and its first column
    set. *)
Lemma group_started (param : string) (nmapped : nat) (results : results_dict) :
  dict_get param (name_column param nmapped metab_names (dict_set param [] results))
  = Some [first_column param nmapped metab_names].
Proof.
  rewrite name_column_eq, set2_get, dict_get_set_eq.
  now destruct (first_column param nmapped metab_names).
Qed.

Lemma collect_group_fixed (index nmapped : nat) (param : string)
    (results : results_dict) (c : nat) :
  vm_mapped_sizes vm !! index = Some nmapped ->
  Parameters vm !! param = Some (BehStr "fixed") ->
  exists res' : results_dict,
    collect_group vm metab_names values index param (results, c)
      = Some (res', c + nmapped) /\
    dict_get param res'
      = Some [first_column param nmapped metab_names;
              ("Values", ColNum (slice values c (c + nmapped)))].
Proof.
  intros Hsize Hbeh. unfold collect_group. rewrite Hsize. cbn. rewrite Hbeh. cbn.
  eexists. split; [reflexivity |].
  rewrite set2_get, group_started. cbn [fmap option_fmap option_map].
  rewrite dict_set_fresh; [reflexivity |].
  cbn. apply not_elem_of_cons. split; [| apply not_elem_of_nil].
  destruct (first_column_key param nmapped) as [-> | ->]; discriminate.
Qed.

Lemma collect_group_variable (index nmapped : nat) (param : string)
    (results : results_dict) (c : nat) :
  vm_mapped_sizes vm !! index = Some nmapped ->
  Parameters vm !! param = Some (BehStr "variable") ->
  exists res' : results_dict,
    collect_group vm metab_names values index param (results, c)
      = Some (res', c + ntimes vm * nmapped) /\
    dict_get param res'
      = Some (first_column param nmapped metab_names
              :: map (time_column values nmapped c) (seq 0 (ntimes vm))).
Proof.
  intros Hsize Hbeh. unfold collect_group. rewrite Hsize. cbn. rewrite Hbeh. cbn.
  destruct (variable_loop param nmapped c (first_column param nmapped metab_names)
              (first_column_key param nmapped) (ntimes vm) 0
              (name_column param nmapped metab_names (dict_set param [] results))
              (group_started param nmapped results))
    as (res' & Hloop & Hg).
  exists res'. cbn [Nat.mul Nat.add] in Hloop. rewrite Nat.add_0_r in Hloop.
  rewrite Hloop. split; [reflexivity | exact Hg].
Qed.

Lemma collect_group_dynamic (index nmapped : nat) (param : string)
    (dd : gmap string pyval) (dyn_name : list string)
    (results res' : results_dict) (c c' : nat) :
  vm_mapped_sizes vm !! index = Some nmapped ->
  Parameters vm !! param = Some (BehDict dd) ->
  is_Some (dd !! "dynamic") ->
  params_of (BehDict dd) = Some dyn_name ->
  NoDup dyn_name ->
  collect_group vm metab_names values index param (results, c) = Some (res', c') ->
  c' = c + nmapped * length dyn_name /\
  exists g' : group_result,
    dict_get param res' = Some g' /\
    forall (i : nat) (t : string), dyn_name !! i = Some t ->
      exists col : list float,
        dict_get t g' = Some (ColNum col) /\
        mapM (fun k => values !! (c + k * length dyn_name + i)) (seq 0 nmapped)
          = Some col.
Proof.
  intros Hsize Hbeh Hdyn Hparams Hnd. unfold collect_group.
  rewrite Hsize. cbn [mbind option_bind]. rewrite Hbeh. cbn [mbind option_bind].
  cbn [beh_eq]. unfold dynamic_in. rewrite bool_decide_eq_true_2 by exact Hdyn.
  rewrite Hparams. cbn [mbind option_bind].
  pose proof (dynamic_loop (length dyn_name) c nmapped 0) as Hloop.
  cbn [seq map Nat.mul Nat.add] in Hloop. rewrite Nat.add_0_r in Hloop.
  rewrite Hloop.
  destruct (foldl _ (Some _) (imap pair dyn_name)) as [res1|] eqn:Hcols;
    [| discriminate].
  cbn. intros [= <- <-]. split; [reflexivity |].
  destruct (columns_loop param _ _ _ _ _ Hcols (group_started param nmapped results))
    as (g' & Hg' & _ & Hin).
  { now rewrite imap_pair_snd. }
  exists g'. split; [exact Hg' |]. intros i t Hit.
  destruct (Hin i t) as (col & Hcol & Hget).
  { apply list_elem_of_lookup. exists i. now rewrite list_lookup_imap, Hit. }
  exists col. split; [exact Hget |].
  apply np_column_inv in Hcol. rewrite mapM_map in Hcol. rewrite <- Hcol.
  apply mapM_ext_in. intros k _. unfold free_row.
  rewrite slice_lookup; [reflexivity |]. now apply lookup_lt_Some in Hit.
Qed.

Lemma collect_group_counter (index : nat) (param : string)
    (results res' : results_dict) (c c' : nat) :
  collect_group vm metab_names values index param (results, c) = Some (res', c') ->
  c' = c + consumed vm index param.
Proof.
  unfold collect_group, consumed.
  destruct (vm_mapped_sizes vm !! index) as [nmapped|]; [| discriminate].
  cbn [mbind option_bind].
  destruct (Parameters vm !! param) as [beh|]; [| discriminate].
  cbn [mbind option_bind].
  destruct (beh_eq beh "fixed"); [now intros [= _ <-] |].
  destruct (beh_eq beh "variable").
  { intros [= Hfold]. apply (f_equal snd) in Hfold.
    rewrite variable_loop_counter, length_seq in Hfold. cbn in Hfold. lia. }
  destruct (dynamic_in beh); [| now intros [= _ <-]; lia].
  destruct (params_of beh) as [dyn_name|]; [| discriminate].
  cbn [mbind option_bind].
  pose proof (dynamic_loop (length dyn_name) c nmapped 0) as Hloop.
  cbn [seq map Nat.mul Nat.add] in Hloop. rewrite Nat.add_0_r in Hloop.
  rewrite Hloop.
  destruct (foldl _ (Some _) (imap pair dyn_name)) as [res1|]; [| discriminate].
  cbn. now intros [= _ <-].
Qed.

Lemma loop_counter (l : list (nat * string)) :
  forall st st' : results_dict * nat,
    for_each_pure l
      (fun '(index, param) st =>
         collect_group vm metab_names values index param st)
      st = Some st' ->
    st'.2 = st.2 + sum_list_with (fun '(i, param) => consumed vm i param) l.
Proof.
  induction l as [|[i p] l IH]; intros st st'; cbn [for_each_pure sum_list_with].
  - intros [= <-]. lia.
  - destruct st as [results c].
    destruct (collect_group vm metab_names values i p (results, c))
      as [[res1 c1]|] eqn:Hstep; [| discriminate].
    cbn. intros Hrest%IH. apply collect_group_counter in Hstep. cbn in *. lia.
Qed.

Lemma loop_other (param : string) (l : list (nat * string)) :
  param ∉ l.*2 ->
  forall st st' : results_dict * nat,
    for_each_pure l
      (fun '(index, param) st =>
         collect_group vm metab_names values index param st)
      st = Some st' ->
    dict_get param st'.1 = dict_get param st.1.
Proof.
  induction l as [|[i p] l IH]; intros Hnin st st'; cbn [for_each_pure].
  - now intros [= <-].
  - cbn in Hnin. apply not_elem_of_cons in Hnin as [Hne Hnin].
    destruct (collect_group vm metab_names values i p st) as [st1|] eqn:Hstep;
      [| discriminate].
    cbn. intros Hrest. rewrite (IH Hnin _ _ Hrest).
    exact (collect_group_other _ _ _ _ _ _ _ _ Hne Hstep).
Qed.

Lemma name_column_keys (param : string) (nmapped : nat) (results : results_dict) :
  (name_column param nmapped metab_names results).*1 = results.*1.
Proof. rewrite name_column_eq. apply set2_keys. Qed.

Lemma variable_loop_keys (param : string) (nmapped : nat) :
  forall (l : list nat) (results : results_dict) (c : nat),
    (foldl (fun '(results, counter) t =>
              (set2 param ("t" +:+ pretty t)
                 (ColNum (slice values counter (counter + nmapped))) results,
               counter + nmapped))
           (results, c) l).1.*1
    = results.*1.
Proof.
  induction l as [|t l IH]; intros results c; cbn [foldl]; [reflexivity |].
  rewrite IH. apply set2_keys.
Qed.

Lemma columns_loop_keys (param : string) (tmp : list (list float)) :
  forall (l : list (nat * string)) (results res' : results_dict),
    foldl (fun acc '(i, t) =>
             results ← acc;
             col ← np_column tmp i;
             Some (set2 param t (ColNum col) results))
          (Some results) l = Some res' ->
    res'.*1 = results.*1.
Proof.
  induction l as [|[i t] l IH]; intros results res'; cbn [foldl].
  - now intros [= <-].
  - cbn [mbind option_bind]. destruct (np_column tmp i) as [col|]; cbn.
    + intros Hfold%IH. rewrite Hfold. apply set2_keys.
    + now rewrite columns_loop_none.
Qed.

Lemma collect_group_keys (index : nat) (param : string)
    (results res' : results_dict) (c c' : nat) :
  collect_group vm metab_names values index param (results, c) = Some (res', c') ->
  res'.*1 = (dict_set param ([] : group_result) results).*1.
Proof.
  unfold collect_group.
  destruct (vm_mapped_sizes vm !! index) as [nmapped|]; [| discriminate].
  cbn [mbind option_bind].
  destruct (Parameters vm !! param) as [beh|]; [| discriminate].
  cbn [mbind option_bind].
  destruct (beh_eq beh "fixed").
  { intros [= <- _]. now rewrite set2_keys, name_column_keys. }
  destruct (beh_eq beh "variable").
  { intros [= Hfold]. apply (f_equal fst) in Hfold. cbn [fst] in Hfold.
    now rewrite <- Hfold, variable_loop_keys, name_column_keys. }
  destruct (dynamic_in beh); [| now intros [= <- _]].
  destruct (params_of beh) as [dyn_name|]; [| discriminate].
  cbn [mbind option_bind].
  destruct (foldl _ _ (seq 0 nmapped)) as [tmp counter'].
  destruct (foldl _ (Some _) (imap pair dyn_name)) as [res1|] eqn:Hcols;
    [| discriminate].
  cbn. intros [= <- _]. apply columns_loop_keys in Hcols.
  now rewrite Hcols, name_column_keys.
Qed.

Lemma loop_keys (l : list (nat * string)) :
  forall st st' : results_dict * nat,
    for_each_pure l
      (fun '(index, param) st =>
         collect_group vm metab_names values index param st)
      st = Some st' ->
    NoDup (st.1.*1 ++ l.*2) ->
    st'.1.*1 = st.1.*1 ++ l.*2.
Proof.
  induction l as [|[i p] l IH]; intros st st'; cbn [for_each_pure].
  - intros [= <-] _. cbn. now rewrite app_nil_r.
  - destruct st as [results c].
    destruct (collect_group vm metab_names values i p (results, c))
      as [[res1 c1]|] eqn:Hstep; [| discriminate].
    cbn. intros Hrest Hnd. apply collect_group_keys in Hstep.
    rewrite dict_set_keys in Hstep.
    assert (p ∉ results.*1) as Hnin.
    { apply NoDup_app in Hnd as (_ & Hdisj & _). intros Hin.
      apply (Hdisj p Hin), list_elem_of_here. }
    rewrite decide_False in Hstep by exact Hnin.
    rewrite (IH _ _ Hrest); cbn [fst]; rewrite Hstep, <- app_assoc; [reflexivity |].
    exact Hnd.
Qed.

Lemma columns_loop_is_Some (param : string) (tmp : list (list float)) :
  forall (l : list (nat * string)) (results : results_dict),
    is_Some (foldl (fun acc '(i, t) =>
                      results ← acc;
                      col ← np_column tmp i;
                      Some (set2 param t (ColNum col) results))
                   (Some results) l)
    <-> Forall (fun it => is_Some (np_column tmp it.1)) l.
Proof.
  induction l as [|[i t] l IH]; intros results; cbn [foldl].
  - split; [constructor | eauto].
  - cbn [mbind option_bind]. rewrite Forall_cons. cbn [fst].
    destruct (np_column tmp i) as [col|]; cbn.
    + rewrite IH. split; [eauto | tauto].
    + rewrite columns_loop_none. split; [intros [? [=]] | intros [[? [=]] _]].
Qed.

(** A column of [tmp] can be taken exactly when [tmp] has a row and
    every row reaches the column. *)
Lemma np_column_rows (nfree c0 nmapped i : nat) :
  i < nfree ->
  is_Some (np_column (map (free_row values nfree c0) (seq 0 nmapped)) i) ->
  0 < nmapped /\ c0 + (nmapped - 1) * nfree + i < length values.
Proof.
  intros Hi [col Hcol]. destruct nmapped as [|n]; [discriminate |].
  split; [lia |]. apply np_column_inv in Hcol.
  assert (is_Some (mapM (fun r : list float => r !! i)
                        (map (free_row values nfree c0) (seq 0 (S n))))) as Hsome
    by eauto.
  apply mapM_is_Some_1 in Hsome. rewrite Forall_forall in Hsome.
  destruct (Hsome (free_row values nfree c0 n)) as [v Hv].
  { apply list_elem_of_fmap. exists n. split; [reflexivity |].
    apply elem_of_seq. lia. }
  cbn in Hv. apply lookup_lt_Some in Hv. unfold free_row in Hv.
  rewrite slice_length in Hv. replace (S n - 1) with n by lia. lia.
Qed.

Lemma np_column_Some (tmp : list (list float)) (i m : nat) :
  tmp <> [] -> Forall (fun r => length r = m) tmp -> i < m ->
  is_Some (np_column tmp i).
Proof.
  intros Hne Hrows Hi. unfold np_column. destruct tmp as [|row tmp']; [done |].
  assert (forallb (fun r => length r =? length row) (row :: tmp') = true) as ->.
  { apply forallb_forall. intros r Hr%list_elem_of_In. apply Nat.eqb_eq.
    rewrite Forall_forall in Hrows.
    rewrite (Hrows r Hr), (Hrows row); [reflexivity | apply list_elem_of_here]. }
  apply mapM_is_Some_2. eapply Forall_impl; [exact Hrows |].
  cbn. intros r Hr. apply lookup_lt_is_Some_2. lia.
Qed.

Lemma np_column_full (nfree c0 nmapped i : nat) :
  i < nfree -> 0 < nmapped -> c0 + nmapped * nfree <= length values ->
  is_Some (np_column (map (free_row values nfree c0) (seq 0 nmapped)) i).
Proof.
  intros Hi Hn Hlen. apply (np_column_Some _ i nfree); [| | exact Hi].
  - destruct nmapped; [lia | discriminate].
  - apply Forall_fmap, Forall_seq. intros k Hk. cbn.
    unfold free_row. rewrite slice_length. nia.
Qed.

(** The pass for one group returns exactly when [group_returns] holds. *)
Lemma collect_group_is_Some (index : nat) (param : string)
    (results : results_dict) (c : nat) :
  is_Some (collect_group vm metab_names values index param (results, c))
  <-> group_returns vm values c index param.
Proof.
  unfold collect_group, group_returns.
  destruct (vm_mapped_sizes vm !! index) as [nmapped|]; cbn [mbind option_bind].
  2:{ split; [intros [? [=]] | intros (? & ? & [=] & _)]. }
  destruct (Parameters vm !! param) as [beh|]; cbn [mbind option_bind].
  2:{ split; [intros [? [=]] | intros (? & ? & _ & [=] & _)]. }
  destruct (beh_eq beh "fixed") eqn:Hf.
  { split; [| eauto]. intros _. exists nmapped, beh.
    do 2 (split; [reflexivity |]). congruence. }
  destruct (beh_eq beh "variable") eqn:Hv.
  { split; [| eauto]. intros _. exists nmapped, beh.
    do 2 (split; [reflexivity |]). congruence. }
  destruct (dynamic_in beh) eqn:Hd.
  2:{ split; [| eauto]. intros _. exists nmapped, beh.
      do 2 (split; [reflexivity |]). congruence. }
  destruct (params_of beh) as [dyn_name|] eqn:Hp; cbn [mbind option_bind].
  2:{ split; [intros [? [=]] |].
      intros (n' & beh' & [= <-] & [= <-] & Hdyn).
      destruct (Hdyn Hf Hv Hd) as (dn & Hdn & _). congruence. }
  pose proof (dynamic_loop (length dyn_name) c nmapped 0) as Hloop.
  cbn [seq map Nat.mul Nat.add] in Hloop. rewrite Nat.add_0_r in Hloop.
  rewrite Hloop.
  set (tmp := map (free_row values (length dyn_name) c) (seq 0 nmapped)).
  assert (is_Some (foldl (fun acc '(i, t) =>
                            results ← acc;
                            col ← np_column tmp i;
                            Some (set2 param t (ColNum col) results))
                         (Some (name_column param nmapped metab_names
                                  (dict_set param [] results)))
                         (imap pair dyn_name))
          <-> dyn_name = [] \/
              (0 < nmapped /\ c + nmapped * length dyn_name <= length values))
    as Hcols.
  { rewrite columns_loop_is_Some. split.
    - intros Hall. destruct (decide (dyn_name = [])) as [Hnil | Hnil]; [auto | right].
      assert (0 < length dyn_name) as Hpos.
      { destruct dyn_name; [congruence | cbn; lia]. }
      destruct (lookup_lt_is_Some_2 dyn_name (length dyn_name - 1)) as [t Ht]; [lia |].
      rewrite Forall_forall in Hall.
      destruct (np_column_rows (length dyn_name) c nmapped (length dyn_name - 1))
        as [Hn Hlen]; [lia | | split; [exact Hn | nia]].
      apply (Hall (length dyn_name - 1, t)).
      apply list_elem_of_lookup. exists (length dyn_name - 1).
      now rewrite list_lookup_imap, Ht.
    - intros [-> | [Hn Hlen]]; [constructor |].
      apply Forall_forall. intros [i t] Hit. cbn [fst].
      apply list_elem_of_lookup in Hit as [j Hj].
      rewrite list_lookup_imap in Hj.
      destruct (dyn_name !! j) as [t'|] eqn:Ht'; [| discriminate].
      injection Hj as <- <-. apply lookup_lt_Some in Ht'.
      now apply np_column_full. }
  destruct (foldl _ (Some _) (imap pair dyn_name)) as [res1|]; cbn.
  - split; [| eauto]. intros _. exists nmapped, beh. do 2 (split; [reflexivity |]).
    intros _ _ _. exists dyn_name. split; [exact Hp |].
    apply Hcols. eauto.
  - split; [intros [? [=]] |].
    intros (n' & beh' & [= <-] & [= <-] & Hdyn).
    destruct (Hdyn Hf Hv Hd) as (dn & Hdn & Hok).
    assert (dn = dyn_name) as -> by congruence.
    apply Hcols in Hok as [? [=]].
Qed.

End group.

Lemma collected_inv (r : dynRes) (h h' : heap) (d : dynMRS) (res : results_dict) :
  h !! _dyn r = Some (ODyn d) ->
  collected_results r h = Some (res, h') ->
  exists st : results_dict * nat, collected r d = Some st /\ st.1 = res.
Proof.
  intros Hd. rewrite collected_results_eq, Hd. cbn.
  destruct (collected r d) as [st|]; [| discriminate].
  intros [= <- _]. eauto.
Qed.

(** The pass for the group at [index] is reached with the counter at
    [offset]. *)
Lemma group_reached (r : dynRes) (d : dynMRS) (st : results_dict * nat)
    (index : nat) (param : string) :
  collected r d = Some st ->
  vm_mapped_names (vm d) !! index = Some param ->
  exists (results : results_dict) (st1 : results_dict * nat),
    collect_group (vm d) (metabolite_names d) (x r) index param
      (results, offset (vm d) index) = Some st1 /\
    for_each_pure (drop (S index) (imap pair (vm_mapped_names (vm d))))
      (fun '(index, param) st =>
         collect_group (vm d) (metabolite_names d) (x r) index param st)
      st1 = Some st.
Proof.
  unfold collected, offset. intros Hst Hp.
  set (l := imap pair (vm_mapped_names (vm d))) in *.
  assert (l !! index = Some (index, param)) as Hl.
  { unfold l. now rewrite list_lookup_imap, Hp. }
  rewrite <- (take_drop_middle _ _ _ Hl), for_each_pure_app in Hst.
  destruct (for_each_pure (take index l) _ _) as [[results c]|] eqn:Hbefore;
    [| discriminate].
  cbn [mbind option_bind for_each_pure] in Hst.
  destruct (collect_group _ _ _ index param (results, c)) as [st1|] eqn:Hstep;
    [| discriminate].
  cbn [mbind option_bind] in Hst.
  apply loop_counter in Hbefore. cbn [snd] in Hbefore. subst c.
  exists results, st1. split; [exact Hstep | exact Hst].
Qed.

(** What the pass for the group at [index] leaves in the entry of the
    group is what the caller gets, the names being distinct. *)
Lemma group_pass (r : dynRes) (d : dynMRS) (st : results_dict * nat)
    (index : nat) (param : string) :
  collected r d = Some st ->
  NoDup (vm_mapped_names (vm d)) ->
  vm_mapped_names (vm d) !! index = Some param ->
  exists (results : results_dict) (st1 : results_dict * nat),
    collect_group (vm d) (metabolite_names d) (x r) index param
      (results, offset (vm d) index) = Some st1 /\
    dict_get param st.1 = dict_get param st1.1.
Proof.
  intros Hst Hnd Hp.
  destruct (group_reached r d st index param Hst Hp) as (results & st1 & Hstep & Hrest).
  exists results, st1. split; [exact Hstep |].
  apply (loop_other _ _ _ param _) in Hrest; [exact Hrest |].
  assert (imap pair (vm_mapped_names (vm d)) !! index = Some (index, param)) as Hl
    by now rewrite list_lookup_imap, Hp.
  rewrite <- (imap_pair_snd (vm_mapped_names (vm d))) in Hnd.
  rewrite <- (take_drop_middle _ _ _ Hl), fmap_app, fmap_cons in Hnd.
  apply NoDup_app in Hnd as (_ & _ & Hnd). now apply NoDup_cons in Hnd as [Hnin _].
Qed.

(** The loop over a prefix of the groups returns when each of them has
    what its pass needs. *)
Lemma prefix_returns (r : dynRes) (d : dynMRS) :
  (forall (index : nat) (param : string),
     vm_mapped_names (vm d) !! index = Some param ->
     group_returns (vm d) (x r) (offset (vm d) index) index param) ->
  forall n : nat, n <= length (vm_mapped_names (vm d)) ->
    is_Some (for_each_pure (take n (imap pair (vm_mapped_names (vm d))))
               (fun '(index, param) st =>
                  collect_group (vm d) (metabolite_names d) (x r) index param st)
               ([], 0)).
Proof.
  intros Hall. induction n as [|n IH]; intros Hn; [cbn; eauto |].
  destruct (lookup_lt_is_Some_2 (vm_mapped_names (vm d)) n) as [p Hp]; [lia |].
  assert (imap pair (vm_mapped_names (vm d)) !! n = Some (n, p)) as Hip
    by now rewrite list_lookup_imap, Hp.
  rewrite (take_S_r _ _ _ Hip), for_each_pure_app.
  destruct (IH ltac:(lia)) as [[results c] Hbefore]. rewrite Hbefore.
  cbn [mbind option_bind for_each_pure].
  apply loop_counter in Hbefore. cbn [snd Nat.add] in Hbefore. subst c.
  destruct (proj2 (collect_group_is_Some (vm d) (metabolite_names d) (x r)
                     n p results _) (Hall n p Hp)) as [st1 Hst1].
  unfold offset in Hst1. rewrite Hst1. cbn. eauto.
Qed.

Lemma example_dyn_lookup :
  example_store_after !! _dyn example_result
  = Some (ODyn (with_mrs_list example_dyn 7)).
Proof. vm_compute. reflexivity. Qed.

Lemma example_names_NoDup :
  NoDup (vm_mapped_names (vm (with_mrs_list example_dyn 7))).
Proof. apply (bool_decide_unpack _). vm_compute. exact I. Qed.

(** X7. When the names of the parameter groups are distinct, the
    dictionary [collected_results] returns has exactly these names as
    its keys, in the order of [vm.mapped_names]: one entry per group,
    those of unrecognised behaviour included. *)
Theorem collected_results_keys (r : dynRes) (h h' : heap) (d : dynMRS)
    (res : results_dict) :
  h !! _dyn r = Some (ODyn d) ->
  collected_results r h = Some (res, h') ->
  NoDup (vm_mapped_names (vm d)) ->
  res.*1 = vm_mapped_names (vm d).
Proof.
  intros Hd Hcall Hnd.
  destruct (collected_inv r h h' d res Hd Hcall) as (st & Hst & <-).
  unfold collected in Hst. apply loop_keys in Hst.
  - cbn in Hst. now rewrite imap_pair_snd in Hst.
  - cbn. now rewrite imap_pair_snd.
Qed.

Lemma collected_results_keys_witness :
  let r := example_result in
  let h := example_store_after in
  let d := with_mrs_list example_dyn 7 in
  h !! _dyn r = Some (ODyn d) /\
  collected_results r h = Some (example_collected, h) /\
  NoDup (vm_mapped_names (vm d)) /\
  example_collected.*1 = vm_mapped_names (vm d).
Proof.
  intros r h d.
  split; [exact example_dyn_lookup |]. split; [exact example_collected_eq |].
  split; [exact example_names_NoDup |].
  exact (collected_results_keys r h h d example_collected example_dyn_lookup
           example_collected_eq example_names_NoDup).
Defined.

(** X8. For a group of behaviour ['fixed'], of [nmapped] mapped
    parameters, the entry in what [collected_results] returns has two
    columns: the names (the metabolite names for ['conc'], else
    [param_0], [param_1], ...) and ['Values'], which is the slice of
    [nmapped] entries of the result vector [x] that starts where the
    groups before this one stopped. *)
Theorem fixed_group_layout (r : dynRes) (h h' : heap) (d : dynMRS)
    (res : results_dict) (index nmapped : nat) (param : string) :
  h !! _dyn r = Some (ODyn d) ->
  collected_results r h = Some (res, h') ->
  NoDup (vm_mapped_names (vm d)) ->
  vm_mapped_names (vm d) !! index = Some param ->
  vm_mapped_sizes (vm d) !! index = Some nmapped ->
  Parameters (vm d) !! param = Some (BehStr "fixed") ->
  dict_get param res
  = Some [first_column param nmapped (metabolite_names d);
          ("Values", ColNum (slice (x r) (offset (vm d) index)
                                         (offset (vm d) index + nmapped)))].
Proof.
  intros Hd Hcall Hnd Hp Hsize Hbeh.
  destruct (collected_inv r h h' d res Hd Hcall) as (st & Hst & <-).
  destruct (group_pass r d st index param Hst Hnd Hp) as (results & st1 & Hstep & ->).
  destruct (collect_group_fixed (vm d) (metabolite_names d) (x r) index nmapped
              param results (offset (vm d) index) Hsize Hbeh) as (res' & Heq & Hg).
  rewrite Heq in Hstep. injection Hstep as <-. exact Hg.
Qed.

Lemma fixed_group_layout_witness :
  let r := example_result in
  let h := example_store_after in
  let d := with_mrs_list example_dyn 7 in
  h !! _dyn r = Some (ODyn d) /\
  collected_results r h = Some (example_collected, h) /\
  NoDup (vm_mapped_names (vm d)) /\
  vm_mapped_names (vm d) !! 1 = Some "eps" /\
  vm_mapped_sizes (vm d) !! 1 = Some 1 /\
  Parameters (vm d) !! "eps" = Some (BehStr "fixed") /\
  dict_get "eps" example_collected
  = Some [first_column "eps" 1 (metabolite_names d);
          ("Values", ColNum (slice (x r) (offset (vm d) 1) (offset (vm d) 1 + 1)))].
Proof.
  intros r h d.
  assert (Parameters (vm d) !! "eps" = Some (BehStr "fixed")) as Hbeh
    by (vm_compute; reflexivity).
  split; [exact example_dyn_lookup |]. split; [exact example_collected_eq |].
  split; [exact example_names_NoDup |]. do 2 (split; [reflexivity |]).
  split; [exact Hbeh |].
  exact (fixed_group_layout r h h d example_collected 1 1 "eps" example_dyn_lookup
           example_collected_eq example_names_NoDup eq_refl eq_refl Hbeh).
Defined.

(** X9. For a group of behaviour ['variable'] the entry has the column
    of names and then one column per time point, [t0], [t1], ... in this
    order: the column of time point [t] is the slice of [nmapped]
    entries of [x] that starts [t * nmapped] entries after the start of
    the group, so that the group is stored time point after time
    point. *)
Theorem variable_group_layout (r : dynRes) (h h' : heap) (d : dynMRS)
    (res : results_dict) (index nmapped : nat) (param : string) :
  h !! _dyn r = Some (ODyn d) ->
  collected_results r h = Some (res, h') ->
  NoDup (vm_mapped_names (vm d)) ->
  vm_mapped_names (vm d) !! index = Some param ->
  vm_mapped_sizes (vm d) !! index = Some nmapped ->
  Parameters (vm d) !! param = Some (BehStr "variable") ->
  dict_get param res
  = Some (first_column param nmapped (metabolite_names d)
          :: map (fun t =>
                    ("t" +:+ pretty t,
                     ColNum (slice (x r) (offset (vm d) index + t * nmapped)
                                   (offset (vm d) index + t * nmapped + nmapped))))
                 (seq 0 (ntimes (vm d)))).
Proof.
  intros Hd Hcall Hnd Hp Hsize Hbeh.
  destruct (collected_inv r h h' d res Hd Hcall) as (st & Hst & <-).
  destruct (group_pass r d st index param Hst Hnd Hp) as (results & st1 & Hstep & ->).
  destruct (collect_group_variable (vm d) (metabolite_names d) (x r) index nmapped
              param results (offset (vm d) index) Hsize Hbeh) as (res' & Heq & Hg).
  rewrite Heq in Hstep. injection Hstep as <-. exact Hg.
Qed.

Lemma variable_group_layout_witness :
  let r := example_result in
  let h := example_store_after in
  let d := with_mrs_list example_dyn 7 in
  h !! _dyn r = Some (ODyn d) /\
  collected_results r h = Some (example_collected, h) /\
  NoDup (vm_mapped_names (vm d)) /\
  vm_mapped_names (vm d) !! 2 = Some "gamma" /\
  vm_mapped_sizes (vm d) !! 2 = Some 1 /\
  Parameters (vm d) !! "gamma" = Some (BehStr "variable") /\
  dict_get "gamma" example_collected
  = Some (first_column "gamma" 1 (metabolite_names d)
          :: map (fun t =>
                    ("t" +:+ pretty t,
                     ColNum (slice (x r) (offset (vm d) 2 + t * 1)
                                   (offset (vm d) 2 + t * 1 + 1))))
                 (seq 0 (ntimes (vm d)))).
Proof.
  intros r h d.
  assert (Parameters (vm d) !! "gamma" = Some (BehStr "variable")) as Hbeh
    by (vm_compute; reflexivity).
  split; [exact example_dyn_lookup |]. split; [exact example_collected_eq |].
  split; [exact example_names_NoDup |]. do 2 (split; [reflexivity |]).
  split; [exact Hbeh |].
  exact (variable_group_layout r h h d example_collected 2 1 "gamma"
           example_dyn_lookup example_collected_eq example_names_NoDup
           eq_refl eq_refl Hbeh).
Defined.

(** X10. For a group with a dynamic model whose free parameters have
    distinct names, the column of the free parameter number [i] holds,
    for each of the [nmapped] mapped parameters [k] in turn, the entry
    [start + k * nfree + i] of [x] ([nfree] the number of free
    parameters of the model): the group is stored mapped parameter
    after mapped parameter, and the columns take it apart. *)
Theorem dynamic_group_layout (r : dynRes) (h h' : heap) (d : dynMRS)
    (res : results_dict) (index nmapped : nat) (param : string)
    (dd : gmap string pyval) (dyn_name : list string) :
  h !! _dyn r = Some (ODyn d) ->
  collected_results r h = Some (res, h') ->
  NoDup (vm_mapped_names (vm d)) ->
  vm_mapped_names (vm d) !! index = Some param ->
  vm_mapped_sizes (vm d) !! index = Some nmapped ->
  Parameters (vm d) !! param = Some (BehDict dd) ->
  is_Some (dd !! "dynamic") ->
  params_of (BehDict dd) = Some dyn_name ->
  NoDup dyn_name ->
  forall (i : nat) (t : string), dyn_name !! i = Some t ->
    exists col : list float,
      dict_get param res ≫= dict_get t = Some (ColNum col) /\
      mapM (fun k => x r !! (offset (vm d) index + k * length dyn_name + i))
           (seq 0 nmapped) = Some col.
Proof.
  intros Hd Hcall Hnd Hp Hsize Hbeh Hdyn Hparams Hndp i t Hit.
  destruct (collected_inv r h h' d res Hd Hcall) as (st & Hst & <-).
  destruct (group_pass r d st index param Hst Hnd Hp)
    as (results & [res1 c1] & Hstep & ->).
  destruct (collect_group_dynamic (vm d) (metabolite_names d) (x r) index nmapped
              param dd dyn_name results res1 (offset (vm d) index) c1
              Hsize Hbeh Hdyn Hparams Hndp Hstep) as (_ & g' & Hg' & Hcols).
  destruct (Hcols i t Hit) as (col & Hget & Hcol).
  exists col. cbn [fst]. rewrite Hg'. cbn. auto.
Qed.

Lemma dynamic_group_layout_witness :
  let r := example_result in
  let h := example_store_after in
  let d := with_mrs_list example_dyn 7 in
  let dd : gmap string pyval :=
    <["dynamic" := PStr "model_lin"]> (<["params" := PList ["c_0"; "c_slope"]]> ∅) in
  h !! _dyn r = Some (ODyn d) /\
  collected_results r h = Some (example_collected, h) /\
  NoDup (vm_mapped_names (vm d)) /\
  vm_mapped_names (vm d) !! 0 = Some "conc" /\
  vm_mapped_sizes (vm d) !! 0 = Some 2 /\
  Parameters (vm d) !! "conc" = Some (BehDict dd) /\
  is_Some (dd !! "dynamic") /\
  params_of (BehDict dd) = Some ["c_0"; "c_slope"] /\
  NoDup ["c_0"; "c_slope"] /\
  ["c_0"; "c_slope"] !! 1 = Some "c_slope" /\
  exists col : list float,
    dict_get "conc" example_collected ≫= dict_get "c_slope" = Some (ColNum col) /\
    mapM (fun k => x r !! (offset (vm d) 0 + k * 2 + 1)) (seq 0 2) = Some col.
Proof.
  intros r h d dd.
  assert (Parameters (vm d) !! "conc" = Some (BehDict dd)) as Hbeh
    by (vm_compute; reflexivity).
  assert (is_Some (dd !! "dynamic")) as Hdyn
    by (exists (PStr "model_lin"); vm_compute; reflexivity).
  assert (params_of (BehDict dd) = Some ["c_0"; "c_slope"]) as Hparams
    by (vm_compute; reflexivity).
  assert (NoDup ["c_0"; "c_slope"]) as Hnd
    by (apply (bool_decide_unpack _); vm_compute; exact I).
  split; [exact example_dyn_lookup |]. split; [exact example_collected_eq |].
  split; [exact example_names_NoDup |]. do 2 (split; [reflexivity |]).
  split; [exact Hbeh |]. split; [exact Hdyn |]. split; [exact Hparams |].
  split; [exact Hnd |]. split; [reflexivity |].
  exact (dynamic_group_layout r h h d example_collected 0 2 "conc" dd
           ["c_0"; "c_slope"] example_dyn_lookup example_collected_eq
           example_names_NoDup eq_refl eq_refl Hbeh Hdyn Hparams Hnd
           1 "c_slope" eq_refl).
Defined.

(** X11. [collected_results] raises when a group has no size (the
    list of sizes is shorter than the list of names), when a group has
    no entry in [vm.Parameters], when the behaviour of a group is a
    string other than ['fixed'] and ['variable'] in which ['dynamic']
    occurs (a string cannot be indexed by ['params']), and when it is a
    dictionary with the key ['dynamic'] and without the key
    ['params']. *)
Theorem collected_results_raises (r : dynRes) (h : heap) (d : dynMRS)
    (index : nat) (param : string) :
  h !! _dyn r = Some (ODyn d) ->
  vm_mapped_names (vm d) !! index = Some param ->
  vm_mapped_sizes (vm d) !! index = None \/
  Parameters (vm d) !! param = None \/
  (exists s : string,
     Parameters (vm d) !! param = Some (BehStr s) /\
     s <> "fixed" /\ s <> "variable" /\ str_contains "dynamic" s = true) \/
  (exists dd : gmap string pyval,
     Parameters (vm d) !! param = Some (BehDict dd) /\
     is_Some (dd !! "dynamic") /\ dd !! "params" = None) ->
  collected_results r h = None.
Proof.
  intros Hd Hp Hbad.
  assert (forall st : results_dict * nat,
            collect_group (vm d) (metabolite_names d) (x r) index param st = None)
    as Hstep.
  { intros [results c]. unfold collect_group.
    destruct (vm_mapped_sizes (vm d) !! index) as [nmapped|];
      [| reflexivity]. cbn [mbind option_bind].
    destruct Hbad as [Hs | [Hb | [(s & Hb & Hf & Hv & Hdy) | (dd & Hb & Hdy & Hpa)]]].
    - discriminate.
    - now rewrite Hb.
    - rewrite Hb. cbn [mbind option_bind beh_eq dynamic_in params_of].
      now rewrite !bool_decide_eq_false_2, Hdy by auto.
    - rewrite Hb. cbn [mbind option_bind beh_eq dynamic_in params_of].
      now rewrite bool_decide_eq_true_2, Hpa by auto. }
  rewrite collected_results_eq, Hd. cbn. unfold collected.
  set (l := imap pair (vm_mapped_names (vm d))).
  assert (l !! index = Some (index, param)) as Hl.
  { unfold l. now rewrite list_lookup_imap, Hp. }
  rewrite <- (take_drop_middle _ _ _ Hl), for_each_pure_app.
  destruct (for_each_pure (take index l) _ _) as [st0|]; [| reflexivity].
  cbn [mbind option_bind for_each_pure]. now rewrite Hstep.
Qed.

Lemma collected_results_raises_witness :
  let r := {| _data := _data example_result; _dyn := 0; _init_x := 4 |} in
  let h : heap := {[ 0 := ODyn example_truncated_dyn ]} in
  h !! _dyn r = Some (ODyn example_truncated_dyn) /\
  vm_mapped_names (vm example_truncated_dyn) !! 1 = Some "eps" /\
  vm_mapped_sizes (vm example_truncated_dyn) !! 1 = None /\
  collected_results r h = None.
Proof.
  intros r h. split; [reflexivity |]. do 2 (split; [reflexivity |]).
  exact (collected_results_raises r h example_truncated_dyn 1 "eps" eq_refl eq_refl
           (or_introl eq_refl)).
Defined.

(** X12. [collected_results] returns exactly when every group has a
    size and a behaviour and every group that takes the dynamic branch
    has its ['params'] and, unless that list is empty, has at least one
    mapped parameter and finds [nmapped * nfree] values left in [x] from
    its start on; in every other case it raises. Groups of behaviour
    ['fixed'] and ['variable'] never raise: where [x] is too short their
    columns are. *)
Theorem collected_results_returns_iff (r : dynRes) (h : heap) (d : dynMRS) :
  h !! _dyn r = Some (ODyn d) ->
  is_Some (collected_results r h) <->
  forall (index : nat) (param : string),
    vm_mapped_names (vm d) !! index = Some param ->
    group_returns (vm d) (x r) (offset (vm d) index) index param.
Proof.
  intros Hd. rewrite collected_results_eq, Hd. cbn. split.
  - intros Hsome index param Hp.
    destruct (collected r d) as [st|] eqn:Hst;
      [| destruct Hsome as [? Hc]; discriminate Hc].
    destruct (group_reached r d st index param Hst Hp) as (results & st1 & Hstep & _).
    apply (collect_group_is_Some _ (metabolite_names d) _ _ _ results). eauto.
  - intros Hall.
    pose proof (prefix_returns r d Hall _ (Nat.le_refl _)) as Hsome.
    rewrite take_ge in Hsome by now rewrite length_imap.
    fold (collected r d) in Hsome. destruct (collected r d); [eauto |].
    destruct Hsome as [? Hc]; discriminate Hc.
Qed.

Lemma collected_results_returns_iff_witness :
  let r := Examples.example_result in
  let h := Examples.example_store_after in
  let d := with_mrs_list Examples.example_dyn 7 in
  h !! _dyn r = Some (ODyn d) /\
  (is_Some (collected_results r h) <->
   forall (index : nat) (param : string),
     vm_mapped_names (vm d) !! index = Some param ->
     group_returns (vm d) (x r) (offset (vm d) index) index param).
Proof.
  intros r h d. split; [exact example_dyn_lookup |].
  exact (collected_results_returns_iff r h d example_dyn_lookup).
Defined.

End LayoutFacts.

(** ** fsl_dynmrs.py: the output folder *)

Module FolderFacts.
Import FslDynmrs FslDynmrsFacts.

(** Only [Y] and [y] become [Y] in upper case. *)
Lemma upper_ascii_Y (c : ascii) :
  upper_ascii c = "Y"%char -> c = "Y"%char \/ c = "y"%char.
Proof.
  destruct c as [[] [] [] [] [] [] [] []]; vm_compute; intros H;
    try discriminate H; auto.
Qed.

Lemma upper_Y (s : string) : upper s = "Y" <-> s = "Y" \/ s = "y".
Proof.
  split.
  - destruct s as [|c [|c' s]]; cbn; try discriminate.
    intros [= Hc]. apply upper_ascii_Y in Hc as [-> | ->]; auto.
  - intros [-> | ->]; reflexivity.
Qed.


















(** A run of the folder step on a tree: with [--overwrite], the
    sub-folder and the file of the old output folder are gone and the
    neighbouring folder stays; for a nested output folder that does not
    exist, its parents are made as well. *)
Lemma folder_step_on_a_tree :
  let w : world :=
    {| dirs := {["out"; "out/sub"; "other"]}; files := {["out/sub/fit.csv"]};
       removed := []; stdin := []; stdout := []; files_read := [] |} in
  let nested : Args :=
    {| data := "metab.nii.gz"; basis := "basis"; output := "res/run1/fit";
       dyn_config := "config.py"; time_variables := ["bvals"];
       h2o := None; verbose := false; overwrite := false |} in
  dirs (check_output_folder example_args w).2 = {["out"; "other"]} /\
  files (check_output_folder example_args w).2 = ∅ /\
  dirs (check_output_folder nested w).2
  = {["res"; "res/run1"; "res/run1/fit"; "out"; "out/sub"; "other"]}.
Proof.
  intros w nested. repeat split; apply (bool_decide_unpack _); vm_compute; exact I.
Qed.

(** X14. When the output folder exists, [--overwrite] was not given and
    the answer to the question is not [Y] or [y], [main] stops there:
    with SystemExit after an answer, with EOFError when there is no line
    to read. Nothing has been removed or made, no input file has been
    read and the fitting has not been started; the question, and after
    an answer the request for another folder name, are all that was
    printed. *)
Theorem main_stops_without_consent (Data : Type)
    (read_FID : string -> option Data) (shape dim_tags : Data -> string)
    (fit_and_save : Args -> Data -> Run unit) (args : Args) (w : world) :
  output args ∈ dirs w -> overwrite args = false ->
  (stdin w = [] ->
   main Data read_FID shape dim_tags fit_and_save args w
   = (inl EOFError,
      {| dirs := dirs w; files := files w; removed := removed w; stdin := [];
         stdout := stdout w ++ [overwrite_prompt args];
         files_read := files_read w |})) /\
  (forall (line : string) (rest : list string),
     stdin w = line :: rest -> line <> "Y" -> line <> "y" ->
     main Data read_FID shape dim_tags fit_and_save args w
     = (inl SystemExit,
        {| dirs := dirs w; files := files w; removed := removed w;
           stdin := rest;
           stdout := stdout w ++ [overwrite_prompt args;
                                  "Please specify a different output folder name."];
           files_read := files_read w |})).
Proof.
  intros Hdir Hov. unfold main.
  rewrite (run_bind_unfold (check_output_folder args)).
  unfold check_output_folder, is_dir, input, print, exit, throw, rmtree, mkdir,
    mbind, Run_bind, mret, Run_ret.
  rewrite bool_decide_eq_true_2 by exact Hdir. rewrite Hov. cbn. split.
  - intros Hin. rewrite Hin. reflexivity.
  - intros line rest Hin HY Hy. rewrite Hin. cbn.
    rewrite bool_decide_eq_false_2 by (rewrite upper_Y; tauto).
    cbn. rewrite <- app_assoc. reflexivity.
Qed.

Lemma main_stops_without_consent_witness :
  let read_FID := fun _ : string => Some tt in
  let show := fun _ : unit => "-" in
  let fit := fun (_ : Args) (_ : unit) => print "fitted" in
  let args : Args :=
    {| data := "metab.nii.gz"; basis := "basis"; output := "out";
       dyn_config := "config.py"; time_variables := ["bvals"];
       h2o := None; verbose := true; overwrite := false |} in
  output args ∈ dirs example_world /\ overwrite args = false /\
  stdin example_world = ["n"] /\
  main unit read_FID show show fit args example_world
  = (inl SystemExit,
     {| dirs := {["out"]}; files := ∅; removed := []; stdin := [];
        stdout := [overwrite_prompt args;
                   "Please specify a different output folder name."];
        files_read := [] |}).
Proof.
  intros read_FID show fit args.
  assert (output args ∈ dirs example_world) as Hdir.
  { apply (bool_decide_unpack _). vm_compute. exact I. }
  split; [exact Hdir |]. do 2 (split; [reflexivity |]).
  apply (proj2 (main_stops_without_consent unit read_FID show show fit args
                  example_world Hdir eq_refl) "n" [] eq_refl);
    discriminate.
Defined.

End FolderFacts.

(** ** misc.py: multiply *)

Module MultiplyFacts.
Import Misc.

(** X16. [multiply(x, y)] goes by size, not by shape. When [x] and [y]
    have as many items, whatever their shapes, it returns the item-wise
    products in the shape of [x]; when [y] has one item, that item
    multiplies every item of [x], again in the shape of [x]; in every
    other case (sizes that differ, [y] not of one item) it raises. *)
Theorem multiply_keeps_shape {E : Type} (mul : E -> E -> E) (x y : ndarray E) :
  well_shaped x ->
  (length (items x) = length (items y) ->
   multiply mul x y
   = Some {| shape := shape x; items := zip_with mul (items x) (items y) |}) /\
  (forall v : E, items y = [v] ->
   multiply mul x y
   = Some {| shape := shape x; items := map (fun u => mul u v) (items x) |}) /\
  (length (items x) <> length (items y) -> length (items y) <> 1 ->
   multiply mul x y = None).
Proof.
  intros Hx. unfold well_shaped in Hx. unfold multiply, flatten, np_multiply.
  split; [| split].
  - intros Hlen. rewrite decide_True by exact Hlen. cbn. unfold np_reshape.
    rewrite decide_True; [reflexivity |]. rewrite length_zip_with. lia.
  - intros v Hy. rewrite Hy.
    destruct (decide (length (items x) = length [v])) as [Hlen | Hlen]; cbn.
    + unfold np_reshape.
      rewrite decide_True by (rewrite length_zip_with; cbn in *; lia).
      do 2 f_equal. destruct (items x) as [|u [|u' l]]; try discriminate. reflexivity.
    + assert (np_reshape (map (fun u => mul u v) (items x)) (shape x)
              = Some {| shape := shape x; items := map (fun u => mul u v) (items x) |})
        as Hre.
      { unfold np_reshape. rewrite decide_True; [reflexivity |].
        now rewrite length_map. }
      destruct (items x) as [|u [|u' l]]; cbn in *; first [exact Hre | lia].
  - intros Hne Hy1. rewrite decide_False by exact Hne.
    destruct (items x) as [|u [|u' l]] eqn:Hix, (items y) as [|v [|v' k]] eqn:Hiy;
      cbn in *; try reflexivity; try lia.
    all: unfold np_reshape; rewrite decide_False; [reflexivity |];
      cbn; rewrite ?length_map; cbn; lia.
Qed.

Lemma multiply_keeps_shape_witness :
  let x := {| shape := [2; 1]; items := [1; 2]%float |} in
  let y := {| shape := [1; 2]; items := [3; 4]%float |} in
  well_shaped x /\
  multiply PrimFloat.mul x y = Some {| shape := [2; 1]; items := [3; 8]%float |}.
Proof.
  intros x y. split; [reflexivity |].
  exact (proj1 (multiply_keeps_shape PrimFloat.mul x y eq_refl) eq_refl).
Defined.

End MultiplyFacts.

(** ** dyn_results.py: the correlation matrix of a Newton result *)

Module CorrelationFacts.
Import Examples Float64 Py PyFacts DynResults DeepcopyFacts GetterFacts.
Import NewtonFacts.

Lemma is_nan_spec (v : float) : is_nan v = true <-> Prim2SF v = S754_nan.
Proof.
  split.
  - intros ->%Float64Facts.is_nan_eq. reflexivity.
  - intros Hv. unfold is_nan. rewrite FloatAxioms.eqb_spec, Hv. reflexivity.
Qed.

Lemma div_mul_nan_l (c s v : float) :
  is_nan s = true -> is_nan (c / (s * v)) = true.
Proof.
  rewrite !is_nan_spec, div_spec, mul_spec. intros ->.
  now destruct (Prim2SF c).
Qed.

Lemma div_mul_nan_r (c s v : float) :
  is_nan s = true -> is_nan (c / (v * s)) = true.
Proof.
  rewrite !is_nan_spec, div_spec, mul_spec. intros ->.
  destruct (Prim2SF v); now destruct (Prim2SF c).
Qed.

Lemma np_outer_lookup (std : list float) (i j : nat) (si sj : float) :
  std !! i = Some si -> std !! j = Some sj ->
  np_outer std !! i ≫= (.!! j) = Some (si * sj)%float.
Proof.
  intros Hi Hj. unfold np_outer. rewrite list_lookup_fmap, Hi. cbn.
  now rewrite list_lookup_fmap, Hj.
Qed.

Lemma np_divide_square (cov : matrix) (std : list float) :
  length std = length cov ->
  Forall (fun row => length row = length cov) cov ->
  exists corr : matrix,
    np_divide cov (np_outer std) = Some corr /\
    length corr = length cov /\
    Forall (fun row => length row = length cov) corr /\
    forall (i j : nat) (row : list float) (c si sj : float),
      cov !! i = Some row -> row !! j = Some c ->
      std !! i = Some si -> std !! j = Some sj ->
      corr !! i ≫= (.!! j) = Some (c / (si * sj))%float.
Proof.
  intros Hstd Hsq. unfold np_divide.
  assert (Forall2 (fun ra rb : list float => length ra = length rb) cov (np_outer std))
    as Hshape.
  { apply Forall2_same_length_lookup_2.
    - unfold np_outer. now rewrite length_map.
    - intros i ra rb Hra Hrb. unfold np_outer in Hrb.
      rewrite list_lookup_fmap in Hrb.
      destruct (std !! i) as [si|]; [| discriminate]. injection Hrb as <-.
      rewrite length_map, Hstd.
      exact (proj1 (Forall_lookup _ _) Hsq i ra Hra). }
  rewrite decide_True by exact Hshape. eexists. split; [reflexivity |].
  assert (forall (i : nat) (row' : list float),
            zip_with (zip_with PrimFloat.div) cov (np_outer std) !! i = Some row' ->
            exists (row : list float) (si : float),
              cov !! i = Some row /\ std !! i = Some si /\
              row' = zip_with PrimFloat.div row (map (fun sj => si * sj)%float std))
    as Hrows.
  { intros i row'. rewrite lookup_zip_with. unfold np_outer.
    rewrite list_lookup_fmap.
    destruct (cov !! i) as [row|]; [| discriminate]. cbn.
    destruct (std !! i) as [si|]; [| discriminate]. cbn.
    intros [= <-]. eauto. }
  split; [| split].
  - rewrite length_zip_with. unfold np_outer. rewrite length_map. lia.
  - apply Forall_lookup. intros i row' (row & si & Hrow & _ & ->)%Hrows.
    rewrite length_zip_with, length_map.
    pose proof (proj1 (Forall_lookup _ _) Hsq i row Hrow) as Hlen. cbn in Hlen. lia.
  - intros i j row c si sj Hrow Hc Hsi Hsj.
    rewrite lookup_zip_with, Hrow. cbn. unfold np_outer.
    rewrite list_lookup_fmap, Hsi. cbn.
    now rewrite lookup_zip_with, Hc, list_lookup_fmap, Hsj.
Qed.

(** X17. For a Newton result whose covariance matrix is N x N, the
    correlation matrix [_corr_dyn] is N x N with entry (i, j) equal to
    [cov[i][j] / (std[i] * std[j])]; where the diagonal entry (i, i) of
    the covariance is negative, so that [std[i]] is NaN, every entry of
    row [i] and of column [i] of the correlation matrix is NaN. *)
Theorem corr_dyn_nan_for_negative_variance
    (calculate_lap_cov :
       list float -> (list float -> list complex) -> list complex -> option matrix)
    (samples : list float) (dyn : loc) (init : gmap string loc) (h h' : heap)
    (r : dynRes_newton) :
  dynRes_newton_init calculate_lap_cov samples dyn init h = Some (r, h') ->
  Forall (fun row => length row = length (_cov_dyn r)) (_cov_dyn r) ->
  exists corr : matrix,
    _corr_dyn r = Some corr /\
    length corr = length (_cov_dyn r) /\
    Forall (fun row => length row = length (_cov_dyn r)) corr /\
    (forall (i j : nat) (row : list float) (c si sj : float),
       _cov_dyn r !! i = Some row -> row !! j = Some c ->
       _std_dyn r !! i = Some si -> _std_dyn r !! j = Some sj ->
       corr !! i ≫= (.!! j) = Some (c / (si * sj))%float) /\
    (forall (i : nat) (row : list float) (v : float),
       _cov_dyn r !! i = Some row -> row !! i = Some v -> (v <? 0)%float = true ->
       forall j : nat, j < length (_cov_dyn r) ->
         exists cij cji : float,
           corr !! i ≫= (.!! j) = Some cij /\ is_nan cij = true /\
           corr !! j ≫= (.!! i) = Some cji /\ is_nan cji = true).
Proof.
  intros Hinit Hsq.
  assert (_std_dyn r = map PrimFloat.sqrt (np_diagonal (_cov_dyn r))) as Hstd.
  { unfold dynRes_newton_init in Hinit.
    apply bind_inv in Hinit as (b & h1 & _ & Hrest).
    apply bind_inv in Hrest as (d & h2 & _ & Hrest).
    apply bind_inv in Hrest as (cov & h3 & _ & Hret).
    now injection Hret as <- _. }
  destruct (np_diagonal_square _ Hsq) as [Hdl Hdiag].
  assert (length (_std_dyn r) = length (_cov_dyn r)) as Hlen
    by now rewrite Hstd, length_map.
  destruct (np_divide_square (_cov_dyn r) (_std_dyn r) Hlen Hsq)
    as (corr & Hcorr & Hcl & Hcrows & Hent).
  exists corr. do 4 (split; [assumption |]).
  intros i row v Hrow Hv Hneg j Hj.
  assert (_std_dyn r !! i = Some (PrimFloat.sqrt v)) as Hsi.
  { now rewrite Hstd, list_lookup_fmap, (Hdiag i row v Hrow Hv). }
  pose proof (Float64Facts.sqrt_neg_nan v Hneg) as Hnan.
  destruct (lookup_lt_is_Some_2 (_cov_dyn r) j Hj) as [rowj Hrowj].
  destruct (lookup_lt_is_Some_2 (_std_dyn r) j) as [sj Hsj]; [lia |].
  pose proof (proj1 (Forall_lookup _ _) Hsq i row Hrow) as Hli. cbn in Hli.
  pose proof (proj1 (Forall_lookup _ _) Hsq j rowj Hrowj) as Hlj. cbn in Hlj.
  destruct (lookup_lt_is_Some_2 row j) as [cij Hcij]; [lia |].
  destruct (lookup_lt_is_Some_2 rowj i) as [cji Hcji].
  { apply lookup_lt_Some in Hrow. lia. }
  eexists _, _.
  split; [exact (Hent i j row cij _ sj Hrow Hcij Hsi Hsj) |].
  split; [now apply div_mul_nan_l |].
  split; [exact (Hent j i rowj cji sj _ Hrowj Hcji Hsj Hsi) |].
  now apply div_mul_nan_r.
Qed.

Lemma corr_dyn_nan_for_negative_variance_witness :
  dynRes_newton_init example_lap_cov Examples.example_samples 0
    Examples.example_init Examples.example_store
    = Some (example_newton, Examples.example_store_after) /\
  Forall (fun row => length row = length (_cov_dyn example_newton))
         (_cov_dyn example_newton) /\
  exists corr : matrix,
    _corr_dyn example_newton = Some corr /\
    length corr = length (_cov_dyn example_newton).
Proof.
  assert (Forall (fun row => length row = length (_cov_dyn example_newton))
                 (_cov_dyn example_newton)) as Hsq.
  { apply (bool_decide_unpack _). vm_compute. exact I. }
  split; [exact example_newton_built |]. split; [exact Hsq |].
  destruct (corr_dyn_nan_for_negative_variance example_lap_cov
              Examples.example_samples 0 Examples.example_init
              Examples.example_store Examples.example_store_after example_newton
              example_newton_built Hsq) as (corr & Hcorr & Hlen & _).
  exists corr. split; [exact Hcorr | exact Hlen].
Defined.

End CorrelationFacts.
